(** * Rock-paper-scissors correspondence game: a shallow embedding

    The development follows the TypeScript sources of the framework, one
    module per source file:
    - [framework/core/config/types.ts]            -> [Module Types]
    - [framework/core/engine/turnEngine.ts]       -> [Module TurnEngine]
    - [framework/core/engine/payoffEngine.ts]     -> [Module PayoffEngine]
    - [framework/core/config/loader.ts]           -> [Module Loader]
    - [shared/utils/constants.ts]                 -> [Module Constants]
    - [framework/storage/hmacManager.ts]          -> [Module HmacManager]
    - [framework/storage/checksumManager.ts]      -> [Module ChecksumManager]
    - [framework/storage/encryption.ts]           -> [Module Encryption]
    - [framework/core/schemas/schemaGenerator.ts] -> [Module SchemaGenerator]
    - [App.tsx]                                   -> [Module App], and
      [Module AppFlow] for the version with the flow state

    [Module JS] holds the JavaScript values and string operations the
    sources use, [Module Exn] the exceptions, [Module Zod] the part of the
    zod library behind the schemas and [Module Lib] the log of calls into
    JSON, lz-string, crypto-js and base64. The functions of those libraries
    are parameters of the code that calls them.

    Conventions of the embedding.
    - JavaScript numbers are [JS.number]: the integers and the three
      doubles that are not finite. Round numbers and lengths, which the
      code counts itself, are [Z]; scores and totals, which come from a
      configuration, are any number. Non-integral doubles are outside
      the embedding.
    - JavaScript strings are [string], sequences of 8-bit code units; the
      tokens handled here are base64, hexadecimal and ASCII text.
    - [undefined] in a position of type [T | undefined] is [None].
    - A function that may [throw] returns a [Completion].

    The file has three parts: the embedding of the sources, the vocabulary
    and the examples of the properties, and the properties with their
    proofs. *)

From Stdlib Require Import ZArith Bool Ascii String List Lia.
From stdpp Require Import base decidable option list strings pretty gmap.
Import ListNotations.

Local Open Scope string_scope.
Local Open Scope Z_scope.

(** ** JavaScript values, coercions and completions *)

Module JS.

(** [ToBoolean] on a value of type [string | undefined]: [undefined] and
    the empty string are the two falsy inhabitants. *)
Definition truthy (v : option string) : bool :=
  match v with
  | None => false
  | Some s => negb (String.eqb s "")
  end.

(** [ToBoolean] on a string. *)
Definition truthyString (s : string) : bool := negb (String.eqb s "").

(** The [%] operator on integers: the result takes the sign of the
    dividend, which is [Z.rem]. *)
Definition remainder (a b : Z) : Z := Z.rem a b.

(** [s.length] *)
Definition length (s : string) : Z := Z.of_nat (String.length s).

(** [s.charCodeAt(i)] as the bitwise operators see it: out of range the
    result is [NaN], which [ToInt32] turns into [0]. *)
Definition charCodeAt (s : string) (i : nat) : Z :=
  match String.get i s with
  | Some c => Z.of_N (N_of_ascii c)
  | None => 0
  end.

(** [s.lastIndexOf(c)] for a one-character needle: the index of the last
    occurrence, [-1] when there is none. *)
Fixpoint lastIndexOf (s : string) (c : ascii) : Z :=
  match s with
  | EmptyString => -1
  | String d rest =>
      let r := lastIndexOf rest c in
      if r =? -1 then (if Ascii.eqb d c then 0 else -1) else r + 1
  end.

(** [s.substring(start, end)]: both indices are clamped to the string and
    swapped when out of order. *)
Definition clamp (s : string) (i : Z) : Z := Z.max 0 (Z.min i (length s)).

Definition substring (s : string) (start finish : Z) : string :=
  let a := clamp s start in
  let b := clamp s finish in
  String.substring (Z.to_nat (Z.min a b))
    (Z.to_nat (Z.max a b - Z.min a b)) s.

(** [s.substring(start)] *)
Definition substringFrom (s : string) (start : Z) : string :=
  substring s start (length s).

(** Numbers: the integers, [Infinity], [-Infinity] and [NaN]. *)
Inductive number : Set :=
| Finite (n : Z)
| PositiveInfinity
| NegativeInfinity
| NaN.

#[global] Instance number_eq_dec : EqDecision number.
Proof. solve_decision. Defined.

(** [Number.isFinite(x)] *)
Definition isFinite (x : number) : bool :=
  match x with Finite _ => true | _ => false end.

(** [a + b]: [NaN] is absorbing, and so is the sum of the two infinities;
    an infinity absorbs every finite number. *)
Definition add (a b : number) : number :=
  match a, b with
  | Finite x, Finite y => Finite (x + y)
  | NaN, _ | _, NaN => NaN
  | PositiveInfinity, NegativeInfinity
  | NegativeInfinity, PositiveInfinity => NaN
  | PositiveInfinity, _ | _, PositiveInfinity => PositiveInfinity
  | NegativeInfinity, _ | _, NegativeInfinity => NegativeInfinity
  end.

(** [a < b] and [a > b]: false as soon as one side is [NaN]. *)
Definition lt (a b : number) : bool :=
  match a, b with
  | Finite x, Finite y => x <? y
  | NaN, _ | _, NaN => false
  | _, NegativeInfinity => false
  | NegativeInfinity, _ => true
  | PositiveInfinity, _ => false
  | _, PositiveInfinity => true
  end.

Definition gt (a b : number) : bool := lt b a.

(** [String(n)], as a template literal applies it, for an integer [n]. Up
    to [2^53] in magnitude every integer is a double of its own and is
    written with all its digits. A larger integer is written by the
    digits of the double nearest to it, followed by zeros or, from
    [10^21] on, in exponent notation: [large] stands for that text. *)
Definition numberToString (large : Z -> string) (n : Z) : string :=
  if Z.abs n <=? 2 ^ 53 then pretty n else large n.

(** Values of type [unknown] as they come out of a YAML or JSON parser. *)
#[local] Unset Elimination Schemes.
Inductive Value : Type :=
| Undefined
| Null
| Bool (b : bool)
| Number (n : number)
| Str (s : string)
| Array (elements : list Value)
| Object (properties : list (string * Value)).
#[local] Set Elimination Schemes.

(** [obj[key]]: the value of an own property, [undefined] when absent. *)
Fixpoint getProperty (properties : list (string * Value)) (key : string)
  : Value :=
  match properties with
  | [] => Undefined
  | (k, v) :: rest => if String.eqb k key then v else getProperty rest key
  end.

(** [typeof v === 'object'], which holds of [null], arrays and objects. *)
Definition typeofObject (v : Value) : bool :=
  match v with
  | Null | Array _ | Object _ => true
  | _ => false
  end.

(** [v === null] *)
Definition isNull (v : Value) : bool :=
  match v with Null => true | _ => false end.

(** [Array.isArray(v)] *)
Definition isArray (v : Value) : bool :=
  match v with Array _ => true | _ => false end.

(** [v.key] for a value that is neither [undefined] nor [null], and a key
    that is no member of a prototype: an own property of an object,
    [undefined] on any other value. *)
Definition member (v : Value) (key : string) : Value :=
  match v with
  | Object properties => getProperty properties key
  | _ => Undefined
  end.

(** [JSON.stringify(s)] for a string [s]: the string between double
    quotes, in which the quote, the backslash and the control characters
    are escaped. *)
Definition hexDigit (n : N) : ascii :=
  ascii_of_N (if (n <? 10)%N then 48 + n else 87 + n).

Definition quoteJSONChar (c : ascii) : string :=
  let n := N_of_ascii c in
  let backslash := String (ascii_of_nat 92) EmptyString in
  if (n =? 8)%N then backslash ++ "b"
  else if (n =? 9)%N then backslash ++ "t"
  else if (n =? 10)%N then backslash ++ "n"
  else if (n =? 12)%N then backslash ++ "f"
  else if (n =? 13)%N then backslash ++ "r"
  else if (n =? 34)%N || (n =? 92)%N then backslash ++ String c EmptyString
  else if (n <? 32)%N then
    backslash ++ "u00"
      ++ String (hexDigit (n / 16)) (String (hexDigit (n mod 16)) EmptyString)
  else String c EmptyString.

Fixpoint quoteJSONBody (s : string) : string :=
  match s with
  | EmptyString => EmptyString
  | String c rest => quoteJSONChar c ++ quoteJSONBody rest
  end.

Definition quoteJSONString (s : string) : string :=
  String (ascii_of_nat 34) (quoteJSONBody s)
    ++ String (ascii_of_nat 34) EmptyString.

(** [v.key] for any value: reading a property of [undefined] or of [null]
    is a [TypeError], here [None]. *)
Definition property (v : Value) (key : string) : option Value :=
  match v with
  | Undefined | Null => None
  | _ => Some (member v key)
  end.

(** [s === v] for a string [s]. *)
Definition strictEqualsString (s : string) (v : Value) : bool :=
  match v with
  | Str t => String.eqb s t
  | _ => false
  end.

(** [n === v] for an integer [n]. *)
Definition strictEqualsInteger (n : Z) (v : Value) : bool :=
  match v with
  | Number (Finite m) => n =? m
  | _ => false
  end.

End JS.

(** An integer is read as a number where one is expected. *)
Coercion JS.Finite : Z >-> JS.number.

(** ** framework/core/config/types.ts *)

Module Types.

(** [PlayerNumber], the union [1 | 2] (declared in baseSchema). *)
Inductive PlayerNumber : Set := P1 | P2.

#[export] Instance PlayerNumber_eq_dec : EqDecision PlayerNumber.
Proof. solve_decision. Defined.

Record ChoiceOption := {
  id : string;
  label : string;
  description : option string;
  icon : option string;
}.

(** The nested objects [condition] and [outcome] are flattened. *)
Record PayoffRule := {
  condition_player1 : string;
  condition_player2 : string;
  outcome_player1 : JS.number;
  outcome_player2 : JS.number;
  outcomeText : option string;
}.

Record GameMetadata := {
  metadata_id : string;
  name : string;
  metadata_description : string;
  version : string;
  rulesUrl : option string;
  tags : option (list string);
}.

Record GameProgression := {
  totalRounds : Z;
  startingPlayer : PlayerNumber;
  alternateStarter : bool;
  showRunningTotal : bool;
}.

Record GameUI := {
  primaryColor : option string;
  secondaryColor : option string;
  cssClass : option string;
  showPayoffMatrix : bool;
  showChoiceDescriptions : bool;
  choiceMadeText : option string;
  resultsHeaderText : option string;
}.

Record GameConfig := {
  metadata : GameMetadata;
  choices : list ChoiceOption;
  payoffRules : list PayoffRule;
  progression : GameProgression;
  ui : GameUI;
}.

(** The structural type guard of [types.ts]. *)
Definition isGameConfigLike (value : JS.Value) : bool :=
  if negb (JS.typeofObject value) || JS.isNull value then false
  else
    let config := value in
    JS.typeofObject (JS.member config "metadata")
    && negb (JS.isNull (JS.member config "metadata"))
    && JS.isArray (JS.member config "choices")
    && JS.isArray (JS.member config "payoffRules")
    && JS.typeofObject (JS.member config "progression")
    && negb (JS.isNull (JS.member config "progression"))
    && JS.typeofObject (JS.member config "ui")
    && negb (JS.isNull (JS.member config "ui")).

End Types.

(** ** Exceptions and completions *)

Module Exn.

(** One issue of a [ZodError]: the path of the offending value and the
    message. Path segments are property names or array indices. *)
Inductive PathSegment := Key (k : string) | Index (i : nat).

Record ZodIssue := {
  path : list PathSegment;
  message : string;
}.

(** The error classes thrown by the sources; [NativeError] stands for what
    the platform and the libraries throw ([SyntaxError], [DOMException]). *)
Inductive Exception : Type :=
| Error (message : string)
| HMACError (message : string)
| ConfigValidationError (message : string) (errors : list string)
    (configPath : option string)
| ConfigLoadError (message : string)
| PayoffCalculationError (message : string)
    (player1Choice player2Choice : string)
| ZodError (issues : list ZodIssue)
| NativeError (name message : string).

Inductive Completion (A : Type) : Type :=
| Return (a : A)
| Throw (e : Exception).
Arguments Return {A} a.
Arguments Throw {A} e.

Definition bind {A B} (c : Completion A) (k : A -> Completion B)
  : Completion B :=
  match c with
  | Return a => k a
  | Throw e => Throw e
  end.

(** [try { body } catch (error) { handler }] *)
Definition tryCatch {A} (body : Completion A)
    (handler : Exception -> Completion A) : Completion A :=
  match body with
  | Return a => Return a
  | Throw e => handler e
  end.

End Exn.

Notation "'do' x <- c ; k" := (Exn.bind c (fun x => k))
  (at level 10, x name, c at level 100, k at level 200).

(** ** framework/core/engine/turnEngine.ts *)

Module TurnEngine.
Import Types.

Definition determineRoundStarter (config : GameConfig) (roundNumber : Z)
  : PlayerNumber :=
  if negb config.(progression).(alternateStarter) then
    config.(progression).(startingPlayer)
  else if JS.remainder roundNumber 2 =? 1 then
    config.(progression).(startingPlayer)
  else
    match config.(progression).(startingPlayer) with P1 => P2 | P2 => P1 end.

Definition isRoundComplete (player1Choice player2Choice : option string)
  : bool :=
  match player1Choice, player2Choice with
  | Some _, Some _ => true
  | _, _ => false
  end.

Definition isGameComplete (currentRound totalRounds : Z)
    (roundComplete : bool) : bool :=
  (currentRound =? totalRounds) && roundComplete.

(** The result [None] is the source's [undefined]. *)
Definition determineNextPlayer (config : GameConfig) (roundNumber : Z)
    (player1Choice player2Choice : option string) : option PlayerNumber :=
  let starter := determineRoundStarter config roundNumber in
  if negb (JS.truthy player1Choice) && negb (JS.truthy player2Choice) then
    Some starter
  else
    let responder := match starter with P1 => P2 | P2 => P1 end in
    let starterChoice :=
      match starter with P1 => player1Choice | P2 => player2Choice end in
    let responderChoice :=
      match responder with P1 => player1Choice | P2 => player2Choice end in
    if negb (JS.truthy starterChoice) then Some starter
    else if negb (JS.truthy responderChoice) then Some responder
    else None.

Definition calculateNextRound (currentRound totalRounds : Z) : Z :=
  if currentRound >=? totalRounds then currentRound else currentRound + 1.

Definition getOpponentPlayer (player : PlayerNumber) : PlayerNumber :=
  match player with P1 => P2 | P2 => P1 end.

Definition determineRematchStarter (previousStartingPlayer : PlayerNumber)
  : PlayerNumber :=
  match previousStartingPlayer with P1 => P2 | P2 => P1 end.

Definition canPlayerMove (config : GameConfig) (currentRound : Z)
    (player : PlayerNumber) (player1Choice player2Choice : option string)
  : bool :=
  if currentRound >? config.(progression).(totalRounds) then false
  else if isRoundComplete player1Choice player2Choice then false
  else
    let nextPlayer :=
      determineNextPlayer config currentRound player1Choice player2Choice in
    if negb (bool_decide (nextPlayer = Some player)) then false
    else
      let playerChoice :=
        match player with P1 => player1Choice | P2 => player2Choice end in
      match playerChoice with
      | Some _ => false
      | None => true
      end.

(** [`${player}`] for a player number. *)
Definition playerText (player : PlayerNumber) : string :=
  match player with P1 => "1" | P2 => "2" end.

(** [`${roundNumber}`] is [JS.numberToString]; [large] is the text of the
    numbers beyond [2^53]. *)
Definition getTurnDescription (large : Z -> string) (config : GameConfig)
    (roundNumber : Z) (player1Choice player2Choice : option string)
  : string :=
  if isGameComplete roundNumber config.(progression).(totalRounds)
       (isRoundComplete player1Choice player2Choice) then
    "Game complete"
  else
    let nextPlayer :=
      determineNextPlayer config roundNumber player1Choice player2Choice in
    match nextPlayer with
    | None => "Round complete - advancing to next round"
    | Some nextPlayer =>
        let starter := determineRoundStarter config roundNumber in
        if bool_decide (nextPlayer = starter)
           && negb (JS.truthy player1Choice)
           && negb (JS.truthy player2Choice) then
          "Round " ++ JS.numberToString large roundNumber ++ ": Player "
            ++ playerText nextPlayer ++ " goes first"
        else
          "Round " ++ JS.numberToString large roundNumber
            ++ ": Waiting for Player " ++ playerText nextPlayer
    end.

End TurnEngine.

(** ** framework/core/engine/payoffEngine.ts *)

Module PayoffEngine.
Import Types Exn.

Record PayoffResult := {
  player1Score : JS.number;
  player2Score : JS.number;
  result_outcomeText : option string;
  matchedRule : PayoffRule;
}.

(** The double quote character, for the quoted ids in messages. *)
Definition dquote : string := String (ascii_of_nat 34) EmptyString.

Definition calculatePayoff (config : GameConfig)
    (player1Choice player2Choice : string) : Completion PayoffResult :=
  let validChoiceIds : gset string :=
    list_to_set (map id config.(choices)) in
  if negb (bool_decide (player1Choice ∈ validChoiceIds)) then
    Throw (PayoffCalculationError
             ("Invalid choice for player 1: " ++ dquote ++ player1Choice
                ++ dquote)
             player1Choice player2Choice)
  else if negb (bool_decide (player2Choice ∈ validChoiceIds)) then
    Throw (PayoffCalculationError
             ("Invalid choice for player 2: " ++ dquote ++ player2Choice
                ++ dquote)
             player1Choice player2Choice)
  else
    match
      List.find
        (fun rule =>
           String.eqb rule.(condition_player1) player1Choice
           && String.eqb rule.(condition_player2) player2Choice)
        config.(payoffRules)
    with
    | None =>
        Throw (PayoffCalculationError
                 ("No payoff rule found for combination: player1=" ++ dquote
                    ++ player1Choice ++ dquote ++ ", player2=" ++ dquote
                    ++ player2Choice ++ dquote)
                 player1Choice player2Choice)
    | Some rule =>
        Return {| player1Score := rule.(outcome_player1);
                  player2Score := rule.(outcome_player2);
                  result_outcomeText := rule.(outcomeText);
                  matchedRule := rule |}
    end.

(** One entry of [getPayoffsForChoice]. *)
Record ChoiceOutcome := {
  outcome_player2Choice : string;
  outcome_player1Score : JS.number;
  outcome_player2Score : JS.number;
  outcome_outcomeText : option string;
}.

(** The loop over [config.choices]; a combination that makes
    [calculatePayoff] throw is skipped. *)
Definition getPayoffsForChoice (config : GameConfig) (player1Choice : string)
  : list ChoiceOutcome :=
  fold_left
    (fun results choice =>
       match calculatePayoff config player1Choice choice.(id) with
       | Return payoff =>
           (results
              ++ [{| outcome_player2Choice := choice.(id);
                     outcome_player1Score := payoff.(player1Score);
                     outcome_player2Score := payoff.(player2Score);
                     outcome_outcomeText := payoff.(result_outcomeText) |}])%list
       | Throw _ => results
       end)
    config.(choices) [].

(** One cell of the payoff matrix. *)
Record MatrixCell := {
  cell_player1Choice : string;
  cell_player2Choice : string;
  cell_player1Score : JS.number;
  cell_player2Score : JS.number;
  cell_outcomeText : option string;
}.

(** The inner loop of [buildPayoffMatrix]: the row of [p1Choice]. *)
Definition buildRow (config : GameConfig) (p1Choice : ChoiceOption)
  : list MatrixCell :=
  fold_left
    (fun row p2Choice =>
       match calculatePayoff config p1Choice.(id) p2Choice.(id) with
       | Return payoff =>
           (row
              ++ [{| cell_player1Choice := p1Choice.(id);
                     cell_player2Choice := p2Choice.(id);
                     cell_player1Score := payoff.(player1Score);
                     cell_player2Score := payoff.(player2Score);
                     cell_outcomeText := payoff.(result_outcomeText) |}])%list
       | Throw _ =>
           (row
              ++ [{| cell_player1Choice := p1Choice.(id);
                     cell_player2Choice := p2Choice.(id);
                     cell_player1Score := 0;
                     cell_player2Score := 0;
                     cell_outcomeText := Some "Invalid combination" |}])%list
       end)
    config.(choices) [].

Definition buildPayoffMatrix (config : GameConfig) : list (list MatrixCell) :=
  fold_left (fun matrix p1Choice => (matrix ++ [buildRow config p1Choice])%list)
    config.(choices) [].

(** The two nested loops return [false] at the first combination that
    makes [calculatePayoff] throw. *)
Definition validatePayoffCoverage (config : GameConfig) : bool :=
  forallb
    (fun p1Choice =>
       forallb
         (fun p2Choice =>
            match calculatePayoff config p1Choice.(id) p2Choice.(id) with
            | Return _ => true
            | Throw _ => false
            end)
         config.(choices))
    config.(choices).

End PayoffEngine.

(** ** The zod library, as far as the schemas of the sources use it

    Modelled from zod 3's documented behaviour: a schema adds its issues to
    the parse context and either yields a value or aborts; [parse] throws a
    [ZodError] carrying every issue when there is one. Objects strip unknown
    keys and visit their shape in declaration order; arrays report their
    length before their elements; messages are zod's defaults unless the
    schema gives one. *)

Module Zod.
Import Exn.

(** Issues raised, and the parsed value unless the schema aborted. *)
Definition ParseResult (A : Type) : Type := (list ZodIssue * option A)%type.

Definition Schema (A : Type) : Type :=
  list PathSegment -> JS.Value -> ParseResult A.

Definition parsedType (v : JS.Value) : string :=
  match v with
  | JS.Undefined => "undefined"
  | JS.Null => "null"
  | JS.Bool _ => "boolean"
  | JS.Number JS.NaN => "nan"
  | JS.Number _ => "number"
  | JS.Str _ => "string"
  | JS.Array _ => "array"
  | JS.Object _ => "object"
  end.

Definition issue (path : list PathSegment) (message : string) : ZodIssue :=
  {| path := path; message := message |}.

Definition invalidType {A} (expected : string) : Schema A :=
  fun path v =>
    ([issue path
        match v with
        | JS.Undefined => "Required"
        | _ => "Expected " ++ expected ++ ", received " ++ parsedType v
        end], None).

Definition orDefault (custom : option string) (default : string) : string :=
  match custom with Some m => m | None => default end.

Inductive StringCheck :=
| StringMin (value : Z) (message : option string)
| StringRegex (test : string -> bool) (message : option string)
| StringFormat (validation : string) (test : string -> bool).

Definition stringCheckIssues (path : list PathSegment) (s : string)
    (check : StringCheck) : list ZodIssue :=
  match check with
  | StringMin value message =>
      if JS.length s <? value then
        [issue path
           (orDefault message
              ("String must contain at least " ++ pretty value
                 ++ " character(s)"))]
      else []
  | StringRegex test message =>
      if negb (test s) then [issue path (orDefault message "Invalid")] else []
  | StringFormat validation test =>
      if negb (test s) then [issue path ("Invalid " ++ validation)] else []
  end.

Definition zString (checks : list StringCheck) : Schema string :=
  fun path v =>
    match v with
    | JS.Str s => (flat_map (stringCheckIssues path s) checks, Some s)
    | _ => invalidType "string" path v
    end.

(** [.int()] is [Number.isInteger], which the two infinities fail. *)
Inductive NumberCheck :=
| NumberInt
| NumberMin (value : Z) (message : option string)
| NumberMax (value : Z) (message : option string).

Definition numberCheckIssues (path : list PathSegment) (n : JS.number)
    (check : NumberCheck) : list ZodIssue :=
  match check with
  | NumberInt =>
      if negb (JS.isFinite n) then
        [issue path "Expected integer, received float"]
      else []
  | NumberMin value message =>
      if JS.lt n value then
        [issue path
           (orDefault message
              ("Number must be greater than or equal to " ++ pretty value))]
      else []
  | NumberMax value message =>
      if JS.gt n value then
        [issue path
           (orDefault message
              ("Number must be less than or equal to " ++ pretty value))]
      else []
  end.

(** [z.number()]: [NaN] is no number to zod, the infinities are. *)
Definition zNumber (checks : list NumberCheck) : Schema JS.number :=
  fun path v =>
    match v with
    | JS.Number JS.NaN => invalidType "number" path v
    | JS.Number n => (flat_map (numberCheckIssues path n) checks, Some n)
    | _ => invalidType "number" path v
    end.

(** The value of a number schema that has the check [.int()], read as an
    integer: a number that fails the check has raised its issue, so that
    no parse returns it. *)
Definition integer (schema : Schema JS.number) : Schema Z :=
  fun path v =>
    let '(issues, n) := schema path v in
    (issues,
     match n with
     | Some (JS.Finite n) => Some n
     | _ => None
     end).

Definition zBoolean : Schema bool :=
  fun path v =>
    match v with
    | JS.Bool b => ([], Some b)
    | _ => invalidType "boolean" path v
    end.

(** [z.literal(n)] for a number [n], yielding [a]. *)
Definition zLiteralNumber {A} (n : Z) (a : A) : Schema A :=
  fun path v =>
    match v with
    | JS.Number (JS.Finite m) =>
        if m =? n then ([], Some a)
        else ([issue path ("Invalid literal value, expected " ++ pretty n)],
              None)
    | _ => ([issue path ("Invalid literal value, expected " ++ pretty n)],
            None)
    end.

Definition dquote : string := String (ascii_of_nat 34) EmptyString.

(** [z.literal(s)] for a string [s]; the message shows the literal as
    [JSON.stringify] writes it. *)
Definition zLiteralString (s : string) : Schema string :=
  fun path v =>
    match v with
    | JS.Str t =>
        if String.eqb t s then ([], Some t)
        else ([issue path
                 ("Invalid literal value, expected " ++ JS.quoteJSONString s)],
              None)
    | _ => ([issue path
               ("Invalid literal value, expected " ++ JS.quoteJSONString s)],
            None)
    end.

(** [z.union(options)]: the first option that parses without issue wins,
    then the first that parsed with issues but did not abort; otherwise one
    [invalid_union] issue. *)
Definition zUnion {A} (options : list (Schema A)) : Schema A :=
  fun path v =>
    let results := map (fun option => option path v) options in
    match
      List.find
        (fun r => match r with ([], Some _) => true | _ => false end) results
    with
    | Some r => r
    | None =>
        match
          List.find (fun r => match r with (_, Some _) => true | _ => false end)
            results
        with
        | Some r => r
        | None => ([issue path "Invalid input"], None)
        end
    end.

(** [util.joinValues(values)] *)
Definition joinValues (values : list string) : string :=
  String.concat " | " (map (fun v => "'" ++ v ++ "'") values).

(** [z.enum(values)] *)
Definition zEnum (values : list string) : Schema string :=
  fun path v =>
    match v with
    | JS.Str s =>
        if existsb (String.eqb s) values then ([], Some s)
        else ([issue path
                 ("Invalid enum value. Expected " ++ joinValues values
                    ++ ", received '" ++ s ++ "'")], None)
    | _ => invalidType (joinValues values) path v
    end.

Definition zOptional {A} (inner : Schema A) : Schema (option A) :=
  fun path v =>
    match v with
    | JS.Undefined => ([], Some None)
    | _ => let '(issues, a) := inner path v in (issues, option_map Some a)
    end.

(** Elements of an array, each under its index. *)
Fixpoint parseElements {A} (element : Schema A) (path : list PathSegment)
    (i : nat) (elements : list JS.Value) : ParseResult (list A) :=
  match elements with
  | [] => ([], Some [])
  | v :: rest =>
      let '(issues1, a) := element (path ++ [Index i])%list v in
      let '(issues2, l) := parseElements element path (S i) rest in
      ((issues1 ++ issues2)%list,
       match a, l with Some a, Some l => Some (a :: l) | _, _ => None end)
  end.

Definition zArray {A} (element : Schema A)
    (minLength : option (Z * option string)) : Schema (list A) :=
  fun path v =>
    match v with
    | JS.Array elements =>
        let tooSmall :=
          match minLength with
          | Some (value, message) =>
              if Z.of_nat (List.length elements) <? value then
                [issue path
                   (orDefault message
                      ("Array must contain at least " ++ pretty value
                         ++ " element(s)"))]
              else []
          | None => []
          end in
        let '(issues, l) := parseElements element path 0 elements in
        ((tooSmall ++ issues)%list, l)
    | _ => invalidType "array" path v
    end.

(** One key of an object's shape. *)
Definition field {A} (schema : Schema A) (path : list PathSegment)
    (properties : list (string * JS.Value)) (key : string) : ParseResult A :=
  schema (path ++ [Key key])%list (JS.getProperty properties key).

(** [schema.parse(data)] *)
Definition parse {A} (schema : Schema A) (data : JS.Value) : Completion A :=
  match schema [] data with
  | ([], Some a) => Return a
  | (issues, _) => Throw (ZodError issues)
  end.

(** [schema.safeParse(data).success] *)
Definition safeParseSuccess {A} (schema : Schema A) (data : JS.Value) : bool :=
  match schema [] data with
  | ([], Some _) => true
  | _ => false
  end.

End Zod.

(** ** framework/core/config/loader.ts *)

Module Loader.
Import Types Exn Zod.

(** [/^\d+\.\d+\.\d+$/.test(s)] *)
Definition isDigit (c : ascii) : bool :=
  (48 <=? nat_of_ascii c)%nat && (nat_of_ascii c <=? 57)%nat.

Fixpoint skipDigits (s : string) : string :=
  match s with
  | String c rest => if isDigit c then skipDigits rest else s
  | EmptyString => EmptyString
  end.

(** [\d+], then what follows. *)
Definition digits (s : string) : option string :=
  match s with
  | String c rest => if isDigit c then Some (skipDigits rest) else None
  | EmptyString => None
  end.

Definition char (c : ascii) (s : string) : option string :=
  match s with
  | String d rest => if Ascii.eqb c d then Some rest else None
  | EmptyString => None
  end.

Definition semverTest (s : string) : bool :=
  match
    s1 ← digits s; s2 ← char "." s1; s3 ← digits s2;
    s4 ← char "." s3; digits s4
  with
  | Some EmptyString => true
  | _ => false
  end.

(** [/^#[0-9A-Fa-f]{6}$/.test(s)] *)
Definition isHexDigit (c : ascii) : bool :=
  let n := nat_of_ascii c in
  ((48 <=? n) && (n <=? 57) || (65 <=? n) && (n <=? 70)
   || (97 <=? n) && (n <=? 102))%nat.

Definition hexColorTest (s : string) : bool :=
  match s with
  | String "#" (String a (String b (String c (String d (String e
      (String f EmptyString)))))) =>
      forallb isHexDigit [a; b; c; d; e; f]
  | _ => false
  end.

Section Schemas.

(** [z.string().url()] accepts what the platform's [new URL(s)] accepts. *)
Variable urlTest : string -> bool.

Definition ChoiceOptionSchema : Schema ChoiceOption :=
  fun path v =>
    match v with
    | JS.Object props =>
        let '(i1, r1) :=
          field (zString [StringMin 1 (Some "Choice ID cannot be empty")])
            path props "id" in
        let '(i2, r2) :=
          field (zString [StringMin 1 (Some "Choice label cannot be empty")])
            path props "label" in
        let '(i3, r3) :=
          field (zOptional (zString [])) path props "description" in
        let '(i4, r4) := field (zOptional (zString [])) path props "icon" in
        ((i1 ++ i2 ++ i3 ++ i4)%list,
         match r1, r2, r3, r4 with
         | Some a, Some b, Some c, Some d =>
             Some {| id := a; label := b; description := c; icon := d |}
         | _, _, _, _ => None
         end)
    | _ => invalidType "object" path v
    end.

Definition ConditionSchema : Schema (string * string) :=
  fun path v =>
    match v with
    | JS.Object props =>
        let '(i1, r1) :=
          field (zString [StringMin 1 None]) path props "player1" in
        let '(i2, r2) :=
          field (zString [StringMin 1 None]) path props "player2" in
        ((i1 ++ i2)%list,
         match r1, r2 with Some a, Some b => Some (a, b) | _, _ => None end)
    | _ => invalidType "object" path v
    end.

Definition OutcomeSchema : Schema (JS.number * JS.number) :=
  fun path v =>
    match v with
    | JS.Object props =>
        let '(i1, r1) := field (zNumber []) path props "player1" in
        let '(i2, r2) := field (zNumber []) path props "player2" in
        ((i1 ++ i2)%list,
         match r1, r2 with Some a, Some b => Some (a, b) | _, _ => None end)
    | _ => invalidType "object" path v
    end.

Definition PayoffRuleSchema : Schema PayoffRule :=
  fun path v =>
    match v with
    | JS.Object props =>
        let '(i1, r1) := field ConditionSchema path props "condition" in
        let '(i2, r2) := field OutcomeSchema path props "outcome" in
        let '(i3, r3) :=
          field (zOptional (zString [])) path props "outcomeText" in
        ((i1 ++ i2 ++ i3)%list,
         match r1, r2, r3 with
         | Some (c1, c2), Some (o1, o2), Some t =>
             Some {| condition_player1 := c1; condition_player2 := c2;
                     outcome_player1 := o1; outcome_player2 := o2;
                     outcomeText := t |}
         | _, _, _ => None
         end)
    | _ => invalidType "object" path v
    end.

Definition GameMetadataSchema : Schema GameMetadata :=
  fun path v =>
    match v with
    | JS.Object props =>
        let '(i1, r1) :=
          field (zString [StringMin 1 (Some "Game ID cannot be empty")])
            path props "id" in
        let '(i2, r2) :=
          field (zString [StringMin 1 (Some "Game name cannot be empty")])
            path props "name" in
        let '(i3, r3) :=
          field
            (zString [StringMin 1 (Some "Game description cannot be empty")])
            path props "description" in
        let '(i4, r4) :=
          field
            (zString
               [StringRegex semverTest
                  (Some "Version must be semver format (e.g., 1.0.0)")])
            path props "version" in
        let '(i5, r5) :=
          field (zOptional (zString [StringFormat "url" urlTest]))
            path props "rulesUrl" in
        let '(i6, r6) :=
          field (zOptional (zArray (zString []) None)) path props "tags" in
        ((i1 ++ i2 ++ i3 ++ i4 ++ i5 ++ i6)%list,
         match r1, r2, r3, r4, r5, r6 with
         | Some a, Some b, Some c, Some d, Some e, Some f =>
             Some {| metadata_id := a; name := b; metadata_description := c;
                     version := d; rulesUrl := e; tags := f |}
         | _, _, _, _, _, _ => None
         end)
    | _ => invalidType "object" path v
    end.

Definition GameProgressionSchema : Schema GameProgression :=
  fun path v =>
    match v with
    | JS.Object props =>
        let '(i1, r1) :=
          field
            (integer
               (zNumber
                  [NumberInt;
                   NumberMin 1 (Some "Must have at least 1 round")]))
            path props "totalRounds" in
        let '(i2, r2) :=
          field (zUnion [zLiteralNumber 1 P1; zLiteralNumber 2 P2])
            path props "startingPlayer" in
        let '(i3, r3) := field zBoolean path props "alternateStarter" in
        let '(i4, r4) := field zBoolean path props "showRunningTotal" in
        ((i1 ++ i2 ++ i3 ++ i4)%list,
         match r1, r2, r3, r4 with
         | Some a, Some b, Some c, Some d =>
             Some {| totalRounds := a; startingPlayer := b;
                     alternateStarter := c; showRunningTotal := d |}
         | _, _, _, _ => None
         end)
    | _ => invalidType "object" path v
    end.

Definition GameUISchema : Schema GameUI :=
  fun path v =>
    match v with
    | JS.Object props =>
        let '(i1, r1) :=
          field (zOptional (zString [StringRegex hexColorTest None]))
            path props "primaryColor" in
        let '(i2, r2) :=
          field (zOptional (zString [StringRegex hexColorTest None]))
            path props "secondaryColor" in
        let '(i3, r3) := field (zOptional (zString [])) path props "cssClass" in
        let '(i4, r4) := field zBoolean path props "showPayoffMatrix" in
        let '(i5, r5) := field zBoolean path props "showChoiceDescriptions" in
        let '(i6, r6) :=
          field (zOptional (zString [])) path props "choiceMadeText" in
        let '(i7, r7) :=
          field (zOptional (zString [])) path props "resultsHeaderText" in
        ((i1 ++ i2 ++ i3 ++ i4 ++ i5 ++ i6 ++ i7)%list,
         match r1, r2, r3, r4, r5, r6, r7 with
         | Some a, Some b, Some c, Some d, Some e, Some f, Some g =>
             Some {| primaryColor := a; secondaryColor := b; cssClass := c;
                     showPayoffMatrix := d; showChoiceDescriptions := e;
                     choiceMadeText := f; resultsHeaderText := g |}
         | _, _, _, _, _, _, _ => None
         end)
    | _ => invalidType "object" path v
    end.

Definition GameConfigSchema : Schema GameConfig :=
  fun path v =>
    match v with
    | JS.Object props =>
        let '(i1, r1) := field GameMetadataSchema path props "metadata" in
        let '(i2, r2) :=
          field
            (zArray ChoiceOptionSchema
               (Some (2, Some "Must have at least 2 choices")))
            path props "choices" in
        let '(i3, r3) :=
          field
            (zArray PayoffRuleSchema
               (Some (1, Some "Must have at least 1 payoff rule")))
            path props "payoffRules" in
        let '(i4, r4) := field GameProgressionSchema path props "progression" in
        let '(i5, r5) := field GameUISchema path props "ui" in
        ((i1 ++ i2 ++ i3 ++ i4 ++ i5)%list,
         match r1, r2, r3, r4, r5 with
         | Some a, Some b, Some c, Some d, Some e =>
             Some {| metadata := a; choices := b; payoffRules := c;
                     progression := d; ui := e |}
         | _, _, _, _, _ => None
         end)
    | _ => invalidType "object" path v
    end.

End Schemas.

(** The three messages of the semantic validation. *)
Definition unknownChoiceMessage (choiceId : string) : string :=
  "Payoff rule references unknown choice ID: " ++ dquote ++ choiceId
    ++ dquote.

Definition duplicateMessage (key : string) : string :=
  "Duplicate payoff rule for combination: " ++ key.

Definition coverageMessage (expectedCombinations choicesLength
    rulesLength : Z) : string :=
  "Expected " ++ pretty expectedCombinations ++ " payoff rules ("
    ++ pretty choicesLength ++ " × " ++ pretty choicesLength
    ++ "), but found " ++ pretty rulesLength
    ++ ". Every choice combination must have a payoff rule.".

(** The key of a rule in [seenCombinations]. *)
Definition combinationKey (rule : PayoffRule) : string :=
  rule.(condition_player1) ++ ":" ++ rule.(condition_player2).

(** First loop: the choice ids of every rule are looked up in [choiceIds];
    [errors.push] appends. *)
Definition checkChoiceIds (choiceIds : gset string)
    (rules : list PayoffRule) (errors : list string) : list string :=
  fold_left
    (fun errors rule =>
       let errors :=
         if negb (bool_decide (rule.(condition_player1) ∈ choiceIds)) then
           (errors ++ [unknownChoiceMessage rule.(condition_player1)])%list
         else errors in
       if negb (bool_decide (rule.(condition_player2) ∈ choiceIds)) then
         (errors ++ [unknownChoiceMessage rule.(condition_player2)])%list
       else errors)
    rules errors.

(** Second loop: [seenCombinations] grows with every rule. *)
Definition checkDuplicates (rules : list PayoffRule)
    (errors : list string) (seenCombinations : gset string)
  : list string * gset string :=
  fold_left
    (fun '(errors, seenCombinations) rule =>
       let key := combinationKey rule in
       let errors :=
         if bool_decide (key ∈ seenCombinations) then
           (errors ++ [duplicateMessage key])%list
         else errors in
       (errors, {[key]} ∪ seenCombinations))
    rules (errors, seenCombinations).

Definition validateGameConfigSemantics (config : GameConfig)
  : Completion unit :=
  let errors : list string := [] in
  let choiceIds : gset string := list_to_set (map id config.(choices)) in
  let errors := checkChoiceIds choiceIds config.(payoffRules) errors in
  let '(errors, _) := checkDuplicates config.(payoffRules) errors ∅ in
  let choicesLength := Z.of_nat (List.length config.(choices)) in
  let rulesLength := Z.of_nat (List.length config.(payoffRules)) in
  let expectedCombinations := choicesLength * choicesLength in
  let errors :=
    if negb (rulesLength =? expectedCombinations) then
      (errors
         ++ [coverageMessage expectedCombinations choicesLength rulesLength])%list
    else errors in
  if Z.of_nat (List.length errors) >? 0 then
    Throw (ConfigValidationError "Game config semantic validation failed"
             errors None)
  else Return tt.

(** [e.path.join('.')] *)
Definition segmentText (segment : PathSegment) : string :=
  match segment with
  | Key k => k
  | Index i => pretty i
  end.

Definition joinPath (path : list PathSegment) : string :=
  String.concat "." (map segmentText path).

(** [configPath || 'unknown'] *)
Definition orUnknown (configPath : option string) : string :=
  if JS.truthy configPath then default "" configPath else "unknown".

Definition loadGameConfig (urlTest : string -> bool) (yamlData : JS.Value)
    (configPath : option string) : Completion GameConfig :=
  tryCatch
    (do config <- parse (GameConfigSchema urlTest) yamlData;
     do _ <- validateGameConfigSemantics config;
     Return config)
    (fun error =>
       match error with
       | ZodError issues =>
           let errorMessages :=
             map (fun e => joinPath e.(path) ++ ": " ++ e.(message)) issues in
           Throw (ConfigValidationError
                    ("Config validation failed: " ++ orUnknown configPath)
                    errorMessages configPath)
       | ConfigValidationError _ _ _ => Throw error
       | _ =>
           Throw (ConfigLoadError
                    ("Failed to load config: " ++ orUnknown configPath))
       end).

Definition validateGameConfig (urlTest : string -> bool) (config : JS.Value)
  : Completion GameConfig :=
  loadGameConfig urlTest config (Some "runtime-validation").

Definition isValidGameConfig (urlTest : string -> bool) (value : JS.Value)
  : bool :=
  match validateGameConfig urlTest value with
  | Return _ => true
  | Throw _ => false
  end.

End Loader.

(** ** shared/utils/constants.ts *)

Module Constants.

Definition GAME_SECRET : string := "prisoners-dilemma-2024-v1".

End Constants.

(** ** framework/storage/hmacManager.ts *)

Module HmacManager.
Import Exn.

Record SignedData := {
  data : string;
  signature : string;
}.

(** [n.toString(16)] for a nibble. *)
Definition hexChar (n : N) : ascii :=
  match n with
  | 0%N => "0" | 1%N => "1" | 2%N => "2" | 3%N => "3"
  | 4%N => "4" | 5%N => "5" | 6%N => "6" | 7%N => "7"
  | 8%N => "8" | 9%N => "9" | 10%N => "a" | 11%N => "b"
  | 12%N => "c" | 13%N => "d" | 14%N => "e" | _ => "f"
  end%char.

(** [wordArray.toString(CryptoJS.enc.Hex)]: two digits per byte, the high
    nibble first. *)
Fixpoint hexStringify (bytes : list Byte.byte) : string :=
  match bytes with
  | [] => EmptyString
  | bite :: rest =>
      String (hexChar (N.shiftr (Byte.to_N bite) 4))
        (String (hexChar (N.land (Byte.to_N bite) 15)) (hexStringify rest))
  end.

Section WithHmac.

(** [CryptoJS.HmacSHA256(message, key)], as the bytes of its word array. *)
Variable HmacSHA256 : string -> string -> list Byte.byte.

Definition generateHMAC (data : string) : Completion string :=
  tryCatch
    (let hmac := HmacSHA256 data Constants.GAME_SECRET in
     Return (hexStringify hmac))
    (fun error => Throw (HMACError "Failed to generate HMAC signature")).

(** The loop of the constant-time comparison, [result] threaded through. *)
Definition compareLoop (signature expected : string) : Z :=
  fold_left
    (fun result i =>
       Z.lor result
         (Z.lxor (JS.charCodeAt signature i) (JS.charCodeAt expected i)))
    (seq 0 (String.length signature)) 0.

Definition verifyHMAC (data signature : string) : Completion bool :=
  tryCatch
    (do expected <- generateHMAC data;
     if negb (JS.length signature =? JS.length expected) then Return false
     else Return (compareLoop signature expected =? 0))
    (fun _ => Return false).

Definition signData (data : string) : Completion SignedData :=
  do signature <- generateHMAC data;
  Return {| data := data; signature := signature |}.

Definition verifySignedData (signed : SignedData) : Completion string :=
  do valid <- verifyHMAC signed.(data) signed.(signature);
  if negb valid then
    Throw (HMACError
      "HMAC signature verification failed - data may have been tampered with")
  else Return signed.(data).

Definition encodeSignedData (signed : SignedData) : string :=
  signed.(data) ++ "." ++ signed.(signature).

Definition decodeSignedData (encoded : string) : Completion string :=
  let lastDotIndex := JS.lastIndexOf encoded "." in
  if lastDotIndex =? -1 then
    Throw (HMACError
      "Invalid signed data format - missing signature separator")
  else
    let data := JS.substring encoded 0 lastDotIndex in
    let signature := JS.substringFrom encoded (lastDotIndex + 1) in
    if negb (JS.truthyString data) || negb (JS.truthyString signature) then
      Throw (HMACError
        "Invalid signed data format - empty data or signature")
    else verifySignedData {| data := data; signature := signature |}.

End WithHmac.

End HmacManager.

(** ** framework/storage/checksumManager.ts

    The functions are [async]; what they return is modelled by the
    settlement of the promise. *)

Module ChecksumManager.

(** A [ChecksumVerificationError] with its message and its two optional
    members. [expected] holds the checksum as the container had it, which
    no cast makes a string; it is [undefined] when the constructor is
    given the message alone. *)
Record ChecksumVerificationError := {
  error_message : string;
  expected : JS.Value;
  actual : option string;
}.

(** What the promises of this file are rejected with: the error of the
    file, or a [TypeError] of the platform. *)
Inductive Rejection : Type :=
| VerificationError (e : ChecksumVerificationError)
| TypeError.

Inductive Settled (A : Type) : Type :=
| Fulfilled (a : A)
| Rejected (e : Rejection).
Arguments Fulfilled {A} a.
Arguments Rejected {A} e.

(** The object literal [{ data, checksum, checksumTimestamp }]. A value
    of type [ChecksummedData<T>] is any value at run time:
    [loadWithChecksum] casts what [JSON.parse] returns. *)
Definition ChecksummedData (data : JS.Value)
    (checksum checksumTimestamp : string) : JS.Value :=
  JS.Object
    [("data", data); ("checksum", JS.Str checksum);
     ("checksumTimestamp", JS.Str checksumTimestamp)].

(** [b.toString(16)] for a byte: one digit below 16, two from there on. *)
Definition toString16 (b : N) : string :=
  if (b <? 16)%N then String (HmacManager.hexChar b) EmptyString
  else
    String (HmacManager.hexChar (b / 16))
      (String (HmacManager.hexChar (b mod 16)) EmptyString).

(** [s.padStart(2, '0')] *)
Definition padStart2 (s : string) : string :=
  match String.length s with
  | O => "00"
  | S O => String "0" s
  | _ => s
  end.

Definition constantTimeEqual (a b : string) : bool :=
  if negb (JS.length a =? JS.length b) then false
  else
    let result :=
      fold_left
        (fun result i =>
           Z.lor result (Z.lxor (JS.charCodeAt a i) (JS.charCodeAt b i)))
        (seq 0 (String.length a)) 0 in
    result =? 0.

(** The body of [constantTimeEqual] on a second argument that is no
    string and whose [length] member reads [bLength]: with another length
    the answer is [false]; with the same length the loop asks for
    [b.charCodeAt], which is no function, in its first turn, and does not
    run at all when the length is 0. [None] is the [TypeError]. *)
Definition sameLengthThenLoop (a : string) (bLength : JS.Value)
  : option bool :=
  if negb (JS.strictEqualsInteger (JS.length a) bLength) then Some false
  else if JS.length a =? 0 then Some true
  else None.

(** The call [constantTimeEqual(a, b)] on a [b] that no check made a
    string. [b.length] is a [TypeError] on [undefined] and [null]; it is
    [undefined] on a number and on a boolean, the number of elements on
    an array, and the member of that name on an object. *)
Definition constantTimeEqualUnchecked (a : string) (b : JS.Value)
  : option bool :=
  match b with
  | JS.Str b => Some (constantTimeEqual a b)
  | JS.Undefined | JS.Null => None
  | JS.Bool _ | JS.Number _ => Some false
  | JS.Array elements =>
      sameLengthThenLoop a (JS.Number (Z.of_nat (List.length elements)))
  | JS.Object properties =>
      sameLengthThenLoop a (JS.getProperty properties "length")
  end.

Section WithDigest.

(** [JSON.stringify], as the text that [TextEncoder.encode] receives. *)
Variable JSON_stringify : JS.Value -> string.

(** [JSON.parse]; [None] is its [SyntaxError]. *)
Variable JSON_parse : string -> option JS.Value.

(** [crypto.subtle.digest('SHA-256', new TextEncoder().encode(text))], as
    the bytes of the buffer. *)
Variable sha256 : string -> list Byte.byte.

Definition generateChecksum (data : JS.Value) : string :=
  let json := JSON_stringify data in
  let hashArray := sha256 json in
  let hashHex :=
    String.concat ""
      (map (fun b => padStart2 (toString16 (Byte.to_N b))) hashArray) in
  hashHex.

(** [new Date().toISOString()] is made explicit as [now]. *)
Definition wrapWithChecksum (now : string) (data : JS.Value)
  : Settled JS.Value :=
  let checksum := generateChecksum data in
  Fulfilled (ChecksummedData data checksum now).

Definition verifyAndUnwrap (wrapped : JS.Value) : Settled JS.Value :=
  match JS.property wrapped "data" with
  | None => Rejected TypeError
  | Some data =>
      let actualChecksum := generateChecksum data in
      let checksum := JS.member wrapped "checksum" in
      if negb (JS.strictEqualsString actualChecksum checksum) then
        Rejected
          (VerificationError
             {| error_message :=
                  "Checksum verification failed - data may have been tampered with";
                expected := checksum;
                actual := Some actualChecksum |})
      else Fulfilled data
  end.

Definition verifyAndUnwrapSecure (wrapped : JS.Value) : Settled JS.Value :=
  match JS.property wrapped "data" with
  | None => Rejected TypeError
  | Some data =>
      let actualChecksum := generateChecksum data in
      let checksum := JS.member wrapped "checksum" in
      match constantTimeEqualUnchecked actualChecksum checksum with
      | None => Rejected TypeError
      | Some equal =>
          if negb equal then
            Rejected
              (VerificationError
                 {| error_message :=
                      "Checksum verification failed - data may have been tampered with";
                    expected := checksum;
                    actual := Some actualChecksum |})
          else Fulfilled data
      end
  end.

(** [localStorage] is a map from keys to texts, taken to have room for
    every text. [saveWithChecksum] settles with the storage it leaves. *)
Definition saveWithChecksum (now : string) (key : string) (data : JS.Value)
    (localStorage : gmap string string) : Settled (gmap string string) :=
  match wrapWithChecksum now data with
  | Fulfilled wrapped =>
      Fulfilled (<[key := JSON_stringify wrapped]> localStorage)
  | Rejected error => Rejected error
  end.

(** The promise of [loadWithChecksum] is fulfilled with [null], here
    [None], or with the data. *)
Definition loadWithChecksum (key : string) (localStorage : gmap string string)
  : Settled (option JS.Value) :=
  let stored := localStorage !! key in
  if negb (JS.truthy stored) then Fulfilled None
  else
    match JSON_parse (default "" stored) with
    | None =>
        Rejected
          (VerificationError
             {| error_message := "Invalid JSON in localStorage";
                expected := JS.Undefined;
                actual := None |})
    | Some wrapped =>
        match verifyAndUnwrapSecure wrapped with
        | Fulfilled data => Fulfilled (Some data)
        | Rejected error => Rejected error
        end
    end.

End WithDigest.

End ChecksumManager.

(** ** Calls into the libraries

    [encryption.ts] is a chain of calls into JSON, lz-string, crypto-js and
    the platform's base64 functions. The calls are recorded in a log, so
    that "which library was invoked" is a statement about the result. *)

Module Lib.
Import Exn.

Inductive LibraryCall : Type :=
| JSON_stringify
| LZString_compressToEncodedURIComponent (input : string)
| AES_encrypt (message key : string)
| Btoa (input : string)
| Atob (input : string)
| AES_decrypt (ciphertext key : string)
| LZString_decompressFromEncodedURIComponent (input : string)
| JSON_parse (text : string).

(** A computation that may throw and that logs its library calls. The log
    survives a throw. *)
Definition M (A : Type) : Type :=
  list LibraryCall -> Completion A * list LibraryCall.

Definition ret {A} (a : A) : M A := fun log => (Return a, log).

Definition throw {A} (e : Exception) : M A := fun log => (Throw e, log).

Definition bindM {A B} (m : M A) (k : A -> M B) : M B :=
  fun log =>
    match m log with
    | (Return a, log') => k a log'
    | (Throw e, log') => (Throw e, log')
    end.

Definition tryCatchM {A} (body : M A) (handler : Exception -> M A) : M A :=
  fun log =>
    match body log with
    | (Return a, log') => (Return a, log')
    | (Throw e, log') => handler e log'
    end.

(** A library call with its outcome. *)
Definition call {A} (c : LibraryCall) (outcome : Completion A) : M A :=
  fun log => (outcome, (log ++ [c])%list).

(** The calls a computation makes from an empty log, and its outcome. *)
Definition calls {A} (m : M A) : list LibraryCall := snd (m []).
Definition outcome {A} (m : M A) : Completion A := fst (m []).

End Lib.

Notation "'run' x <- c ; k" := (Lib.bindM c (fun x => k))
  (at level 10, x name, c at level 100, k at level 200).

(** ** framework/storage/encryption.ts *)

Module Encryption.
Import Exn Lib.

Section WithLibraries.

(** [JSON.stringify] and [JSON.parse] (a [SyntaxError] on malformed text). *)
Variable JSON_stringify : JS.Value -> string.
Variable JSON_parse : string -> Completion JS.Value.

(** lz-string; [decompressFromEncodedURIComponent] may return [null]. *)
Variable compressToEncodedURIComponent : string -> string.
Variable decompressFromEncodedURIComponent : string -> option string.

(** [CryptoJS.AES.encrypt(message, passphrase).toString()]: the library
    draws a random salt, made explicit here. *)
Variable Salt : Type.
Variable AES_encrypt_toString : Salt -> string -> string -> string.

(** [CryptoJS.AES.decrypt(ciphertext, passphrase).toString(CryptoJS.enc.Utf8)],
    which throws on bytes that are not UTF-8. *)
Variable AES_decrypt_toString : string -> string -> Completion string.

(** [btoa] and [atob]. Every string of the embedding is within Latin-1, so
    [btoa] does not throw. *)
Variable btoa : string -> string.
Variable atob : string -> Completion string.

Definition encryptGameState (salt : Salt) (gameState : JS.Value) : M string :=
  tryCatchM
    (run json <- call Lib.JSON_stringify (Return (JSON_stringify gameState));
     run compressed <-
       call (LZString_compressToEncodedURIComponent json)
         (Return (compressToEncodedURIComponent json));
     run encrypted <-
       call (AES_encrypt compressed Constants.GAME_SECRET)
         (Return (AES_encrypt_toString salt compressed Constants.GAME_SECRET));
     run encoded <- call (Btoa encrypted) (Return (btoa encrypted));
     ret encoded)
    (fun error => throw (Error "Failed to encrypt game state")).

Definition decryptGameState (encoded : string) : M JS.Value :=
  tryCatchM
    (run encrypted <- call (Atob encoded) (atob encoded);
     run decrypted <-
       call (AES_decrypt encrypted Constants.GAME_SECRET)
         (AES_decrypt_toString encrypted Constants.GAME_SECRET);
     if negb (JS.truthyString decrypted) then
       throw (Error "Decryption produced empty result")
     else
       run json <-
         call (LZString_decompressFromEncodedURIComponent decrypted)
           (Return (decompressFromEncodedURIComponent decrypted));
       if negb (JS.truthy json) then
         throw (Error "Decompression produced empty result")
       else
         call (Lib.JSON_parse (default "" json)) (JSON_parse (default "" json)))
    (fun error => throw (Error "Failed to decrypt game state")).

End WithLibraries.

End Encryption.

(** ** framework/core/schemas/schemaGenerator.ts (with baseSchema) *)

Module SchemaGenerator.
Import Exn Zod.

Record Round := {
  player1Choice : string;
  player2Choice : string;
  player1Score : JS.number;
  player2Score : JS.number;
  outcomeText : option string;
}.

Record PendingChoice := {
  playerId : string;
  choice : string;
}.

Record GameState := {
  gameId : string;
  gameType : string;
  gameVersion : string;
  player1Id : string;
  player2Id : option string;
  player1Name : string;
  player2Name : option string;
  currentRound : Z;
  totalRounds : Z;
  roundHistory : list Round;
  currentStarter : Types.PlayerNumber;
  pendingChoice : option PendingChoice;
  player1Total : JS.number;
  player2Total : JS.number;
  createdAt : string;
  updatedAt : string;
}.

Record GameHistoryEntry := {
  entry_gameId : string;
  entry_gameType : string;
  playerNames_player1 : string;
  playerNames_player2 : string;
  totals_player1 : JS.number;
  totals_player2 : JS.number;
  rounds : list Round;
  completedAt : string;
}.

Record GameHistory := {
  playerName : string;
  games : list GameHistoryEntry;
  lastUpdated : string;
}.

(** The four schemas [getGameSchemas] keeps for a game. *)
Record GameSchemas := {
  choiceIdSchema : Schema string;
  roundSchema : Schema Round;
  gameStateSchema : Schema GameState;
  gameHistorySchema : Schema GameHistory;
}.

Section Generators.

(** The tests behind [z.string().uuid()] and [z.string().datetime()]. *)
Variable uuidTest : string -> bool.
Variable datetimeTest : string -> bool.

(** [PlayerIdSchema] and [GameIdSchema]; a brand has no runtime part. *)
Definition PlayerIdSchema : Schema string :=
  zString [StringFormat "uuid" uuidTest].

Definition GameIdSchema : Schema string :=
  zString [StringFormat "uuid" uuidTest].

Definition generateChoiceIdSchema (config : Types.GameConfig)
  : Completion (Schema string) :=
  let choiceIds := map Types.id config.(Types.choices) in
  if Z.of_nat (List.length choiceIds) <? 1 then
    Throw (Error "Config must have at least 1 choice")
  else Return (zEnum choiceIds).

Definition generateRoundSchema (config : Types.GameConfig)
  : Completion (Schema Round) :=
  do choiceSchema <- generateChoiceIdSchema config;
  Return
    (fun path v =>
       match v with
       | JS.Object props =>
           let '(i1, r1) := field choiceSchema path props "player1Choice" in
           let '(i2, r2) := field choiceSchema path props "player2Choice" in
           let '(i3, r3) := field (zNumber []) path props "player1Score" in
           let '(i4, r4) := field (zNumber []) path props "player2Score" in
           let '(i5, r5) :=
             field (zOptional (zString [])) path props "outcomeText" in
           ((i1 ++ i2 ++ i3 ++ i4 ++ i5)%list,
            match r1, r2, r3, r4, r5 with
            | Some a, Some b, Some c, Some d, Some e =>
                Some {| player1Choice := a; player2Choice := b;
                        player1Score := c; player2Score := d;
                        outcomeText := e |}
            | _, _, _, _, _ => None
            end)
       | _ => invalidType "object" path v
       end).

Definition generateRoundHistorySchema (config : Types.GameConfig)
  : Completion (Schema (list Round)) :=
  do roundSchema <- generateRoundSchema config;
  Return (zArray roundSchema None).

(** The schema of the [currentRound] member:
    [z.number().int().min(1).max(config.progression.totalRounds)]. *)
Definition currentRoundSchema (config : Types.GameConfig) : Schema Z :=
  integer
    (zNumber
       [NumberInt; NumberMin 1 None;
        NumberMax config.(Types.progression).(Types.totalRounds) None]).

Definition pendingChoiceSchema (choiceSchema : Schema string)
  : Schema PendingChoice :=
  fun path v =>
    match v with
    | JS.Object props =>
        let '(i1, r1) := field PlayerIdSchema path props "playerId" in
        let '(i2, r2) := field choiceSchema path props "choice" in
        ((i1 ++ i2)%list,
         match r1, r2 with
         | Some a, Some b => Some {| playerId := a; choice := b |}
         | _, _ => None
         end)
    | _ => invalidType "object" path v
    end.

Definition generateGameStateSchema (config : Types.GameConfig)
  : Completion (Schema GameState) :=
  do choiceSchema <- generateChoiceIdSchema config;
  do roundHistorySchema <- generateRoundHistorySchema config;
  Return
    (fun path v =>
       match v with
       | JS.Object props =>
           let '(i1, r1) := field GameIdSchema path props "gameId" in
           let '(i2, r2) :=
             field
               (zLiteralString config.(Types.metadata).(Types.metadata_id))
               path props "gameType" in
           let '(i3, r3) :=
             field (zLiteralString config.(Types.metadata).(Types.version))
               path props "gameVersion" in
           let '(i4, r4) := field PlayerIdSchema path props "player1Id" in
           let '(i5, r5) :=
             field (zOptional PlayerIdSchema) path props "player2Id" in
           let '(i6, r6) :=
             field (zString [StringMin 1 None]) path props "player1Name" in
           let '(i7, r7) :=
             field (zOptional (zString [])) path props "player2Name" in
           let '(i8, r8) :=
             field (currentRoundSchema config) path props "currentRound" in
           let '(i9, r9) :=
             field
               (zLiteralNumber
                  config.(Types.progression).(Types.totalRounds)
                  config.(Types.progression).(Types.totalRounds))
               path props "totalRounds" in
           let '(i10, r10) :=
             field roundHistorySchema path props "roundHistory" in
           let '(i11, r11) :=
             field
               (zUnion
                  [zLiteralNumber 1 Types.P1; zLiteralNumber 2 Types.P2])
               path props "currentStarter" in
           let '(i12, r12) :=
             field (zOptional (pendingChoiceSchema choiceSchema))
               path props "pendingChoice" in
           let '(i13, r13) := field (zNumber []) path props "player1Total" in
           let '(i14, r14) := field (zNumber []) path props "player2Total" in
           let '(i15, r15) :=
             field (zString [StringFormat "datetime" datetimeTest])
               path props "createdAt" in
           let '(i16, r16) :=
             field (zString [StringFormat "datetime" datetimeTest])
               path props "updatedAt" in
           ((i1 ++ i2 ++ i3 ++ i4 ++ i5 ++ i6 ++ i7 ++ i8 ++ i9 ++ i10 ++ i11
               ++ i12 ++ i13 ++ i14 ++ i15 ++ i16)%list,
            match r1, r2, r3, r4, r5, r6, r7, r8 with
            | Some a1, Some a2, Some a3, Some a4, Some a5, Some a6, Some a7,
              Some a8 =>
                match r9, r10, r11, r12, r13, r14, r15, r16 with
                | Some a9, Some a10, Some a11, Some a12, Some a13, Some a14,
                  Some a15, Some a16 =>
                    Some {| gameId := a1; gameType := a2; gameVersion := a3;
                            player1Id := a4; player2Id := a5;
                            player1Name := a6; player2Name := a7;
                            currentRound := a8; totalRounds := a9;
                            roundHistory := a10; currentStarter := a11;
                            pendingChoice := a12; player1Total := a13;
                            player2Total := a14; createdAt := a15;
                            updatedAt := a16 |}
                | _, _, _, _, _, _, _, _ => None
                end
            | _, _, _, _, _, _, _, _ => None
            end)
       | _ => invalidType "object" path v
       end).

Definition generateGameHistoryEntrySchema (config : Types.GameConfig)
  : Completion (Schema GameHistoryEntry) :=
  do roundHistorySchema <- generateRoundHistorySchema config;
  Return
    (fun path v =>
       match v with
       | JS.Object props =>
           let '(i1, r1) := field GameIdSchema path props "gameId" in
           let '(i2, r2) :=
             field
               (zLiteralString config.(Types.metadata).(Types.metadata_id))
               path props "gameType" in
           let '(i3, r3) :=
             field
               (fun path v =>
                  match v with
                  | JS.Object props =>
                      let '(j1, s1) :=
                        field (zString []) path props "player1" in
                      let '(j2, s2) :=
                        field (zString []) path props "player2" in
                      ((j1 ++ j2)%list,
                       match s1, s2 with
                       | Some a, Some b => Some (a, b)
                       | _, _ => None
                       end)
                  | _ => invalidType "object" path v
                  end)
               path props "playerNames" in
           let '(i4, r4) :=
             field
               (fun path v =>
                  match v with
                  | JS.Object props =>
                      let '(j1, s1) :=
                        field (zNumber []) path props "player1" in
                      let '(j2, s2) :=
                        field (zNumber []) path props "player2" in
                      ((j1 ++ j2)%list,
                       match s1, s2 with
                       | Some a, Some b => Some (a, b)
                       | _, _ => None
                       end)
                  | _ => invalidType "object" path v
                  end)
               path props "totals" in
           let '(i5, r5) := field roundHistorySchema path props "rounds" in
           let '(i6, r6) :=
             field (zString [StringFormat "datetime" datetimeTest])
               path props "completedAt" in
           ((i1 ++ i2 ++ i3 ++ i4 ++ i5 ++ i6)%list,
            match r1, r2, r3, r4, r5, r6 with
            | Some a1, Some a2, Some (n1, n2), Some (t1, t2), Some a5,
              Some a6 =>
                Some {| entry_gameId := a1; entry_gameType := a2;
                        playerNames_player1 := n1; playerNames_player2 := n2;
                        totals_player1 := t1; totals_player2 := t2;
                        rounds := a5; completedAt := a6 |}
            | _, _, _, _, _, _ => None
            end)
       | _ => invalidType "object" path v
       end).

Definition generateGameHistorySchema (config : Types.GameConfig)
  : Completion (Schema GameHistory) :=
  do historyEntrySchema <- generateGameHistoryEntrySchema config;
  Return
    (fun path v =>
       match v with
       | JS.Object props =>
           let '(i1, r1) :=
             field (zString [StringMin 1 None]) path props "playerName" in
           let '(i2, r2) :=
             field (zArray historyEntrySchema None) path props "games" in
           let '(i3, r3) :=
             field (zString [StringFormat "datetime" datetimeTest])
               path props "lastUpdated" in
           ((i1 ++ i2 ++ i3)%list,
            match r1, r2, r3 with
            | Some a, Some b, Some c =>
                Some {| playerName := a; games := b; lastUpdated := c |}
            | _, _, _ => None
            end)
       | _ => invalidType "object" path v
       end).

(** [schemaCache], the module's [Map] from cache keys to schemas, is
    threaded through the two functions that use it. *)
Definition getGameSchemas (config : Types.GameConfig)
    (schemaCache : gmap string GameSchemas)
  : Completion GameSchemas * gmap string GameSchemas :=
  let cacheKey :=
    config.(Types.metadata).(Types.metadata_id) ++ "-"
      ++ config.(Types.metadata).(Types.version) in
  match schemaCache !! cacheKey with
  | Some cached => (Return cached, schemaCache)
  | None =>
      match
        do a <- generateChoiceIdSchema config;
        do b <- generateRoundSchema config;
        do c <- generateGameStateSchema config;
        do d <- generateGameHistorySchema config;
        Return {| choiceIdSchema := a; roundSchema := b;
                  gameStateSchema := c; gameHistorySchema := d |}
      with
      | Return cached => (Return cached, <[cacheKey := cached]> schemaCache)
      | Throw e => (Throw e, schemaCache)
      end
  end.

Definition clearSchemaCache (schemaCache : gmap string GameSchemas)
  : gmap string GameSchemas := ∅.

(** *** baseSchema.ts *)

Definition PlayerNumberSchema : Schema Types.PlayerNumber :=
  zUnion [zLiteralNumber 1 Types.P1; zLiteralNumber 2 Types.P2].

Definition DateTimeSchema : Schema string :=
  zString [StringFormat "datetime" datetimeTest].

(** [crypto.randomUUID()] and [new Date().toISOString()] are made explicit
    as arguments. *)
Definition createPlayerId (randomUUID : string) : Completion string :=
  parse PlayerIdSchema (JS.Str randomUUID).

Definition createGameId (randomUUID : string) : Completion string :=
  parse GameIdSchema (JS.Str randomUUID).

Definition createTimestamp (now : string) : Completion string :=
  parse DateTimeSchema (JS.Str now).

Definition isPlayerId (value : JS.Value) : bool :=
  safeParseSuccess PlayerIdSchema value.

Definition isGameId (value : JS.Value) : bool :=
  safeParseSuccess GameIdSchema value.

Definition isPlayerNumber (value : JS.Value) : bool :=
  safeParseSuccess PlayerNumberSchema value.

End Generators.

End SchemaGenerator.

(** ** App.tsx *)

Module App.
Import Types Exn.

Record Round := {
  round_player1Choice : string;
  round_player2Choice : string;
  player1Score : JS.number;
  player2Score : JS.number;
}.

(** The [rounds] array of a game state is a mutable object: a state holds a
    reference to it, and the spread [{ ...gameState }] copies the reference,
    not the array. *)
Definition ArrayRef : Type := nat.

Record GameState := {
  gameId : string;
  currentRound : Z;
  player1Choice : option string;
  player2Choice : option string;
  player1Total : JS.number;
  player2Total : JS.number;
  rounds : ArrayRef;
}.

(** The component: the arrays allocated so far and the two state hooks. *)
Record Component := {
  arrays : gmap nat (list Round);
  gameState : option GameState;
  urlState : option GameState;
}.

(** The component as mounted: [useState(null)] twice. *)
Definition mounted : Component :=
  {| arrays := ∅; gameState := None; urlState := None |}.

(** [createGameId()] draws a random UUID, made explicit as [uuid]. *)
Definition startNewGame (config : option GameConfig) (uuid : string)
    (c : Component) : Component :=
  match config with
  | None => c
  | Some _ =>
      let r := fresh (dom c.(arrays)) in
      let newGame :=
        {| gameId := uuid; currentRound := 1;
           player1Choice := None; player2Choice := None;
           player1Total := 0; player2Total := 0; rounds := r |} in
      {| arrays := <[r := []]> c.(arrays);
         gameState := Some newGame; urlState := None |}
  end.

(** [array.push(x)] through a reference. *)
Definition push (r : ArrayRef) (x : Round) (arrays : gmap nat (list Round))
  : gmap nat (list Round) :=
  alter (fun l => (l ++ [x])%list) r arrays.

Definition makeChoice (config : option GameConfig) (playerNum : PlayerNumber)
    (choiceId : string) (c : Component) : Completion Component :=
  match c.(gameState), config with
  | Some gameState, Some config =>
      let newState := gameState in
      let newState :=
        match playerNum with
        | P1 =>
            {| gameId := newState.(gameId);
               currentRound := newState.(currentRound);
               player1Choice := Some choiceId;
               player2Choice := newState.(player2Choice);
               player1Total := newState.(player1Total);
               player2Total := newState.(player2Total);
               rounds := newState.(rounds) |}
        | P2 =>
            {| gameId := newState.(gameId);
               currentRound := newState.(currentRound);
               player1Choice := newState.(player1Choice);
               player2Choice := Some choiceId;
               player1Total := newState.(player1Total);
               player2Total := newState.(player2Total);
               rounds := newState.(rounds) |}
        end in
      if JS.truthy newState.(player1Choice)
         && JS.truthy newState.(player2Choice) then
        let p1 := default "" newState.(player1Choice) in
        let p2 := default "" newState.(player2Choice) in
        do payoff <- PayoffEngine.calculatePayoff config p1 p2;
        let arrays :=
          push newState.(rounds)
            {| round_player1Choice := p1; round_player2Choice := p2;
               player1Score := payoff.(PayoffEngine.player1Score);
               player2Score := payoff.(PayoffEngine.player2Score) |}
            c.(arrays) in
        let player1Total :=
          JS.add newState.(player1Total) payoff.(PayoffEngine.player1Score) in
        let player2Total :=
          JS.add newState.(player2Total) payoff.(PayoffEngine.player2Score) in
        let advance :=
          newState.(currentRound) <? config.(progression).(totalRounds) in
        let newState :=
          {| gameId := newState.(gameId);
             currentRound :=
               if advance then newState.(currentRound) + 1
               else newState.(currentRound);
             player1Choice :=
               if advance then None else newState.(player1Choice);
             player2Choice :=
               if advance then None else newState.(player2Choice);
             player1Total := player1Total;
             player2Total := player2Total;
             rounds := newState.(rounds) |} in
        Return {| arrays := arrays; gameState := Some newState;
                  urlState := None |}
      else
        Return {| arrays := c.(arrays); gameState := Some newState;
                  urlState := None |}
  | _, _ => Return c
  end.

(** What the user does with the component. An exception thrown inside an
    event handler leaves the component as it was. *)
Inductive Action :=
| StartNewGame (uuid : string)
| MakeChoice (playerNum : PlayerNumber) (choiceId : string).

Definition step (config : option GameConfig) (c : Component) (a : Action)
  : Component :=
  match a with
  | StartNewGame uuid => startNewGame config uuid c
  | MakeChoice playerNum choiceId =>
      match makeChoice config playerNum choiceId c with
      | Return c' => c'
      | Throw _ => c
      end
  end.

(** What the render computes from the state before it chooses a
    screen. *)
Definition isComplete (config : GameConfig) (gameState : GameState) : bool :=
  gameState.(currentRound) >? config.(progression).(totalRounds).

Definition roundComplete (gameState : GameState) : bool :=
  JS.truthy gameState.(player1Choice) && JS.truthy gameState.(player2Choice).

Definition winner (gameState : GameState) : string :=
  if JS.gt gameState.(player1Total) gameState.(player2Total) then "Player 1"
  else if JS.gt gameState.(player2Total) gameState.(player1Total)
  then "Player 2"
  else "Tie".

End App.

(** ** App.tsx, the version with the flow state

    The component keeps its state in two hooks and shares it through
    [window.location.hash]. The two effects are functions on the
    component; the handlers are followed by the effect that rewrites the
    hash. *)

Module AppFlow.
Import Types Exn.

Inductive FlowState : Set :=
| waiting_first
| waiting_second
| results_and_next
| complete.

#[global] Instance FlowState_eq_dec : EqDecision FlowState.
Proof. solve_decision. Defined.

(** [whoWentFirst] is absent from a state decoded from a link that has a
    flow state and no such member; the code writes it and never reads
    it. *)
Record GameState := {
  gameId : string;
  currentRound : Z;
  player1Choice : option string;
  player2Choice : option string;
  player1Total : JS.number;
  player2Total : JS.number;
  rounds : App.ArrayRef;
  flowState : FlowState;
  whoWentFirst : option PlayerNumber;
  pendingResultsForRound : option Z;
}.

(** The object [JSON.parse] gives for the text of a link, read as a
    [GameState]: the rounds by value, the flow state possibly absent. *)
Record Decoded := {
  decoded_gameId : string;
  decoded_currentRound : Z;
  decoded_player1Choice : option string;
  decoded_player2Choice : option string;
  decoded_player1Total : JS.number;
  decoded_player2Total : JS.number;
  decoded_rounds : list App.Round;
  decoded_flowState : option FlowState;
  decoded_whoWentFirst : option PlayerNumber;
  decoded_pendingResultsForRound : option Z;
}.

Record Component := {
  arrays : gmap nat (list App.Round);
  gameState : option GameState;
  urlState : option GameState;
  hash : string;
}.

(** The assignments to the members of [newState]. *)
Definition set_currentRound (v : Z) (s : GameState) : GameState :=
  {| gameId := s.(gameId); currentRound := v;
     player1Choice := s.(player1Choice); player2Choice := s.(player2Choice);
     player1Total := s.(player1Total); player2Total := s.(player2Total);
     rounds := s.(rounds); flowState := s.(flowState);
     whoWentFirst := s.(whoWentFirst);
     pendingResultsForRound := s.(pendingResultsForRound) |}.

Definition set_player1Choice (v : option string) (s : GameState) : GameState :=
  {| gameId := s.(gameId); currentRound := s.(currentRound);
     player1Choice := v; player2Choice := s.(player2Choice);
     player1Total := s.(player1Total); player2Total := s.(player2Total);
     rounds := s.(rounds); flowState := s.(flowState);
     whoWentFirst := s.(whoWentFirst);
     pendingResultsForRound := s.(pendingResultsForRound) |}.

Definition set_player2Choice (v : option string) (s : GameState) : GameState :=
  {| gameId := s.(gameId); currentRound := s.(currentRound);
     player1Choice := s.(player1Choice); player2Choice := v;
     player1Total := s.(player1Total); player2Total := s.(player2Total);
     rounds := s.(rounds); flowState := s.(flowState);
     whoWentFirst := s.(whoWentFirst);
     pendingResultsForRound := s.(pendingResultsForRound) |}.

Definition set_player1Total (v : JS.number) (s : GameState) : GameState :=
  {| gameId := s.(gameId); currentRound := s.(currentRound);
     player1Choice := s.(player1Choice); player2Choice := s.(player2Choice);
     player1Total := v; player2Total := s.(player2Total);
     rounds := s.(rounds); flowState := s.(flowState);
     whoWentFirst := s.(whoWentFirst);
     pendingResultsForRound := s.(pendingResultsForRound) |}.

Definition set_player2Total (v : JS.number) (s : GameState) : GameState :=
  {| gameId := s.(gameId); currentRound := s.(currentRound);
     player1Choice := s.(player1Choice); player2Choice := s.(player2Choice);
     player1Total := s.(player1Total); player2Total := v;
     rounds := s.(rounds); flowState := s.(flowState);
     whoWentFirst := s.(whoWentFirst);
     pendingResultsForRound := s.(pendingResultsForRound) |}.

Definition set_flowState (v : FlowState) (s : GameState) : GameState :=
  {| gameId := s.(gameId); currentRound := s.(currentRound);
     player1Choice := s.(player1Choice); player2Choice := s.(player2Choice);
     player1Total := s.(player1Total); player2Total := s.(player2Total);
     rounds := s.(rounds); flowState := v;
     whoWentFirst := s.(whoWentFirst);
     pendingResultsForRound := s.(pendingResultsForRound) |}.

Definition set_whoWentFirst (v : PlayerNumber) (s : GameState) : GameState :=
  {| gameId := s.(gameId); currentRound := s.(currentRound);
     player1Choice := s.(player1Choice); player2Choice := s.(player2Choice);
     player1Total := s.(player1Total); player2Total := s.(player2Total);
     rounds := s.(rounds); flowState := s.(flowState);
     whoWentFirst := Some v;
     pendingResultsForRound := s.(pendingResultsForRound) |}.

Definition set_pendingResultsForRound (v : option Z) (s : GameState)
  : GameState :=
  {| gameId := s.(gameId); currentRound := s.(currentRound);
     player1Choice := s.(player1Choice); player2Choice := s.(player2Choice);
     player1Total := s.(player1Total); player2Total := s.(player2Total);
     rounds := s.(rounds); flowState := s.(flowState);
     whoWentFirst := s.(whoWentFirst); pendingResultsForRound := v |}.

(** [createGameId()] draws a random UUID, made explicit as [uuid]. The
    assignment of the empty hash is part of the handler. *)
Definition startNewGame (config : option GameConfig) (uuid : string)
    (c : Component) : Component :=
  match config with
  | None => c
  | Some _ =>
      let r := fresh (dom c.(arrays)) in
      let newGame :=
        {| gameId := uuid; currentRound := 1;
           player1Choice := None; player2Choice := None;
           player1Total := 0; player2Total := 0; rounds := r;
           flowState := waiting_first; whoWentFirst := Some P1;
           pendingResultsForRound := None |} in
      {| arrays := <[r := []]> c.(arrays);
         gameState := Some newGame; urlState := None; hash := "" |}
  end.

Definition makeChoice (config : option GameConfig) (playerNum : PlayerNumber)
    (choiceId : string) (c : Component) : Completion Component :=
  match c.(gameState), config with
  | Some gameState, Some config =>
      let newState := gameState in
      let isFirstChoice :=
        negb (JS.truthy newState.(player1Choice))
        && negb (JS.truthy newState.(player2Choice)) in
      let isSecondChoice :=
        JS.truthy newState.(player1Choice)
        && negb (JS.truthy newState.(player2Choice))
        || negb (JS.truthy newState.(player1Choice))
           && JS.truthy newState.(player2Choice) in
      let newState :=
        match playerNum with
        | P1 => set_player1Choice (Some choiceId) newState
        | P2 => set_player2Choice (Some choiceId) newState
        end in
      if isFirstChoice then
        let newState := set_flowState waiting_second newState in
        let newState := set_whoWentFirst playerNum newState in
        Return {| arrays := c.(arrays); gameState := Some newState;
                  urlState := None; hash := c.(hash) |}
      else if isSecondChoice && JS.truthy newState.(player1Choice)
              && JS.truthy newState.(player2Choice) then
        let p1 := default "" newState.(player1Choice) in
        let p2 := default "" newState.(player2Choice) in
        do payoff <- PayoffEngine.calculatePayoff config p1 p2;
        let arrays :=
          App.push newState.(rounds)
            {| App.round_player1Choice := p1; App.round_player2Choice := p2;
               App.player1Score := payoff.(PayoffEngine.player1Score);
               App.player2Score := payoff.(PayoffEngine.player2Score) |}
            c.(arrays) in
        let newState :=
          set_player1Total
            (JS.add newState.(player1Total)
               payoff.(PayoffEngine.player1Score))
            newState in
        let newState :=
          set_player2Total
            (JS.add newState.(player2Total)
               payoff.(PayoffEngine.player2Score))
            newState in
        let newState :=
          set_pendingResultsForRound (Some newState.(currentRound)) newState in
        let newState := set_flowState results_and_next newState in
        Return {| arrays := arrays; gameState := Some newState;
                  urlState := None; hash := c.(hash) |}
      else
        Return {| arrays := c.(arrays); gameState := Some newState;
                  urlState := None; hash := c.(hash) |}
  | _, _ => Return c
  end.

Definition makeNextChoiceAfterResults (config : option GameConfig)
    (choiceId : string) (c : Component) : Component :=
  match c.(gameState), config with
  | Some gameState, Some config =>
      let newState := gameState in
      let newState := set_currentRound (newState.(currentRound) + 1) newState in
      let newState := set_pendingResultsForRound None newState in
      let nextStarter :=
        TurnEngine.determineRoundStarter config newState.(currentRound) in
      let newState :=
        match nextStarter with
        | P1 =>
            set_player2Choice None (set_player1Choice (Some choiceId) newState)
        | P2 =>
            set_player2Choice (Some choiceId) (set_player1Choice None newState)
        end in
      let newState := set_flowState waiting_second newState in
      let newState := set_whoWentFirst nextStarter newState in
      {| arrays := c.(arrays); gameState := Some newState;
         urlState := None; hash := c.(hash) |}
  | _, _ => c
  end.

(** What the render computes for a state: whether the game is over. *)
Definition isComplete (config : GameConfig) (gameState : GameState)
    (urlState : option GameState) : bool :=
  bool_decide (gameState.(flowState) = results_and_next)
  && (gameState.(currentRound) >=? config.(progression).(totalRounds))
  && match urlState with Some _ => true | None => false end.

Definition winner (gameState : GameState) : string :=
  if JS.gt gameState.(player1Total) gameState.(player2Total) then "Player 1"
  else if JS.gt gameState.(player2Total) gameState.(player1Total)
  then "Player 2"
  else "Tie".

(** What the user can do with the component. *)
Inductive Action :=
| StartNewGame (uuid : string)
| MakeChoice (playerNum : PlayerNumber) (choiceId : string)
| MakeNextChoiceAfterResults (choiceId : string).

(** [ToBoolean] of a member of type [number | undefined]. *)
Definition truthyNumber (n : option Z) : bool :=
  match n with
  | Some n => negb (n =? 0)
  | None => false
  end.

(** The handlers the rendered screen binds to its buttons, for a loaded
    configuration: the welcome screen and the screen of a finished game
    have the button that starts a game; a round in progress shows a
    choice board, one button per choice of the configuration, in the four
    situations of the render. *)
Definition offers (config : GameConfig) (c : Component) (a : Action) : bool :=
  match c.(gameState) with
  | None =>
      match a with StartNewGame _ => true | _ => false end
  | Some gameState =>
      if isComplete config gameState c.(urlState) then
        match a with StartNewGame _ => true | _ => false end
      else
        let currentRoundStarter :=
          TurnEngine.determineRoundStarter config gameState.(currentRound) in
        let p1 := JS.truthy gameState.(player1Choice) in
        let p2 := JS.truthy gameState.(player2Choice) in
        let shared :=
          match c.(urlState) with Some _ => true | None => false end in
        match a with
        | StartNewGame _ => false
        | MakeChoice playerNum choiceId =>
            existsb (fun choice => String.eqb choice.(id) choiceId)
              config.(choices)
            && (negb p1 && negb p2
                  && bool_decide (playerNum = currentRoundStarter)
                || p1 && negb p2 && shared && bool_decide (playerNum = P2)
                || negb p1 && p2 && shared && bool_decide (playerNum = P1))
        | MakeNextChoiceAfterResults choiceId =>
            existsb (fun choice => String.eqb choice.(id) choiceId)
              config.(choices)
            && bool_decide (gameState.(flowState) = results_and_next)
            && truthyNumber gameState.(pendingResultsForRound)
            && (gameState.(currentRound)
                <? config.(progression).(totalRounds))
        end
  end.

Section WithCodec.

(** [btoa(JSON.stringify(gameState))] and [JSON.parse(atob(hash))]. *)
Variable encode : Decoded -> string.
Variable decode : string -> Completion Decoded.

(** The object [JSON.stringify] walks: the state with the content of its
    rounds array. *)
Definition stringified (c : Component) (gameState : GameState) : Decoded :=
  {| decoded_gameId := gameState.(gameId);
     decoded_currentRound := gameState.(currentRound);
     decoded_player1Choice := gameState.(player1Choice);
     decoded_player2Choice := gameState.(player2Choice);
     decoded_player1Total := gameState.(player1Total);
     decoded_player2Total := gameState.(player2Total);
     decoded_rounds := default [] (c.(arrays) !! gameState.(rounds));
     decoded_flowState := Some gameState.(flowState);
     decoded_whoWentFirst := gameState.(whoWentFirst);
     decoded_pendingResultsForRound := gameState.(pendingResultsForRound) |}.

(** The effect on [gameState, urlState]: the hash follows the state unless
    the state came from the hash. *)
Definition updateUrl (c : Component) : Component :=
  match c.(gameState), c.(urlState) with
  | Some state, None =>
      {| arrays := c.(arrays); gameState := Some state; urlState := None;
         hash := encode (stringified c state) |}
  | _, _ => c
  end.

(** The effect on [config]: the state is read from the hash, the flow
    state of a link without one is made up from the choices. A hash that
    cannot be decoded is reported on the console and left alone. *)
Definition loadFromUrl (config : option GameConfig) (c : Component)
  : Component :=
  match config with
  | Some _ =>
      if JS.truthyString c.(hash) then
        match decode c.(hash) with
        | Return decodedState =>
            let '(flow, who) :=
              match decodedState.(decoded_flowState) with
              | Some flow => (flow, decodedState.(decoded_whoWentFirst))
              | None =>
                  ((if JS.truthy decodedState.(decoded_player1Choice)
                       && JS.truthy decodedState.(decoded_player2Choice)
                    then waiting_second
                    else if JS.truthy decodedState.(decoded_player1Choice)
                            || JS.truthy decodedState.(decoded_player2Choice)
                    then waiting_second
                    else waiting_first),
                   Some P1)
              end in
            let r := fresh (dom c.(arrays)) in
            let state :=
              {| gameId := decodedState.(decoded_gameId);
                 currentRound := decodedState.(decoded_currentRound);
                 player1Choice := decodedState.(decoded_player1Choice);
                 player2Choice := decodedState.(decoded_player2Choice);
                 player1Total := decodedState.(decoded_player1Total);
                 player2Total := decodedState.(decoded_player2Total);
                 rounds := r;
                 flowState := flow;
                 whoWentFirst := who;
                 pendingResultsForRound :=
                   decodedState.(decoded_pendingResultsForRound) |} in
            {| arrays := <[r := decodedState.(decoded_rounds)]> c.(arrays);
               gameState := Some state; urlState := Some state;
               hash := c.(hash) |}
        | Throw _ => c
        end
      else c
  | None => c
  end.

(** The page opened at a link: the component is mounted, the state is
    read from the hash, and the hash is left as it is. *)
Definition openLink (config : option GameConfig) (link : string) : Component :=
  updateUrl
    (loadFromUrl config
       {| arrays := ∅; gameState := None; urlState := None; hash := link |}).

(** A handler and the effect that follows the change of state. An
    exception thrown inside a handler leaves the component as it was. *)
Definition step (config : option GameConfig) (c : Component) (a : Action)
  : Component :=
  match a with
  | StartNewGame uuid => updateUrl (startNewGame config uuid c)
  | MakeChoice playerNum choiceId =>
      match makeChoice config playerNum choiceId c with
      | Return c' => updateUrl c'
      | Throw _ => c
      end
  | MakeNextChoiceAfterResults choiceId =>
      updateUrl (makeNextChoiceAfterResults config choiceId c)
  end.

End WithCodec.

End AppFlow.

(** * Vocabulary of the properties *)

(** ** Turn engine *)

(** A choice has been made when the argument is a non-empty string. *)
Definition choiceMade (choice : option string) : Prop :=
  exists s, choice = Some s /\ s <> "".

(** ** Running totals *)

(** The sum of one score column over a round history. *)
Definition sumScores (score : App.Round -> JS.number)
    (history : list App.Round) : JS.number :=
  fold_right JS.add 0 (map score history).

(** The component shows a game whose totals are the column sums of the
    array its [rounds] reference points to. *)
Definition totalsMatchHistory (c : App.Component) : Prop :=
  exists s history,
    c.(App.gameState) = Some s
    /\ c.(App.arrays) !! s.(App.rounds) = Some history
    /\ s.(App.player1Total) = sumScores App.player1Score history
    /\ s.(App.player2Total) = sumScores App.player2Score history.

(** ** Signed tokens *)

(** The value of a hexadecimal digit, the inverse of [hexChar]. *)
Definition hexValue (c : ascii) : N :=
  let n := N_of_ascii c in
  if (n <? 58)%N then (n - 48)%N else (n - 87)%N.

(** The signature [generateHMAC] computes for [data]. *)
Definition tagOf (HmacSHA256 : string -> string -> list Byte.byte)
    (data : string) : string :=
  HmacManager.hexStringify (HmacSHA256 data Constants.GAME_SECRET).

(** [replaceAt i c s] is [s] with the byte at index [i] replaced by [c]. *)
Fixpoint replaceAt (i : nat) (c : ascii) (s : string) : string :=
  match s, i with
  | EmptyString, _ => EmptyString
  | String _ rest, O => String c rest
  | String d rest, S i => String d (replaceAt i c rest)
  end.

(** [s'] is [s] with exactly one byte changed. *)
Definition oneByteFlipped (s s' : string) : Prop :=
  exists i c d, String.get i s = Some d /\ c <> d /\ s' = replaceAt i c s.

(** [decodeSignedData(encodeSignedData(signData(d)))] *)
Definition signThenDecode (HmacSHA256 : string -> string -> list Byte.byte)
    (d : string) : Exn.Completion string :=
  do signed <- HmacManager.signData HmacSHA256 d;
  HmacManager.decodeSignedData HmacSHA256
    (HmacManager.encodeSignedData signed).

(** ** The state codec *)

(** What JSON keeps of a value: [JSON.parse(JSON.stringify(v))] drops the
    properties whose value is [undefined], turns an [undefined] array
    element into [null], and writes a number that is not finite as
    [null]. *)

Module Json.

Fixpoint normalize (v : JS.Value) : JS.Value :=
  match v with
  | JS.Number n => if JS.isFinite n then v else JS.Null
  | JS.Array elements =>
      JS.Array
        (map (fun x => match x with
                       | JS.Undefined => JS.Null
                       | _ => normalize x
                       end) elements)
  | JS.Object properties =>
      JS.Object
        (flat_map
           (fun p =>
              let '(k, x) := p in
              match x with
              | JS.Undefined => []
              | _ => [(k, normalize x)]
              end) properties)
  | _ => v
  end.

(** No object of the value lists a key twice. *)
Fixpoint distinctKeys (v : JS.Value) : bool :=
  match v with
  | JS.Array elements => forallb distinctKeys elements
  | JS.Object properties =>
      bool_decide (NoDup (map fst properties))
      && forallb (fun p => let '(_, x) := p in distinctKeys x) properties
  | _ => true
  end.

(** The values [JSON.stringify] turns into text. *)
Definition representable (v : JS.Value) : bool :=
  match v with
  | JS.Undefined => false
  | _ => distinctKeys v
  end.

End Json.

(** A game-state snapshot as [App.tsx] declares it, the [rounds] array
    read through its reference, and the object that carries it. *)

Module Snapshot.

Record t := {
  gameId : string;
  currentRound : JS.number;
  player1Choice : option string;
  player2Choice : option string;
  player1Total : JS.number;
  player2Total : JS.number;
  rounds : list App.Round;
}.

(** Every number of the snapshot is finite: the round number, the totals
    and the scores of each round. *)
Definition finiteRound (r : App.Round) : bool :=
  JS.isFinite r.(App.player1Score) && JS.isFinite r.(App.player2Score).

Definition finite (s : t) : bool :=
  JS.isFinite s.(currentRound)
  && JS.isFinite s.(player1Total)
  && JS.isFinite s.(player2Total)
  && forallb finiteRound s.(rounds).

Definition roundValue (r : App.Round) : JS.Value :=
  JS.Object
    [("player1Choice", JS.Str r.(App.round_player1Choice));
     ("player2Choice", JS.Str r.(App.round_player2Choice));
     ("player1Score", JS.Number r.(App.player1Score));
     ("player2Score", JS.Number r.(App.player2Score))].

(** An optional member: a string, or, when there is none, either a
    property holding [undefined] (after [newState.player1Choice =
    undefined]) or no property at all (a state from [startNewGame]). *)
Definition optionalMember (explicit : bool) (key : string)
    (value : option string) : list (string * JS.Value) :=
  match value with
  | Some s => [(key, JS.Str s)]
  | None => if explicit then [(key, JS.Undefined)] else []
  end.

(** The object of a snapshot: the members of [startNewGame]'s literal in
    their order, then the choices, assigned later. *)
Definition toValue (explicit : bool) (s : t) : JS.Value :=
  JS.Object
    ([("gameId", JS.Str s.(gameId));
      ("currentRound", JS.Number s.(currentRound));
      ("player1Total", JS.Number s.(player1Total));
      ("player2Total", JS.Number s.(player2Total));
      ("rounds", JS.Array (map roundValue s.(rounds)))]
       ++ optionalMember explicit "player1Choice" s.(player1Choice)
       ++ optionalMember explicit "player2Choice" s.(player2Choice))%list.

(** Reading the members back. *)
Definition asString (v : JS.Value) : option string :=
  match v with JS.Str s => Some s | _ => None end.

Definition asNumber (v : JS.Value) : option JS.number :=
  match v with JS.Number n => Some n | _ => None end.

Definition asOptionalString (v : JS.Value) : option (option string) :=
  match v with
  | JS.Undefined => Some None
  | JS.Str s => Some (Some s)
  | _ => None
  end.

Definition readRound (v : JS.Value) : option App.Round :=
  match v with
  | JS.Object props =>
      a ← asString (JS.getProperty props "player1Choice");
      b ← asString (JS.getProperty props "player2Choice");
      c ← asNumber (JS.getProperty props "player1Score");
      d ← asNumber (JS.getProperty props "player2Score");
      Some {| App.round_player1Choice := a; App.round_player2Choice := b;
              App.player1Score := c; App.player2Score := d |}
  | _ => None
  end.

Definition read (v : JS.Value) : option t :=
  match v with
  | JS.Object props =>
      a ← asString (JS.getProperty props "gameId");
      b ← asNumber (JS.getProperty props "currentRound");
      c ← asOptionalString (JS.getProperty props "player1Choice");
      d ← asOptionalString (JS.getProperty props "player2Choice");
      e ← asNumber (JS.getProperty props "player1Total");
      f ← asNumber (JS.getProperty props "player2Total");
      g ← match JS.getProperty props "rounds" with
          | JS.Array elements => mapM readRound elements
          | _ => None
          end;
      Some {| gameId := a; currentRound := b; player1Choice := c;
              player2Choice := d; player1Total := e; player2Total := f;
              rounds := g |}
  | _ => None
  end.

End Snapshot.

(** [decryptGameState(encryptGameState(gameState))] over given libraries. *)
Definition encryptThenDecrypt
    (JSON_stringify : JS.Value -> string)
    (JSON_parse : string -> Exn.Completion JS.Value)
    (compressToEncodedURIComponent : string -> string)
    (decompressFromEncodedURIComponent : string -> option string)
    (Salt : Type)
    (AES_encrypt_toString : Salt -> string -> string -> string)
    (AES_decrypt_toString : string -> string -> Exn.Completion string)
    (btoa : string -> string) (atob : string -> Exn.Completion string)
    (salt : Salt) (gameState : JS.Value) : Lib.M JS.Value :=
  run encoded <-
    Encryption.encryptGameState JSON_stringify compressToEncodedURIComponent
      Salt AES_encrypt_toString btoa salt gameState;
  Encryption.decryptGameState JSON_parse decompressFromEncodedURIComponent
    AES_decrypt_toString atob encoded.

(** ** The configuration validator *)

(** The three error classes of the semantic validation, each as a function
    of the configuration. *)
Definition unknownChoiceErrors (choiceIds : gset string)
    (rules : list Types.PayoffRule) : list string :=
  flat_map
    (fun rule =>
       (if bool_decide (rule.(Types.condition_player1) ∈ choiceIds) then []
        else [Loader.unknownChoiceMessage rule.(Types.condition_player1)])
       ++ (if bool_decide (rule.(Types.condition_player2) ∈ choiceIds) then []
           else [Loader.unknownChoiceMessage rule.(Types.condition_player2)]))%list
    rules.

Fixpoint duplicateErrors (rules : list Types.PayoffRule) (seen : gset string)
  : list string :=
  match rules with
  | [] => []
  | rule :: rest =>
      ((if bool_decide (Loader.combinationKey rule ∈ seen) then
          [Loader.duplicateMessage (Loader.combinationKey rule)]
        else [])
       ++ duplicateErrors rest ({[Loader.combinationKey rule]} ∪ seen))%list
  end.

Definition coverageErrors (config : Types.GameConfig) : list string :=
  let n := Z.of_nat (List.length config.(Types.choices)) in
  let m := Z.of_nat (List.length config.(Types.payoffRules)) in
  if m =? n * n then [] else [Loader.coverageMessage (n * n) n m].

Definition choiceIdsOf (config : Types.GameConfig) : gset string :=
  list_to_set (map Types.id config.(Types.choices)).

Definition semanticErrors (config : Types.GameConfig) : list string :=
  (unknownChoiceErrors (choiceIdsOf config) config.(Types.payoffRules)
   ++ duplicateErrors config.(Types.payoffRules) ∅
   ++ coverageErrors config)%list.

(** A rule whose two choice ids are choices of the configuration. *)
Definition knownIds (choiceIds : gset string) (rule : Types.PayoffRule)
  : Prop :=
  rule.(Types.condition_player1) ∈ choiceIds
  /\ rule.(Types.condition_player2) ∈ choiceIds.

(** The errors [loadGameConfig] reports for the issues of the schema. *)
Definition issueMessages (issues : list Exn.ZodIssue) : list string :=
  map (fun e => Loader.joinPath e.(Exn.path) ++ ": " ++ e.(Exn.message))
    issues.

(** The configuration with another payoff table. *)
Definition withPayoffRules (config : Types.GameConfig)
    (rules : list Types.PayoffRule) : Types.GameConfig :=
  {| Types.metadata := config.(Types.metadata);
     Types.choices := config.(Types.choices);
     Types.payoffRules := rules;
     Types.progression := config.(Types.progression);
     Types.ui := config.(Types.ui) |}.

(** [properties] with the value of [key] replaced. *)
Definition replaceProperty (key : string) (value : JS.Value)
    (properties : list (string * JS.Value)) : list (string * JS.Value) :=
  map (fun p => let '(k, x) := p in
                if String.eqb k key then (k, value) else (k, x)) properties.

(** The document without the [i]-th entry of its [payoffRules] array. *)
Definition withoutRule (i : nat) (yamlData : JS.Value) : JS.Value :=
  match yamlData with
  | JS.Object props =>
      match JS.getProperty props "payoffRules" with
      | JS.Array rules =>
          JS.Object
            (replaceProperty "payoffRules" (JS.Array (delete i rules)) props)
      | _ => yamlData
      end
  | _ => yamlData
  end.

(** A schema whose acceptance of a value does not depend on where the
    value stands. *)
Definition pathIndependent {A} (schema : Zod.Schema A) : Prop :=
  forall p p' v r, schema p v = ([], Some r) -> schema p' v = ([], Some r).

(** [message] contains [needle]. *)
Definition mentions (needle message : string) : bool :=
  match String.index 0 needle message with
  | Some _ => true
  | None => false
  end.

(** ** Moves and rematches *)

(** The choice argument that belongs to [player]. *)
Definition choiceOf (player : Types.PlayerNumber)
    (player1Choice player2Choice : option string) : option string :=
  match player with
  | Types.P1 => player1Choice
  | Types.P2 => player2Choice
  end.

(** The choices of player 1 and of player 2 in a round in which [player]
    chooses [own] and the other player has chosen [other]. *)
Definition roundChoices (player : Types.PlayerNumber) (own other : string)
  : string * string :=
  match player with
  | Types.P1 => (own, other)
  | Types.P2 => (other, own)
  end.

(** [config] with another starting player, as a rematch is configured. *)
Definition withStartingPlayer (config : Types.GameConfig)
    (player : Types.PlayerNumber) : Types.GameConfig :=
  {| Types.metadata := config.(Types.metadata);
     Types.choices := config.(Types.choices);
     Types.payoffRules := config.(Types.payoffRules);
     Types.progression :=
       {| Types.totalRounds :=
            config.(Types.progression).(Types.totalRounds);
          Types.startingPlayer := player;
          Types.alternateStarter :=
            config.(Types.progression).(Types.alternateStarter);
          Types.showRunningTotal :=
            config.(Types.progression).(Types.showRunningTotal) |};
     Types.ui := config.(Types.ui) |}.

(** The round reached from round 1 by [n] calls of [calculateNextRound]. *)
Definition roundAfter (totalRounds : Z) (n : nat) : Z :=
  Nat.iter n (fun r => TurnEngine.calculateNextRound r totalRounds) 1.

(** ** Payoff tables *)

(** The pair of choice ids a rule is for. *)
Definition conditionOf (rule : Types.PayoffRule) : string * string :=
  (rule.(Types.condition_player1), rule.(Types.condition_player2)).

(** The ids of the choices, in the order of the configuration. *)
Definition choiceIdList (config : Types.GameConfig) : list string :=
  map Types.id config.(Types.choices).

(** What [calculatePayoff] returns when [rule] is the matched rule. *)
Definition resultOf (rule : Types.PayoffRule) : PayoffEngine.PayoffResult :=
  {| PayoffEngine.player1Score := rule.(Types.outcome_player1);
     PayoffEngine.player2Score := rule.(Types.outcome_player2);
     PayoffEngine.result_outcomeText := rule.(Types.outcomeText);
     PayoffEngine.matchedRule := rule |}.

(** [rule] is the one rule of the table for the pair [(a, b)]. *)
Definition theRuleFor (config : Types.GameConfig) (a b : string)
    (rule : Types.PayoffRule) : Prop :=
  rule ∈ config.(Types.payoffRules)
  /\ conditionOf rule = (a, b)
  /\ forall other,
       other ∈ config.(Types.payoffRules) -> conditionOf other = (a, b) ->
       other = rule.

(** The entry [getPayoffsForChoice] pushes for [choice], if any. *)
Definition outcomeOf (config : Types.GameConfig) (player1Choice : string)
    (choice : Types.ChoiceOption) : option PayoffEngine.ChoiceOutcome :=
  match
    PayoffEngine.calculatePayoff config player1Choice choice.(Types.id)
  with
  | Exn.Return payoff =>
      Some {| PayoffEngine.outcome_player2Choice := choice.(Types.id);
              PayoffEngine.outcome_player1Score :=
                payoff.(PayoffEngine.player1Score);
              PayoffEngine.outcome_player2Score :=
                payoff.(PayoffEngine.player2Score);
              PayoffEngine.outcome_outcomeText :=
                payoff.(PayoffEngine.result_outcomeText) |}
  | Exn.Throw _ => None
  end.

(** A cell that shows the scores and the text of [rule]. *)
Definition cellShows (cell : PayoffEngine.MatrixCell)
    (rule : Types.PayoffRule) : Prop :=
  cell.(PayoffEngine.cell_player1Score) = rule.(Types.outcome_player1)
  /\ cell.(PayoffEngine.cell_player2Score) = rule.(Types.outcome_player2)
  /\ cell.(PayoffEngine.cell_outcomeText) = rule.(Types.outcomeText).

(** A schema that raises an issue whenever it yields no value. *)
Definition reportsFailure {A} (schema : Zod.Schema A) : Prop :=
  forall p v, snd (schema p v) = None -> fst (schema p v) <> [].

(** ** Generated schemas *)

(** The error of the generators for a configuration without choices. *)
Definition noChoiceError : Exn.Exception :=
  Exn.Error "Config must have at least 1 choice".

(** The key under which [getGameSchemas] keeps the schemas of [config]. *)
Definition cacheKeyOf (config : Types.GameConfig) : string :=
  config.(Types.metadata).(Types.metadata_id) ++ "-"
    ++ config.(Types.metadata).(Types.version).

(** A round between two choices of the configuration. *)
Definition knownRound (config : Types.GameConfig)
    (round : SchemaGenerator.Round) : Prop :=
  round.(SchemaGenerator.player1Choice) ∈ choiceIdList config
  /\ round.(SchemaGenerator.player2Choice) ∈ choiceIdList config.

(** ** Games played through the handlers *)

(** A recorded round whose scores are those [calculatePayoff] returns for
    its two choices. *)
Definition scoredByTable (config : Types.GameConfig) (round : App.Round)
  : Prop :=
  exists payoff,
    PayoffEngine.calculatePayoff config round.(App.round_player1Choice)
      round.(App.round_player2Choice) = Exn.Return payoff
    /\ round.(App.player1Score) = payoff.(PayoffEngine.player1Score)
    /\ round.(App.player2Score) = payoff.(PayoffEngine.player2Score).

(** The component shows a game within the rounds of the configuration,
    with a history of rounds scored by the table. *)
Definition gameInvariant (config : Types.GameConfig) (c : App.Component)
  : Prop :=
  exists s history,
    c.(App.gameState) = Some s
    /\ c.(App.arrays) !! s.(App.rounds) = Some history
    /\ 1 <= s.(App.currentRound)
         <= config.(Types.progression).(Types.totalRounds)
    /\ Forall (scoredByTable config) history.

(** The component after [actions], from a game started on the mounted
    component. *)
Definition played (config : Types.GameConfig) (uuid : string)
    (actions : list App.Action) : App.Component :=
  fold_left (App.step (Some config)) actions
    (App.startNewGame (Some config) uuid App.mounted).

(** ** Games of the application with the flow state *)

(** The component as mounted on a page without a hash. *)
Definition mountedFlow : AppFlow.Component :=
  {| AppFlow.arrays := ∅; AppFlow.gameState := None;
     AppFlow.urlState := None; AppFlow.hash := "" |}.

(** The component shows a game whose totals are the column sums of its
    history, every round of which was scored by the table. *)
Definition ledgerInvariant (config : Types.GameConfig)
    (c : AppFlow.Component) : Prop :=
  exists s history,
    c.(AppFlow.gameState) = Some s
    /\ c.(AppFlow.arrays) !! s.(AppFlow.rounds) = Some history
    /\ s.(AppFlow.player1Total) = sumScores App.player1Score history
    /\ s.(AppFlow.player2Total) = sumScores App.player2Score history
    /\ Forall (scoredByTable config) history.

(** The payoff table of [config] holds finite scores only. *)
Definition finiteOutcomes (config : Types.GameConfig) : Prop :=
  Forall
    (fun rule =>
       JS.isFinite rule.(Types.outcome_player1) = true
       /\ JS.isFinite rule.(Types.outcome_player2) = true)
    config.(Types.payoffRules).

(** The totals of a decoded state and the scores of its rounds are
    finite: the states whose JSON text holds every number. *)
Definition finiteState (d : AppFlow.Decoded) : bool :=
  JS.isFinite d.(AppFlow.decoded_player1Total)
  && JS.isFinite d.(AppFlow.decoded_player2Total)
  && forallb Snapshot.finiteRound d.(AppFlow.decoded_rounds).

(** What happens to the component: the user presses a button of the
    screen, or the page is opened again at the link the component
    shows, as the other player does. *)
Inductive Move :=
| Press (a : AppFlow.Action)
| OpenLink.

(** The component after [moves], when each button pressed is one the
    screen offers. *)
Fixpoint playMoves (encode : AppFlow.Decoded -> string)
    (decode : string -> Exn.Completion AppFlow.Decoded)
    (config : Types.GameConfig) (c : AppFlow.Component) (moves : list Move)
  : option AppFlow.Component :=
  match moves with
  | [] => Some c
  | Press a :: rest =>
      if AppFlow.offers config c a then
        playMoves encode decode config
          (AppFlow.step encode (Some config) c a) rest
      else None
  | OpenLink :: rest =>
      playMoves encode decode config
        (AppFlow.openLink encode decode (Some config) c.(AppFlow.hash)) rest
  end.

(** Where a game stands, by its flow state: no choice before the first
    one; the choice of the round's starter while the other player is
    awaited; both choices and the round recorded once it is scored. *)
Definition flowPhase (config : Types.GameConfig) (s : AppFlow.GameState)
    (history : list App.Round) : Prop :=
  let r := s.(AppFlow.currentRound) in
  let starter := TurnEngine.determineRoundStarter config r in
  match s.(AppFlow.flowState) with
  | AppFlow.waiting_first =>
      s.(AppFlow.player1Choice) = None /\ s.(AppFlow.player2Choice) = None
      /\ Z.of_nat (List.length history) = r - 1
  | AppFlow.waiting_second =>
      (exists choiceId,
          choiceId ∈ choiceIdList config
          /\ choiceOf starter s.(AppFlow.player1Choice)
               s.(AppFlow.player2Choice) = Some choiceId
          /\ choiceOf (TurnEngine.getOpponentPlayer starter)
               s.(AppFlow.player1Choice) s.(AppFlow.player2Choice) = None)
      /\ Z.of_nat (List.length history) = r - 1
  | AppFlow.results_and_next =>
      (exists a b,
          a ∈ choiceIdList config /\ b ∈ choiceIdList config
          /\ s.(AppFlow.player1Choice) = Some a
          /\ s.(AppFlow.player2Choice) = Some b)
      /\ s.(AppFlow.pendingResultsForRound) = Some r
      /\ Z.of_nat (List.length history) = r
  | AppFlow.complete => False
  end.

(** The component is as mounted, or it shows a game within its rounds,
    in one of the phases, under a hash that encodes the state shown. *)
Definition flowInvariant (encode : AppFlow.Decoded -> string)
    (config : Types.GameConfig) (c : AppFlow.Component) : Prop :=
  (c.(AppFlow.gameState) = None /\ c.(AppFlow.hash) = "")
  \/ exists s history,
       c.(AppFlow.gameState) = Some s
       /\ c.(AppFlow.arrays) !! s.(AppFlow.rounds) = Some history
       /\ (c.(AppFlow.urlState) = None \/ c.(AppFlow.urlState) = Some s)
       /\ c.(AppFlow.hash) = encode (AppFlow.stringified c s)
       /\ 1 <= s.(AppFlow.currentRound)
            <= config.(Types.progression).(Types.totalRounds)
       /\ flowPhase config s history
       /\ s.(AppFlow.player1Total) = sumScores App.player1Score history
       /\ s.(AppFlow.player2Total) = sumScores App.player2Score history
       /\ Forall (scoredByTable config) history.

(** * Examples *)

(** ** Rock-paper-scissors over three rounds, player 1 starting and the
    starter alternating: the configuration and its document *)

Definition rpsChoice (i l : string) : Types.ChoiceOption :=
  {| Types.id := i; Types.label := l;
     Types.description := None; Types.icon := None |}.

Definition rpsRule (a b : string) (x y : JS.number) : Types.PayoffRule :=
  {| Types.condition_player1 := a; Types.condition_player2 := b;
     Types.outcome_player1 := x; Types.outcome_player2 := y;
     Types.outcomeText := None |}.

Definition rpsConfig : Types.GameConfig :=
  {| Types.metadata :=
       {| Types.metadata_id := "rock-paper-scissors";
          Types.name := "Rock Paper Scissors";
          Types.metadata_description := "Best of three";
          Types.version := "1.0.0";
          Types.rulesUrl := None; Types.tags := None |};
     Types.choices :=
       [rpsChoice "rock" "Rock"; rpsChoice "paper" "Paper";
        rpsChoice "scissors" "Scissors"];
     Types.payoffRules :=
       [rpsRule "rock" "rock" 0 0; rpsRule "rock" "paper" (-1) 1;
        rpsRule "rock" "scissors" 1 (-1);
        rpsRule "paper" "rock" 1 (-1); rpsRule "paper" "paper" 0 0;
        rpsRule "paper" "scissors" (-1) 1;
        rpsRule "scissors" "rock" (-1) 1; rpsRule "scissors" "paper" 1 (-1);
        rpsRule "scissors" "scissors" 0 0];
     Types.progression :=
       {| Types.totalRounds := 3; Types.startingPlayer := Types.P1;
          Types.alternateStarter := true; Types.showRunningTotal := true |};
     Types.ui :=
       {| Types.primaryColor := None; Types.secondaryColor := None;
          Types.cssClass := None; Types.showPayoffMatrix := true;
          Types.showChoiceDescriptions := false;
          Types.choiceMadeText := None; Types.resultsHeaderText := None |} |}.

Definition choiceValue (i l : string) : JS.Value :=
  JS.Object [("id", JS.Str i); ("label", JS.Str l)].

Definition ruleValue (a b : string) (x y : JS.number) : JS.Value :=
  JS.Object
    [("condition", JS.Object [("player1", JS.Str a); ("player2", JS.Str b)]);
     ("outcome", JS.Object [("player1", JS.Number x); ("player2", JS.Number y)])].

Definition rpsRuleValues : list JS.Value :=
  [ruleValue "rock" "rock" 0 0; ruleValue "rock" "paper" (-1) 1;
   ruleValue "rock" "scissors" 1 (-1);
   ruleValue "paper" "rock" 1 (-1); ruleValue "paper" "paper" 0 0;
   ruleValue "paper" "scissors" (-1) 1;
   ruleValue "scissors" "rock" (-1) 1; ruleValue "scissors" "paper" 1 (-1);
   ruleValue "scissors" "scissors" 0 0].

(** The rock-paper-scissors document with the given rules and number of
    rounds. *)
Definition rpsDocumentWith (rules : list JS.Value) (rounds : Z) : JS.Value :=
  JS.Object
    [("metadata",
      JS.Object
        [("id", JS.Str "rock-paper-scissors");
         ("name", JS.Str "Rock Paper Scissors");
         ("description", JS.Str "Best of three");
         ("version", JS.Str "1.0.0")]);
     ("choices",
      JS.Array
        [choiceValue "rock" "Rock"; choiceValue "paper" "Paper";
         choiceValue "scissors" "Scissors"]);
     ("payoffRules", JS.Array rules);
     ("progression",
      JS.Object
        [("totalRounds", JS.Number rounds); ("startingPlayer", JS.Number 1);
         ("alternateStarter", JS.Bool true);
         ("showRunningTotal", JS.Bool true)]);
     ("ui",
      JS.Object
        [("showPayoffMatrix", JS.Bool true);
         ("showChoiceDescriptions", JS.Bool false)])].

Definition rpsDocument : JS.Value := rpsDocumentWith rpsRuleValues 3.

(** Rock-paper-scissors with a prize beyond counting: rock beating
    scissors scores [Infinity], as [.inf] in a YAML file does. *)
Definition jackpotConfig : Types.GameConfig :=
  {| Types.metadata := rpsConfig.(Types.metadata);
     Types.choices := rpsConfig.(Types.choices);
     Types.payoffRules :=
       [rpsRule "rock" "rock" 0 0; rpsRule "rock" "paper" (-1) 1;
        rpsRule "rock" "scissors" JS.PositiveInfinity (-1);
        rpsRule "paper" "rock" 1 (-1); rpsRule "paper" "paper" 0 0;
        rpsRule "paper" "scissors" (-1) 1;
        rpsRule "scissors" "rock" (-1) 1; rpsRule "scissors" "paper" 1 (-1);
        rpsRule "scissors" "scissors" 0 0];
     Types.progression := rpsConfig.(Types.progression);
     Types.ui := rpsConfig.(Types.ui) |}.

Definition jackpotDocument : JS.Value :=
  rpsDocumentWith
    [ruleValue "rock" "rock" 0 0; ruleValue "rock" "paper" (-1) 1;
     ruleValue "rock" "scissors" JS.PositiveInfinity (-1);
     ruleValue "paper" "rock" 1 (-1); ruleValue "paper" "paper" 0 0;
     ruleValue "paper" "scissors" (-1) 1;
     ruleValue "scissors" "rock" (-1) 1; ruleValue "scissors" "paper" 1 (-1);
     ruleValue "scissors" "scissors" 0 0]
    3.

(** A payoff table with an unknown choice id, a repeated combination and
    the wrong size. *)
Definition flawedRuleValues : list JS.Value :=
  ruleValue "rock" "lizard" 0 0 :: ruleValue "rock" "rock" 5 5
    :: rpsRuleValues.

(** A document that has the shape of a configuration and nothing in it:
    five members of the right kind, all of them empty arrays. *)
Definition hollowDocument : JS.Value :=
  JS.Object
    [("metadata", JS.Array []); ("choices", JS.Array []);
     ("payoffRules", JS.Array []); ("progression", JS.Array []);
     ("ui", JS.Array [])].

(** Three rounds of rock-paper-scissors played through the handlers, both
    players choosing in each round. *)
Definition finishedGame : App.Component :=
  played rpsConfig "game"
    [App.MakeChoice Types.P1 "rock"; App.MakeChoice Types.P2 "paper";
     App.MakeChoice Types.P1 "paper"; App.MakeChoice Types.P2 "paper";
     App.MakeChoice Types.P1 "scissors"; App.MakeChoice Types.P2 "paper"].

(** ** Snapshots *)

Definition exampleSnapshot : Snapshot.t :=
  {| Snapshot.gameId := "0b0e7a54-4b1c-4f0a-9d2e-7c1f3a5b9e10";
     Snapshot.currentRound := 2;
     Snapshot.player1Choice := Some "paper";
     Snapshot.player2Choice := None;
     Snapshot.player1Total := 1;
     Snapshot.player2Total := -1;
     Snapshot.rounds :=
       [{| App.round_player1Choice := "rock";
           App.round_player2Choice := "scissors";
           App.player1Score := 1; App.player2Score := -1 |}] |}.

(** The first round of the jackpot game played through the handlers,
    rock against scissors, and the snapshot of its state. *)
Definition jackpotGame : App.Component :=
  played jackpotConfig "game"
    [App.MakeChoice Types.P1 "rock"; App.MakeChoice Types.P2 "scissors"].

Definition jackpotSnapshot : Snapshot.t :=
  {| Snapshot.gameId := "game";
     Snapshot.currentRound := 2;
     Snapshot.player1Choice := None;
     Snapshot.player2Choice := None;
     Snapshot.player1Total := JS.PositiveInfinity;
     Snapshot.player2Total := -1;
     Snapshot.rounds :=
       [{| App.round_player1Choice := "rock";
           App.round_player2Choice := "scissors";
           App.player1Score := JS.PositiveInfinity;
           App.player2Score := -1 |}] |}.

Definition historyRoundValue (a b : string) (x y : Z) : JS.Value :=
  JS.Object
    [("player1Choice", JS.Str a); ("player2Choice", JS.Str b);
     ("player1Score", JS.Number x); ("player2Score", JS.Number y)].

(** A three-round game after its last round, in the shape of the generated
    schema, with the given [currentRound]. *)
Definition snapshotAtRound (round : Z) : JS.Value :=
  JS.Object
    [("gameId", JS.Str "0b0e7a54-4b1c-4f0a-9d2e-7c1f3a5b9e10");
     ("gameType", JS.Str "rock-paper-scissors");
     ("gameVersion", JS.Str "1.0.0");
     ("player1Id", JS.Str "5f1c2d3e-6a7b-4c8d-9e0f-1a2b3c4d5e6f");
     ("player1Name", JS.Str "Ann");
     ("currentRound", JS.Number round);
     ("totalRounds", JS.Number 3);
     ("roundHistory",
      JS.Array
        [historyRoundValue "rock" "scissors" 1 (-1);
         historyRoundValue "paper" "paper" 0 0;
         historyRoundValue "scissors" "rock" (-1) 1]);
     ("currentStarter", JS.Number 1);
     ("player1Total", JS.Number 0);
     ("player2Total", JS.Number 0);
     ("createdAt", JS.Str "2024-05-01T10:00:00.000Z");
     ("updatedAt", JS.Str "2024-05-01T10:30:00.000Z")].

(** Parsing with the generated schema, the identifier and timestamp tests
    accepting everything. *)
Definition parseSnapshot (config : Types.GameConfig) (data : JS.Value)
  : Exn.Completion SchemaGenerator.GameState :=
  do schema <-
    SchemaGenerator.generateGameStateSchema (fun _ => true) (fun _ => true)
      config;
  Zod.parse schema data.

(** ** Stand-ins for the libraries

    Small functions with the contracts the properties assume: 32 bytes for
    an HMAC, a text format for values through stdpp's encoding of trees, a
    one-character "compression" header, a cipher that prepends its salt,
    and the identity for base64. *)

(** A stand-in for HMAC-SHA256: 32 bytes that depend on the lengths of
    the message and the key. *)
Definition exampleMac (message key : string) : list Byte.byte :=
  repeat
    (default Byte.x00
       (Byte.of_N
          (N.of_nat (String.length message + String.length key) mod 256)))
    32.

Module ExampleLibraries.
Import Exn.

Definition Tree : Type := gen_tree (Z + string).

Definition boolTag (b : bool) : nat := if b then 2%nat else 3%nat.

Fixpoint toTree (v : JS.Value) : Tree :=
  match v with
  | JS.Undefined => GenNode 0 []
  | JS.Null => GenNode 1 []
  | JS.Bool b => GenNode (boolTag b) []
  | JS.Number (JS.Finite n) => GenLeaf (inl n)
  | JS.Number JS.PositiveInfinity => GenNode 7 []
  | JS.Number JS.NegativeInfinity => GenNode 8 []
  | JS.Number JS.NaN => GenNode 9 []
  | JS.Str s => GenLeaf (inr s)
  | JS.Array elements => GenNode 4 (map toTree elements)
  | JS.Object properties =>
      GenNode 5
        (map (fun p => let '(k, x) := p in
                       GenNode 6 [GenLeaf (inr k); toTree x]) properties)
  end.

Fixpoint ofTree (t : Tree) : JS.Value :=
  match t with
  | GenLeaf (inl n) => JS.Number n
  | GenLeaf (inr s) => JS.Str s
  | GenNode 1 _ => JS.Null
  | GenNode 2 _ => JS.Bool true
  | GenNode 3 _ => JS.Bool false
  | GenNode 4 children => JS.Array (map ofTree children)
  | GenNode 5 children =>
      JS.Object
        (map (fun child =>
                match child with
                | GenNode _ [GenLeaf (inr k); x] => (k, ofTree x)
                | _ => (EmptyString, JS.Undefined)
                end) children)
  | GenNode 7 _ => JS.Number JS.PositiveInfinity
  | GenNode 8 _ => JS.Number JS.NegativeInfinity
  | GenNode 9 _ => JS.Number JS.NaN
  | GenNode _ _ => JS.Undefined
  end.

Fixpoint posToString (p : positive) : string :=
  match p with
  | xH => EmptyString
  | xO q => String "0" (posToString q)
  | xI q => String "1" (posToString q)
  end.

Fixpoint stringToPos (s : string) : positive :=
  match s with
  | EmptyString => xH
  | String c rest =>
      if Ascii.eqb c "1" then xI (stringToPos rest) else xO (stringToPos rest)
  end.

Definition stringify (v : JS.Value) : string :=
  String "J" (posToString (encode (toTree (Json.normalize v)))).

Definition parse (text : string) : Completion JS.Value :=
  match text with
  | String "J" rest =>
      match decode (stringToPos rest) with
      | Some t => Return (ofTree t)
      | None => Throw (NativeError "SyntaxError" "Unexpected token")
      end
  | _ => Throw (NativeError "SyntaxError" "Unexpected end of JSON input")
  end.

(** [parse] with its [SyntaxError] as [None]. *)
Definition tryParse (text : string) : option JS.Value :=
  match parse text with
  | Return v => Some v
  | Throw _ => None
  end.

(** A stand-in for SHA-256: the bytes of the stand-in for the HMAC under
    the empty key. *)
Definition digest (text : string) : list Byte.byte := exampleMac text "".

Definition compress (s : string) : string := String "Q" s.

Definition decompress (s : string) : option string :=
  match s with
  | String "Q" rest => Some rest
  | _ => None
  end.

Definition encrypt (salt : ascii) (message key : string) : string :=
  String salt message.

Definition decrypt (ciphertext key : string) : Completion string :=
  match ciphertext with
  | String _ message => Return message
  | EmptyString => Return EmptyString
  end.

Definition btoa (s : string) : string := s.

Definition atob (s : string) : Completion string := Return s.

End ExampleLibraries.

(** A codec for the URL hash that round-trips: the state is flattened to
    a tuple and written as the digits of its code. *)
Module ExampleCodec.
Import Exn.

Definition Flat : Type :=
  (string * Z * option string * option string * (Z + nat) * (Z + nat)
   * list (string * string * (Z + nat) * (Z + nat))
   * option nat * option bool * option Z)%type.

Definition numberTag (x : JS.number) : Z + nat :=
  match x with
  | JS.Finite n => inl n
  | JS.PositiveInfinity => inr 0%nat
  | JS.NegativeInfinity => inr 1%nat
  | JS.NaN => inr 2%nat
  end.

Definition tagNumber (t : Z + nat) : JS.number :=
  match t with
  | inl n => JS.Finite n
  | inr 0%nat => JS.PositiveInfinity
  | inr 1%nat => JS.NegativeInfinity
  | inr _ => JS.NaN
  end.

Definition flowTag (flow : AppFlow.FlowState) : nat :=
  match flow with
  | AppFlow.waiting_first => 0
  | AppFlow.waiting_second => 1
  | AppFlow.results_and_next => 2
  | AppFlow.complete => 3
  end%nat.

Definition tagFlow (n : nat) : AppFlow.FlowState :=
  match n with
  | 0 => AppFlow.waiting_first
  | 1 => AppFlow.waiting_second
  | 2 => AppFlow.results_and_next
  | _ => AppFlow.complete
  end%nat.

Definition playerTag (player : Types.PlayerNumber) : bool :=
  match player with Types.P1 => true | Types.P2 => false end.

Definition tagPlayer (b : bool) : Types.PlayerNumber :=
  if b then Types.P1 else Types.P2.

Definition flatten (d : AppFlow.Decoded) : Flat :=
  (d.(AppFlow.decoded_gameId), d.(AppFlow.decoded_currentRound),
   d.(AppFlow.decoded_player1Choice), d.(AppFlow.decoded_player2Choice),
   numberTag d.(AppFlow.decoded_player1Total),
   numberTag d.(AppFlow.decoded_player2Total),
   map (fun r => (r.(App.round_player1Choice), r.(App.round_player2Choice),
                  numberTag r.(App.player1Score),
                  numberTag r.(App.player2Score)))
     d.(AppFlow.decoded_rounds),
   option_map flowTag d.(AppFlow.decoded_flowState),
   option_map playerTag d.(AppFlow.decoded_whoWentFirst),
   d.(AppFlow.decoded_pendingResultsForRound)).

Definition unflatten (t : Flat) : AppFlow.Decoded :=
  let '(a, b, c, d, e, f, g, h, i, j) := t in
  {| AppFlow.decoded_gameId := a;
     AppFlow.decoded_currentRound := b;
     AppFlow.decoded_player1Choice := c;
     AppFlow.decoded_player2Choice := d;
     AppFlow.decoded_player1Total := tagNumber e;
     AppFlow.decoded_player2Total := tagNumber f;
     AppFlow.decoded_rounds :=
       map (fun r => let '(p1, p2, s1, s2) := r in
                     {| App.round_player1Choice := p1;
                        App.round_player2Choice := p2;
                        App.player1Score := tagNumber s1;
                        App.player2Score := tagNumber s2 |}) g;
     AppFlow.decoded_flowState := option_map tagFlow h;
     AppFlow.decoded_whoWentFirst := option_map tagPlayer i;
     AppFlow.decoded_pendingResultsForRound := j |}.

Definition encodeState (d : AppFlow.Decoded) : string :=
  String "s" (ExampleLibraries.posToString (encode (flatten d))).

Definition decodeState (s : string) : Completion AppFlow.Decoded :=
  match s with
  | String "s" rest =>
      match decode (ExampleLibraries.stringToPos rest) with
      | Some t => Return (unflatten t)
      | None => Throw (NativeError "SyntaxError" "Unexpected token")
      end
  | _ => Throw (NativeError "SyntaxError" "Unexpected end of JSON input")
  end.

End ExampleCodec.

(** The path of a first round between two browsers. *)
Definition firstRoundMoves : list Move :=
  [Press (AppFlow.StartNewGame "game");
   Press (AppFlow.MakeChoice Types.P1 "rock");
   OpenLink;
   Press (AppFlow.MakeChoice Types.P2 "paper")].

(** The component after the first round. *)
Definition afterFirstRound : AppFlow.Component :=
  Eval vm_compute in
    default mountedFlow
      (playMoves ExampleCodec.encodeState ExampleCodec.decodeState rpsConfig
         mountedFlow firstRoundMoves).

(** * Properties *)

#[local] Arguments String.append : simpl nomatch.

(** ** Turn engine *)

Section TurnEngineProperties.
Import Types TurnEngine.

Lemma truthy_choiceMade (choice : option string) :
  JS.truthy choice = true <-> choiceMade choice.
Proof.
  unfold choiceMade. destruct choice as [s|]; simpl.
  - rewrite negb_true_iff. split.
    + intros H. exists s. split; [reflexivity|].
      intros ->. discriminate.
    + intros (s' & [= <-] & Hne). now apply String.eqb_neq.
  - split; [discriminate|]. intros (s & [=] & _).
Qed.

Lemma not_truthy_choiceMade (choice : option string) :
  JS.truthy choice = false <-> ~ choiceMade choice.
Proof.
  rewrite <- truthy_choiceMade. destruct (JS.truthy choice); intuition congruence.
Qed.

Lemma remainder_odd (r : Z) :
  1 <= r -> (JS.remainder r 2 =? 1) = Z.odd r.
Proof.
  intros Hr. unfold JS.remainder.
  rewrite Z.rem_mod_nonneg by lia.
  rewrite Zodd_mod. reflexivity.
Qed.

(** C6. For every configuration and every round number [r >= 1]:
    without alternation the round starter is the configured starting
    player; with alternation it is the starting player on odd rounds and
    the opposite player on even rounds, so that a game started by player 1
    is opened by players 1, 2, 1, 2, ... in rounds 1, 2, 3, 4, ... *)
Theorem determineRoundStarter_alternation
    (config : GameConfig) (r : Z) :
  1 <= r ->
  (config.(progression).(alternateStarter) = false ->
   determineRoundStarter config r = config.(progression).(startingPlayer))
  /\ (config.(progression).(alternateStarter) = true -> Z.odd r = true ->
      determineRoundStarter config r = config.(progression).(startingPlayer))
  /\ (config.(progression).(alternateStarter) = true -> Z.even r = true ->
      determineRoundStarter config r
      = getOpponentPlayer config.(progression).(startingPlayer))
  /\ (config.(progression).(alternateStarter) = true ->
      config.(progression).(startingPlayer) = P1 ->
      forall k, 0 <= k ->
        determineRoundStarter config (2 * k + 1) = P1
        /\ determineRoundStarter config (2 * k + 2) = P2).
Proof.
  intros Hr. unfold determineRoundStarter, getOpponentPlayer.
  repeat split.
  - intros ->. reflexivity.
  - intros -> Hodd. simpl. rewrite remainder_odd, Hodd by assumption.
    reflexivity.
  - intros -> Heven. simpl. rewrite remainder_odd by assumption.
    rewrite <- Z.negb_even, Heven. reflexivity.
  - rewrite H, H0. simpl. rewrite remainder_odd by lia.
    replace (2 * k + 1) with (1 + 2 * k) by lia.
    rewrite Z.odd_add_mul_2. reflexivity.
  - rewrite H, H0. simpl. rewrite remainder_odd by lia.
    replace (2 * k + 2) with (0 + 2 * (k + 1)) by lia.
    rewrite Z.odd_add_mul_2. reflexivity.
Qed.

Lemma determineRoundStarter_alternation_witness :
  1 <= 4
  /\ determineRoundStarter rpsConfig 3 = P1
  /\ determineRoundStarter rpsConfig 4 = P2.
Proof.
  split; [lia|].
  exact (proj2 (proj2 (proj2
           (determineRoundStarter_alternation rpsConfig 4 ltac:(lia))))
           eq_refl eq_refl 1 ltac:(lia)).
Defined.

(** C5. [determineNextPlayer] follows [determineRoundStarter]: it answers
    the round's starter when no choice has been made, the responder when
    only the starter has chosen, and nothing when both have chosen. In a
    round started by player 2 where only [player2Choice] is there, the
    answer is player 1. *)
Theorem determineNextPlayer_follows_starter
    (config : GameConfig) (r : Z) (player1Choice player2Choice : option string) :
  let starter := determineRoundStarter config r in
  let responder := getOpponentPlayer starter in
  let choiceOf (p : PlayerNumber) :=
    match p with P1 => player1Choice | P2 => player2Choice end in
  let next := determineNextPlayer config r player1Choice player2Choice in
  (~ choiceMade player1Choice -> ~ choiceMade player2Choice ->
   next = Some starter)
  /\ (choiceMade (choiceOf starter) -> ~ choiceMade (choiceOf responder) ->
      next = Some responder)
  /\ (choiceMade player1Choice -> choiceMade player2Choice -> next = None)
  /\ (starter = P2 -> ~ choiceMade player1Choice ->
      choiceMade player2Choice -> next = Some P1).
Proof.
  cbv zeta. unfold determineNextPlayer, getOpponentPlayer.
  repeat rewrite <- not_truthy_choiceMade.
  repeat rewrite <- truthy_choiceMade.
  destruct (determineRoundStarter config r);
    destruct (JS.truthy player1Choice), (JS.truthy player2Choice);
    simpl; repeat split; congruence.
Qed.

(** C10. The two views of "round complete" differ on the empty string:
    [determineNextPlayer] answers nothing exactly when both arguments are
    non-empty strings, [isRoundComplete] answers true exactly when both
    are defined; with [player1Choice = ""] and any non-empty
    [player2Choice] the round is reported complete while a next player is
    still named. *)
Theorem empty_choice_round_views_disagree
    (config : GameConfig) (r : Z) (player1Choice player2Choice : option string) :
  (determineNextPlayer config r player1Choice player2Choice = None
   <-> choiceMade player1Choice /\ choiceMade player2Choice)
  /\ (isRoundComplete player1Choice player2Choice = true
      <-> player1Choice <> None /\ player2Choice <> None)
  /\ (forall choiceId, choiceId <> "" ->
        isRoundComplete (Some "") (Some choiceId) = true
        /\ determineNextPlayer config r (Some "") (Some choiceId) <> None).
Proof.
  repeat split.
  - revert H. rewrite <- truthy_choiceMade. unfold determineNextPlayer.
    destruct (determineRoundStarter config r);
      destruct (JS.truthy player1Choice), (JS.truthy player2Choice);
      simpl; congruence.
  - revert H. rewrite <- truthy_choiceMade. unfold determineNextPlayer.
    destruct (determineRoundStarter config r);
      destruct (JS.truthy player1Choice), (JS.truthy player2Choice);
      simpl; congruence.
  - intros [H1 H2]. apply truthy_choiceMade in H1, H2.
    unfold determineNextPlayer.
    destruct (determineRoundStarter config r); rewrite H1, H2; reflexivity.
  - destruct player1Choice; [congruence | discriminate].
  - destruct player1Choice, player2Choice; simpl in H; congruence.
  - intros [H1 H2]. destruct player1Choice, player2Choice; simpl; congruence.
  - unfold determineNextPlayer. simpl.
    apply String.eqb_neq in H.
    destruct (determineRoundStarter config r); simpl; rewrite ?H; simpl;
      congruence.
Qed.

End TurnEngineProperties.

(** ** The running totals of the application *)

Section RunningTotals.
Import Types Exn App.

Lemma add_zero_l (a : JS.number) : JS.add 0 a = a.
Proof. now destruct a. Qed.

Lemma add_zero_r (a : JS.number) : JS.add a 0 = a.
Proof. destruct a; simpl; [f_equal; lia|reflexivity..]. Qed.

Lemma add_assoc (a b c : JS.number) :
  JS.add a (JS.add b c) = JS.add (JS.add a b) c.
Proof. destruct a, b, c; simpl; try reflexivity. f_equal. lia. Qed.

Lemma sumScores_push (score : Round -> JS.number) (history : list Round)
    (x : Round) :
  sumScores score (history ++ [x]) = JS.add (sumScores score history) (score x).
Proof.
  unfold sumScores.
  induction history as [|y history IH]; cbn [app map fold_right].
  - now rewrite add_zero_l, add_zero_r.
  - now rewrite IH, add_assoc.
Qed.

Lemma startNewGame_fresh (config : GameConfig) (uuid : string) (c : Component) :
  exists s,
    (startNewGame (Some config) uuid c).(gameState) = Some s
    /\ (startNewGame (Some config) uuid c).(arrays) !! s.(rounds) = Some []
    /\ s.(player1Total) = 0 /\ s.(player2Total) = 0
    /\ s.(currentRound) = 1
    /\ s.(player1Choice) = None /\ s.(player2Choice) = None.
Proof.
  simpl. eexists. split; [reflexivity|]. simpl.
  rewrite lookup_insert_eq. repeat split; reflexivity.
Qed.

Lemma startNewGame_totals (config : GameConfig) (uuid : string) (c : Component) :
  totalsMatchHistory (startNewGame (Some config) uuid c).
Proof.
  destruct (startNewGame_fresh config uuid c)
    as (s & Hs & Harr & H1 & H2 & _).
  exists s, []. rewrite H1, H2. repeat split; assumption.
Qed.

Lemma makeChoice_totals (config : GameConfig) (playerNum : PlayerNumber)
    (choiceId : string) (c c' : Component) :
  totalsMatchHistory c ->
  makeChoice (Some config) playerNum choiceId c = Return c' ->
  totalsMatchHistory c'.
Proof.
  intros (s & history & Hs & Harr & H1 & H2). unfold makeChoice.
  rewrite Hs.
  set (newState := match playerNum with P1 => _ | P2 => _ end).
  assert (Hrounds : newState.(rounds) = s.(rounds))
    by (subst newState; destruct playerNum; reflexivity).
  assert (Ht1 : newState.(player1Total) = s.(player1Total))
    by (subst newState; destruct playerNum; reflexivity).
  assert (Ht2 : newState.(player2Total) = s.(player2Total))
    by (subst newState; destruct playerNum; reflexivity).
  clearbody newState.
  destruct (JS.truthy newState.(player1Choice)
            && JS.truthy newState.(player2Choice)).
  - match goal with
    | |- context [PayoffEngine.calculatePayoff ?g ?a ?b] =>
        destruct (PayoffEngine.calculatePayoff g a b) as [payoff|e]
    end; simpl; [|discriminate].
    intros [= <-]. eexists. eexists. simpl. split; [reflexivity|]. simpl.
    unfold push. rewrite Hrounds, lookup_alter_eq, Harr. simpl.
    split; [reflexivity|].
    rewrite !sumScores_push, Ht1, Ht2, H1, H2. simpl. split; reflexivity.
  - intros [= <-]. exists newState, history. simpl.
    rewrite Hrounds, Ht1, Ht2. repeat split; assumption.
Qed.

Lemma step_totals (config : GameConfig) (c : Component) (a : Action) :
  totalsMatchHistory c -> totalsMatchHistory (step (Some config) c a).
Proof.
  intros Hc. destruct a as [uuid|playerNum choiceId]; cbn [step].
  - apply startNewGame_totals.
  - destruct (makeChoice (Some config) playerNum choiceId c) as [c'|e] eqn:E.
    + eapply makeChoice_totals; eassumption.
    + assumption.
Qed.


End RunningTotals.

(** ** Strings: [lastIndexOf] and [substring] *)

Section StringFacts.

Lemma string_length_app (a b : string) :
  String.length (a ++ b) = (String.length a + String.length b)%nat.
Proof. induction a as [|c a IH]; simpl; [reflexivity | now rewrite IH]. Qed.

Lemma lastIndexOf_lower (s : string) (c : ascii) : -1 <= JS.lastIndexOf s c.
Proof.
  induction s as [|d s IH]; simpl; [lia|].
  destruct (JS.lastIndexOf s c =? -1) eqn:E.
  - destruct (Ascii.eqb d c); lia.
  - lia.
Qed.

(** The last occurrence splits the string, and what follows it has no
    occurrence. *)
Lemma lastIndexOf_split (s : string) (c : ascii) :
  JS.lastIndexOf s c <> -1 ->
  exists pre post,
    s = pre ++ String c post
    /\ JS.lastIndexOf s c = Z.of_nat (String.length pre)
    /\ JS.lastIndexOf post c = -1.
Proof.
  induction s as [|d s IH]; simpl; [congruence|].
  destruct (JS.lastIndexOf s c =? -1) eqn:E.
  - apply Z.eqb_eq in E. destruct (Ascii.eqb d c) eqn:Edc; [|congruence].
    apply Ascii.eqb_eq in Edc. subst d. intros _.
    exists "", s. repeat split; assumption.
  - apply Z.eqb_neq in E. intros _.
    destruct (IH E) as (pre & post & -> & Hi & Hpost).
    exists (String d pre), post. simpl. repeat split; [lia | assumption].
Qed.

(** Conversely, a separator followed by a separator-free suffix is the last
    occurrence. *)
Lemma lastIndexOf_app (pre post : string) (c : ascii) :
  JS.lastIndexOf post c = -1 ->
  JS.lastIndexOf (pre ++ String c post) c = Z.of_nat (String.length pre).
Proof.
  intros Hpost. induction pre as [|d pre IH]; simpl.
  - rewrite Hpost. simpl. now rewrite Ascii.eqb_refl.
  - rewrite IH. destruct (Z.of_nat (String.length pre) =? -1) eqn:E.
    + apply Z.eqb_eq in E. lia.
    + lia.
Qed.

Lemma substring_prefix (pre rest : string) :
  String.substring 0 (String.length pre) (pre ++ rest) = pre.
Proof. induction pre as [|d pre IH]; simpl; [now destruct rest | now rewrite IH]. Qed.

Lemma substring_all (s : string) :
  String.substring 0 (String.length s) s = s.
Proof. induction s as [|d s IH]; simpl; [reflexivity | now rewrite IH]. Qed.

Lemma substring_suffix (pre post : string) :
  String.substring (String.length pre) (String.length post) (pre ++ post)
  = post.
Proof.
  induction pre as [|d pre IH]; simpl; [apply substring_all | exact IH].
Qed.

(** The two substrings taken by [decodeSignedData] around a separator. *)
Lemma substring_before (pre post : string) (c : ascii) :
  JS.substring (pre ++ String c post) 0 (Z.of_nat (String.length pre)) = pre.
Proof.
  unfold JS.substring, JS.clamp, JS.length.
  rewrite string_length_app. simpl String.length.
  replace (Z.min _ _) with 0 by lia.
  replace (Z.max _ _ - 0) with (Z.of_nat (String.length pre)) by lia.
  rewrite Nat2Z.id. apply substring_prefix.
Qed.

Lemma substring_after (pre post : string) (c : ascii) :
  JS.substringFrom (pre ++ String c post) (Z.of_nat (String.length pre) + 1)
  = post.
Proof.
  unfold JS.substringFrom, JS.substring, JS.clamp, JS.length.
  rewrite string_length_app. simpl String.length.
  replace (Z.min (Z.max 0 _) (Z.max 0 _))
    with (Z.of_nat (String.length (pre ++ String c ""))).
  2: { rewrite string_length_app. simpl. lia. }
  replace (Z.max (Z.max 0 _) (Z.max 0 _) - _)
    with (Z.of_nat (String.length post)).
  2: { rewrite string_length_app. simpl. lia. }
  rewrite !Nat2Z.id.
  replace (pre ++ String c post) with ((pre ++ String c "") ++ post).
  - apply substring_suffix.
  - clear. induction pre as [|d pre IH]; simpl; [reflexivity | congruence].
Qed.

End StringFacts.

(** ** Hexadecimal signatures *)

Section HexFacts.
Import HmacManager.

Lemma hexValue_hexChar (n : N) : (n < 16)%N -> hexValue (hexChar n) = n.
Proof.
  intros Hn. destruct n as [|p]; [reflexivity|].
  do 4 (destruct p as [p|p|]; try reflexivity); lia.
Qed.

Lemma hexChar_not_dot (n : N) : Ascii.eqb (hexChar n) "." = false.
Proof.
  destruct n as [|p]; [reflexivity|].
  do 4 (destruct p as [p|p|]; try reflexivity); destruct p; reflexivity.
Qed.

Lemma hexStringify_length (bytes : list Byte.byte) :
  String.length (hexStringify bytes) = (2 * List.length bytes)%nat.
Proof. induction bytes as [|b bytes IH]; simpl; [reflexivity | rewrite IH; lia]. Qed.

Lemma hexStringify_no_dot (bytes : list Byte.byte) :
  JS.lastIndexOf (hexStringify bytes) "." = -1.
Proof.
  induction bytes as [|b bytes IH]; simpl; [reflexivity|].
  rewrite IH. simpl. now rewrite !hexChar_not_dot.
Qed.

Lemma byte_nibbles (a b : Byte.byte) :
  N.shiftr (Byte.to_N a) 4 = N.shiftr (Byte.to_N b) 4 ->
  N.land (Byte.to_N a) 15 = N.land (Byte.to_N b) 15 ->
  a = b.
Proof.
  intros Hhi Hlo.
  assert (E : Byte.to_N a = Byte.to_N b).
  { rewrite (N.div_mod (Byte.to_N a) 16), (N.div_mod (Byte.to_N b) 16) by lia.
    change 16%N with (2 ^ 4)%N.
    rewrite <- !N.shiftr_div_pow2.
    change 15%N with (N.ones 4) in Hlo. rewrite !N.land_ones in Hlo.
    now rewrite Hhi, Hlo. }
  apply (f_equal Byte.of_N) in E. rewrite !Byte.of_to_N in E.
  now injection E.
Qed.

Lemma hexStringify_inj (a b : list Byte.byte) :
  hexStringify a = hexStringify b -> a = b.
Proof.
  revert b. induction a as [|x a IH]; intros [|y b]; simpl;
    try discriminate; [reflexivity|].
  intros [= Hhi Hlo Hrest].
  assert (Bx := Byte.to_N_bounded x). assert (By := Byte.to_N_bounded y).
  f_equal; [|now apply IH].
  apply byte_nibbles.
  - apply (f_equal hexValue) in Hhi.
    rewrite !hexValue_hexChar in Hhi; [assumption| |];
      rewrite N.shiftr_div_pow2; apply N.Div0.div_lt_upper_bound;
      simpl; lia.
  - apply (f_equal hexValue) in Hlo.
    rewrite !hexValue_hexChar in Hlo; [assumption| |];
      change 15%N with (N.ones 4); rewrite N.land_ones;
      apply N.mod_lt; discriminate.
Qed.

End HexFacts.

(** ** Signature verification *)

Section HmacFacts.
Import Exn HmacManager.

Variable HmacSHA256 : string -> string -> list Byte.byte.

Lemma generateHMAC_returns (data : string) :
  generateHMAC HmacSHA256 data = Return (tagOf HmacSHA256 data).
Proof. reflexivity. Qed.

Lemma fold_lor_zero (f : nat -> Z) (l : list nat) (r0 : Z) :
  fold_left (fun result i => Z.lor result (f i)) l r0 = 0
  <-> r0 = 0 /\ Forall (fun i => f i = 0) l.
Proof.
  revert r0. induction l as [|i l IH]; intros r0; simpl.
  - split; [intros ->; split; [reflexivity | constructor] | tauto].
  - rewrite IH, Z.lor_eq_0_iff. split.
    + intros [[H0 Hi] Hl]. split; [assumption | now constructor].
    + intros [H0 Hl]. inversion_clear Hl. tauto.
Qed.

Lemma charCodeAt_head (c d : ascii) (s e : string) :
  JS.charCodeAt (String c s) 0 = JS.charCodeAt (String d e) 0 -> c = d.
Proof.
  unfold JS.charCodeAt. simpl. intros H. apply N2Z.inj in H.
  rewrite <- (ascii_N_embedding c), <- (ascii_N_embedding d). now rewrite H.
Qed.

Lemma charCodes_equal (s e : string) :
  String.length s = String.length e ->
  (forall i, (i < String.length s)%nat ->
     JS.charCodeAt s i = JS.charCodeAt e i) ->
  s = e.
Proof.
  revert e. induction s as [|c s IH]; intros [|d e]; simpl;
    try discriminate; [reflexivity|].
  intros [= Hlen] Hcodes. f_equal.
  - apply (charCodeAt_head c d s e), Hcodes. lia.
  - apply IH; [assumption|]. intros i Hi.
    apply (Hcodes (S i)). lia.
Qed.

(** The comparison loop ends at zero exactly on equal strings. *)
Lemma compareLoop_zero (signature expected : string) :
  String.length signature = String.length expected ->
  compareLoop signature expected = 0 <-> signature = expected.
Proof.
  intros Hlen. unfold compareLoop. rewrite fold_lor_zero. split.
  - intros [_ Hall]. apply charCodes_equal; [assumption|].
    intros i Hi. rewrite Forall_forall in Hall.
    apply Z.lxor_eq_0_iff, Hall, elem_of_seq. lia.
  - intros ->. split; [reflexivity|]. apply Forall_forall.
    intros i _. apply Z.lxor_nilpotent.
Qed.

Lemma verifyHMAC_decides (data signature : string) :
  verifyHMAC HmacSHA256 data signature
  = Return (bool_decide (signature = tagOf HmacSHA256 data)).
Proof.
  unfold verifyHMAC. rewrite generateHMAC_returns. simpl.
  unfold JS.length.
  destruct (Z.of_nat (String.length signature)
            =? Z.of_nat (String.length (tagOf HmacSHA256 data))) eqn:E; simpl.
  - apply Z.eqb_eq, Nat2Z.inj in E. f_equal.
    destruct (compareLoop signature (tagOf HmacSHA256 data) =? 0) eqn:E0.
    + apply Z.eqb_eq, compareLoop_zero in E0; [|assumption].
      now rewrite bool_decide_eq_true_2.
    + rewrite bool_decide_eq_false_2; [reflexivity|].
      intros Heq. apply Z.eqb_neq in E0. apply E0.
      now apply compareLoop_zero.
  - rewrite bool_decide_eq_false_2; [reflexivity|].
    intros ->. apply Z.eqb_neq in E. now apply E.
Qed.

Lemma verifySignedData_decides (signed : SignedData) :
  verifySignedData HmacSHA256 signed
  = if bool_decide (signed.(signature) = tagOf HmacSHA256 signed.(data)) then
      Return signed.(data)
    else
      Throw (HMACError
        "HMAC signature verification failed - data may have been tampered with").
Proof.
  unfold verifySignedData. rewrite verifyHMAC_decides. simpl.
  now destruct (bool_decide _).
Qed.

(** [decodeSignedData] on a string cut at its last separator. *)
Lemma decodeSignedData_at (payload tag : string) :
  JS.lastIndexOf tag "." = -1 ->
  decodeSignedData HmacSHA256 (payload ++ String "." tag)
  = if negb (JS.truthyString payload) || negb (JS.truthyString tag) then
      Throw (HMACError
        "Invalid signed data format - empty data or signature")
    else verifySignedData HmacSHA256 {| data := payload; signature := tag |}.
Proof.
  intros Htag. unfold decodeSignedData.
  rewrite (lastIndexOf_app payload tag "." Htag).
  destruct (Z.of_nat (String.length payload) =? -1) eqn:E;
    [apply Z.eqb_eq in E; lia|].
  now rewrite substring_before, substring_after.
Qed.

(** Whatever [decodeSignedData] returns was followed, in the token, by the
    separator and the signature recomputed for it. *)
Lemma decodeSignedData_returns (encoded data : string) :
  decodeSignedData HmacSHA256 encoded = Return data ->
  data <> "" /\ encoded = data ++ "." ++ tagOf HmacSHA256 data.
Proof.
  destruct (Z.eq_dec (JS.lastIndexOf encoded ".") (-1)) as [E|E].
  - unfold decodeSignedData. rewrite E. discriminate.
  - destruct (lastIndexOf_split encoded "." E)
      as (payload & tag & -> & _ & Htag).
    rewrite (decodeSignedData_at payload tag Htag).
    destruct (negb (JS.truthyString payload) || negb (JS.truthyString tag))
      eqn:Eempty; [discriminate|].
    rewrite verifySignedData_decides. simpl.
    destruct (bool_decide (tag = tagOf HmacSHA256 payload)) eqn:Etag; [|discriminate].
    apply bool_decide_eq_true_1 in Etag. intros [= <-]. split.
    + intros ->. discriminate.
    + now rewrite Etag.
Qed.

End HmacFacts.

(** ** Tampering with a token *)

Section StringFlips.

Lemma replaceAt_length (i : nat) (c : ascii) (s : string) :
  String.length (replaceAt i c s) = String.length s.
Proof.
  revert i. induction s as [|d s IH]; intros [|i]; simpl;
    try reflexivity. now rewrite IH.
Qed.

Lemma oneByteFlipped_length (s s' : string) :
  oneByteFlipped s s' -> String.length s' = String.length s.
Proof. intros (i & c & d & _ & _ & ->). apply replaceAt_length. Qed.

Lemma oneByteFlipped_differs (s s' : string) :
  oneByteFlipped s s' -> s' <> s.
Proof.
  intros (i & c & d & Hget & Hne & ->). revert i Hget.
  induction s as [|x s IH]; intros [|i]; simpl; try discriminate.
  - intros [= ->] [= E]. contradiction.
  - intros Hget [= E]. exact (IH i Hget E).
Qed.

Lemma oneByteFlipped_nonempty (s s' : string) :
  oneByteFlipped s s' -> s' <> "".
Proof.
  intros (i & c & d & Hget & _ & ->).
  destruct s as [|x s]; [discriminate|]. destruct i; discriminate.
Qed.

(** A byte that is not [c0], put into a string without [c0], brings no
    [c0] in. *)
Lemma replaceAt_absent (i : nat) (c c0 : ascii) (s : string) :
  Ascii.eqb c c0 = false -> JS.lastIndexOf s c0 = -1 ->
  JS.lastIndexOf (replaceAt i c s) c0 = -1.
Proof.
  intros Hc. revert i. induction s as [|x s IH]; intros i; [now destruct i|].
  simpl. pose proof (lastIndexOf_lower s c0) as Hlow.
  destruct (JS.lastIndexOf s c0 =? -1) eqn:E; [|lia].
  apply Z.eqb_eq in E. destruct (Ascii.eqb x c0) eqn:Ex; [discriminate|].
  intros _. destruct i as [|i]; simpl.
  - now rewrite E, Hc.
  - now rewrite (IH i E), Ex.
Qed.

(** The byte [c] put at index [i] of a string without [c] is the last
    [c] of the result: what follows it is the rest of the string. *)
Lemma replaceAt_split (i : nat) (c d : ascii) (s : string) :
  String.get i s = Some d -> JS.lastIndexOf s c = -1 ->
  exists pre post,
    replaceAt i c s = pre ++ String c post
    /\ (String.length pre = i)%nat
    /\ (i + 1 + String.length post = String.length s)%nat
    /\ JS.lastIndexOf post c = -1.
Proof.
  revert i. induction s as [|x s IH]; intros i; [now destruct i|].
  simpl JS.lastIndexOf. pose proof (lastIndexOf_lower s c) as Hlow.
  destruct (JS.lastIndexOf s c =? -1) eqn:E; [|lia].
  apply Z.eqb_eq in E. destruct i as [|i]; simpl String.get; intros Hget _.
  - exists "", s. repeat split; auto.
  - destruct (IH i Hget E) as (pre & post & Hsplit & Hpre & Hlen & Hpost).
    exists (String x pre), post. simpl. rewrite Hsplit, Hpre.
    repeat split; auto; lia.
Qed.

Lemma string_app_assoc (a b c : string) : (a ++ b) ++ c = a ++ (b ++ c).
Proof. induction a as [|x a IH]; simpl; [reflexivity | now rewrite IH]. Qed.

Lemma truthyString_false (s : string) : JS.truthyString s = false <-> s = "".
Proof.
  unfold JS.truthyString. rewrite negb_false_iff. apply String.eqb_eq.
Qed.

Lemma truthyString_true (s : string) : JS.truthyString s = true <-> s <> "".
Proof.
  unfold JS.truthyString. rewrite negb_true_iff. apply String.eqb_neq.
Qed.

End StringFlips.

Section TokenIntegrity.
Import Exn Lib HmacManager.

Variable HmacSHA256 : string -> string -> list Byte.byte.

(** An HMAC-SHA256 digest has 32 bytes. *)
Hypothesis digest_length :
  forall message key, List.length (HmacSHA256 message key) = 32%nat.

Lemma tagOf_length (data : string) : String.length (tagOf HmacSHA256 data) = 64%nat.
Proof. unfold tagOf. now rewrite hexStringify_length, digest_length. Qed.

Lemma tagOf_nonempty (data : string) : tagOf HmacSHA256 data <> "".
Proof.
  intros E. apply (f_equal String.length) in E.
  rewrite tagOf_length in E. discriminate.
Qed.

Lemma tagOf_no_dot (data : string) : JS.lastIndexOf (tagOf HmacSHA256 data) "." = -1.
Proof. apply hexStringify_no_dot. Qed.

(** A wrong signature is refused by the verification. *)
Lemma wrong_tag_rejected (payload tag : string) :
  JS.lastIndexOf tag "." = -1 -> payload <> "" -> tag <> "" ->
  tag <> tagOf HmacSHA256 payload ->
  decodeSignedData HmacSHA256 (payload ++ "." ++ tag)
  = Throw (HMACError
      "HMAC signature verification failed - data may have been tampered with").
Proof.
  intros Hdot Hp Ht Hne. simpl.
  rewrite (decodeSignedData_at HmacSHA256 payload tag Hdot).
  apply truthyString_true in Hp, Ht. rewrite Hp, Ht. simpl.
  rewrite verifySignedData_decides. simpl.
  now rewrite bool_decide_eq_false_2.
Qed.

(** One byte of the tag replaced. The token is refused by the
    verification, unless the new byte is the separator and stands last:
    then the signature part is empty and the format guard of
    [decodeSignedData] refuses the token before any signature is
    computed. *)
Lemma flipped_tag_rejected (payload : string) (i : nat) (c d : ascii) :
  payload <> "" ->
  String.get i (tagOf HmacSHA256 payload) = Some d -> c <> d ->
  decodeSignedData HmacSHA256
    (payload ++ "." ++ replaceAt i c (tagOf HmacSHA256 payload))
  = Throw (HMACError
      (if Ascii.eqb c "." && Nat.eqb i 63 then
         "Invalid signed data format - empty data or signature"
       else
         "HMAC signature verification failed - data may have been tampered with")).
Proof.
  intros Hp Hget Hne.
  destruct (Ascii.eqb c ".") eqn:Ec.
  - apply Ascii.eqb_eq in Ec. subst c.
    destruct (replaceAt_split i "." d _ Hget (tagOf_no_dot payload))
      as (pre & post & -> & Hpre & Hlen & Hpost).
    rewrite tagOf_length in Hlen.
    replace (payload ++ "." ++ pre ++ String "." post)
      with ((payload ++ "." ++ pre) ++ String "." post)
      by (now rewrite !string_app_assoc).
    rewrite (decodeSignedData_at HmacSHA256 _ post Hpost).
    assert (Hdata : JS.truthyString (payload ++ "." ++ pre) = true).
    { apply truthyString_true. destruct payload; [contradiction|discriminate]. }
    rewrite Hdata. simpl negb. simpl orb.
    destruct (Nat.eqb i 63) eqn:Ei.
    + apply Nat.eqb_eq in Ei. subst i.
      destruct post; [reflexivity | simpl in Hlen; lia].
    + apply Nat.eqb_neq in Ei.
      assert (Hpost' : JS.truthyString post = true).
      { apply truthyString_true. intros ->. simpl in Hlen. lia. }
      rewrite Hpost'. simpl.
      rewrite verifySignedData_decides. simpl.
      rewrite bool_decide_eq_false_2; [reflexivity|].
      intros Heq. apply (f_equal String.length) in Heq.
      rewrite tagOf_length in Heq. lia.
  - simpl. apply wrong_tag_rejected.
    + now apply replaceAt_absent; [|apply tagOf_no_dot].
    + exact Hp.
    + apply (oneByteFlipped_nonempty (tagOf HmacSHA256 payload)).
      now exists i, c, d.
    + apply oneByteFlipped_differs. now exists i, c, d.
Qed.

(** The check as [decodeSignedData] makes it, on the two substrings it
    takes from any string. *)
Lemma mismatching_signature_rejected (encoded : string) :
  let lastDotIndex := JS.lastIndexOf encoded "." in
  let data := JS.substring encoded 0 lastDotIndex in
  let signature := JS.substringFrom encoded (lastDotIndex + 1) in
  lastDotIndex <> -1 -> data <> "" -> signature <> "" ->
  signature <> tagOf HmacSHA256 data ->
  decodeSignedData HmacSHA256 encoded
  = Throw (HMACError
      "HMAC signature verification failed - data may have been tampered with").
Proof.
  cbv zeta. intros Hdot Hdata Hsig Hne. unfold decodeSignedData.
  apply Z.eqb_neq in Hdot. rewrite Hdot.
  apply truthyString_true in Hdata, Hsig. rewrite Hdata, Hsig. simpl.
  rewrite verifySignedData_decides. simpl.
  now rewrite bool_decide_eq_false_2.
Qed.


End TokenIntegrity.

(** ** Signing round trip *)

Lemma exampleMac_length (message key : string) :
  List.length (exampleMac message key) = 32%nat.
Proof. reflexivity. Qed.

Section SigningRoundTrip.
Import Exn HmacManager.

Variable HmacSHA256 : string -> string -> list Byte.byte.

Hypothesis digest_length :
  forall message key, List.length (HmacSHA256 message key) = 32%nat.

(** C9, as the code has it. For every non-empty string [d], also one that
    contains the separator, signing, encoding and decoding returns [d]. *)
Theorem signing_roundtrip_nonempty (d : string) :
  d <> "" -> signThenDecode HmacSHA256 d = Return d.
Proof.
  intros Hd. unfold signThenDecode, signData, encodeSignedData.
  rewrite generateHMAC_returns. simpl.
  rewrite decodeSignedData_at by apply hexStringify_no_dot.
  apply truthyString_true in Hd. rewrite Hd.
  assert (Ht : JS.truthyString (tagOf HmacSHA256 d) = true)
    by (apply truthyString_true, tagOf_nonempty, digest_length).
  rewrite Ht. simpl.
  rewrite verifySignedData_decides. simpl.
  now rewrite bool_decide_eq_true_2.
Qed.

End SigningRoundTrip.

Lemma signing_roundtrip_nonempty_witness :
  "v1.payload" <> ""
  /\ signThenDecode exampleMac "v1.payload" = Exn.Return "v1.payload".
Proof.
  split; [discriminate|].
  apply (signing_roundtrip_nonempty exampleMac exampleMac_length).
  discriminate.
Defined.

(** C9 as stated fails on the empty string: the token is the separator
    followed by the signature, and the decoder refuses an empty payload,
    whatever the HMAC function is. *)
Lemma signing_roundtrip_empty_fails :
  exists d : string,
    forall HmacSHA256 : string -> string -> list Byte.byte,
      signThenDecode HmacSHA256 d
      = Exn.Throw (Exn.HMACError
          "Invalid signed data format - empty data or signature")
      /\ signThenDecode HmacSHA256 d <> Exn.Return d.
Proof.
  exists "". intros HmacSHA256.
  assert (E : signThenDecode HmacSHA256 ""
              = Exn.Throw (Exn.HMACError
                  "Invalid signed data format - empty data or signature")).
  { unfold signThenDecode, HmacManager.signData,
      HmacManager.encodeSignedData.
    rewrite generateHMAC_returns. simpl.
    change (String "." (tagOf HmacSHA256 ""))
      with ("" ++ String "." (tagOf HmacSHA256 "")).
    rewrite decodeSignedData_at by apply hexStringify_no_dot.
    reflexivity. }
  split; [exact E | rewrite E; discriminate].
Qed.



(** ** The state codec *)

Section SnapshotFacts.
Import Snapshot.

Lemma readRound_roundValue (r : App.Round) :
  readRound (Json.normalize (roundValue r))
  = if finiteRound r then Some r else None.
Proof. destruct r as [a b [x| | |] [y| | |]]; reflexivity. Qed.

(** What JSON keeps of the rounds reads back when every score is finite,
    and does not read as rounds when one is not. *)
Lemma read_rounds (history : list App.Round) :
  mapM readRound
    (map (fun x => match x with
                   | JS.Undefined => JS.Null
                   | _ => Json.normalize x
                   end) (map roundValue history))
  = if forallb finiteRound history then Some history else None.
Proof.
  induction history as [|r history IH]; [reflexivity|].
  cbn [map forallb mapM]. rewrite IH.
  change (match roundValue r with
          | JS.Undefined => JS.Null
          | _ => Json.normalize (roundValue r)
          end) with (Json.normalize (roundValue r)).
  rewrite readRound_roundValue.
  destruct (finiteRound r), (forallb finiteRound history); reflexivity.
Qed.

Lemma distinctKeys_rounds (history : list App.Round) :
  forallb Json.distinctKeys (map roundValue history) = true.
Proof.
  induction history as [|r history IH]; [reflexivity|].
  cbn [map forallb]. rewrite IH, andb_true_r. reflexivity.
Qed.

(** The object of a snapshot is a value JSON represents. What JSON keeps
    of it reads back as the same snapshot, every member and the rounds in
    their order, when the numbers of the snapshot are finite; when one is
    not, [null] stands in its place and the object reads as no
    snapshot. *)
Lemma snapshot_survives_json (explicit : bool) (s : t) :
  Json.representable (toValue explicit s) = true
  /\ read (Json.normalize (toValue explicit s))
     = if finite s then Some s else None.
Proof.
  destruct s as [gid cr p1 p2 t1 t2 history]. split.
  - unfold Json.representable, toValue. cbn [Json.distinctKeys].
    apply andb_true_iff. split.
    + destruct explicit, p1, p2; reflexivity.
    + rewrite forallb_app. simpl. rewrite distinctKeys_rounds.
      destruct explicit, p1, p2; reflexivity.
  - unfold toValue, finite. cbn [currentRound player1Total player2Total rounds].
    destruct explicit, p1, p2, cr, t1, t2; simpl; rewrite ?read_rounds;
      try reflexivity; destruct (forallb finiteRound history); reflexivity.
Qed.

End SnapshotFacts.

Section CodecRoundTrip.
Import Exn Lib.

Variable JSON_stringify : JS.Value -> string.
Variable JSON_parse : string -> Completion JS.Value.
Variable compressToEncodedURIComponent : string -> string.
Variable decompressFromEncodedURIComponent : string -> option string.
Variable Salt : Type.
Variable AES_encrypt_toString : Salt -> string -> string -> string.
Variable AES_decrypt_toString : string -> string -> Completion string.
Variable btoa : string -> string.
Variable atob : string -> Completion string.

(** The contracts of the libraries. JSON: parsing the text of a
    representable value gives what JSON keeps of it, and the empty text is
    a syntax error. lz-string: decompression undoes compression and maps
    the empty string to [null]. crypto-js: decryption with the same
    passphrase undoes encryption, whatever the salt. Base64: [atob] undoes
    [btoa]. *)
Hypothesis JSON_roundtrip :
  forall v, Json.representable v = true ->
    JSON_parse (JSON_stringify v) = Return (Json.normalize v).
Hypothesis JSON_parse_empty : forall v, JSON_parse "" <> Return v.
Hypothesis LZString_roundtrip :
  forall s,
    decompressFromEncodedURIComponent (compressToEncodedURIComponent s)
    = Some s.
Hypothesis LZString_decompress_empty :
  decompressFromEncodedURIComponent "" = None.
Hypothesis AES_roundtrip :
  forall salt message key,
    AES_decrypt_toString (AES_encrypt_toString salt message key) key
    = Return message.
Hypothesis base64_roundtrip : forall s, atob (btoa s) = Return s.

Lemma JSON_stringify_nonempty (v : JS.Value) :
  Json.representable v = true -> JSON_stringify v <> "".
Proof.
  intros Hv E. apply (JSON_parse_empty (Json.normalize v)).
  rewrite <- E. now apply JSON_roundtrip.
Qed.

Lemma compress_nonempty (s : string) : compressToEncodedURIComponent s <> "".
Proof.
  intros E. pose proof (LZString_roundtrip s) as H.
  rewrite E, LZString_decompress_empty in H. discriminate.
Qed.

(** Decoding an encoded value returns what JSON keeps of it. *)
Lemma encryptThenDecrypt_returns (salt : Salt) (v : JS.Value) :
  Json.representable v = true ->
  outcome (encryptThenDecrypt JSON_stringify JSON_parse
         compressToEncodedURIComponent decompressFromEncodedURIComponent Salt
         AES_encrypt_toString AES_decrypt_toString btoa atob salt v) = Return (Json.normalize v).
Proof.
  intros Hv.
  unfold outcome, encryptThenDecrypt, Encryption.encryptGameState,
    Encryption.decryptGameState, tryCatchM, bindM, call, ret, throw.
  simpl. rewrite base64_roundtrip, AES_roundtrip.
  pose proof (compress_nonempty (JSON_stringify v)) as Hc.
  apply truthyString_true in Hc. rewrite Hc. simpl.
  rewrite LZString_roundtrip. simpl.
  pose proof (JSON_stringify_nonempty v Hv) as Hj.
  apply String.eqb_neq in Hj. rewrite Hj. simpl.
  now rewrite (JSON_roundtrip v Hv).
Qed.

(** C2. For every snapshot [s] whose numbers are finite, decoding the
    encoded snapshot returns, without throwing, an object that reads back
    as [s]: every member is the same, and the round history is the same
    list in the same order. For any snapshot the decoded object is what
    JSON keeps of it; a snapshot with a number that is not finite does not
    come back, since [null] stands for that number. *)
Theorem snapshot_roundtrip (salt : Salt) (explicit : bool) (s : Snapshot.t) :
  exists decoded,
    outcome (encryptThenDecrypt JSON_stringify JSON_parse
         compressToEncodedURIComponent decompressFromEncodedURIComponent Salt
         AES_encrypt_toString AES_decrypt_toString btoa atob salt (Snapshot.toValue explicit s))
    = Return decoded
    /\ decoded = Json.normalize (Snapshot.toValue explicit s)
    /\ (Snapshot.finite s = true -> Snapshot.read decoded = Some s)
    /\ (Snapshot.finite s = false -> Snapshot.read decoded = None).
Proof.
  destruct (snapshot_survives_json explicit s) as [Hrep Hread].
  exists (Json.normalize (Snapshot.toValue explicit s)).
  split; [now apply encryptThenDecrypt_returns|].
  split; [reflexivity|].
  rewrite Hread. split; intros ->; reflexivity.
Qed.

End CodecRoundTrip.

(** ** The stand-ins have the contracts of the libraries *)

Section ExampleLibrariesFacts.
Import Exn ExampleLibraries.

(** Induction over values, through the lists of arrays and objects. *)
Lemma Value_induction (P : JS.Value -> Prop) :
  P JS.Undefined -> P JS.Null -> (forall b, P (JS.Bool b)) ->
  (forall n, P (JS.Number n)) -> (forall s, P (JS.Str s)) ->
  (forall elements, Forall P elements -> P (JS.Array elements)) ->
  (forall properties,
      Forall (fun p => P (snd p)) properties -> P (JS.Object properties)) ->
  forall v, P v.
Proof.
  intros Hu Hn Hb Hz Hs Ha Ho.
  fix IH 1. intros [| |b|n|s|elements|properties].
  - exact Hu.
  - exact Hn.
  - apply Hb.
  - apply Hz.
  - apply Hs.
  - apply Ha. induction elements as [|x elements IHl];
      constructor; [apply IH | exact IHl].
  - apply Ho. induction properties as [|[k x] properties IHl];
      constructor; [apply IH | exact IHl].
Qed.

Lemma ofTree_toTree (v : JS.Value) : ofTree (toTree v) = v.
Proof.
  induction v as [| |b|n|s|elements IH|properties IH] using Value_induction;
    try reflexivity.
  - now destruct b.
  - now destruct n.
  - simpl. f_equal. induction IH as [|x elements Hx _ IHl]; simpl;
      [reflexivity | now rewrite Hx, IHl].
  - simpl. f_equal. induction IH as [|[k x] properties Hx _ IHl]; simpl;
      [reflexivity|]. simpl in Hx. now rewrite Hx, IHl.
Qed.

Lemma stringToPos_posToString (p : positive) :
  stringToPos (posToString p) = p.
Proof. induction p as [q IH|q IH|]; simpl; now rewrite ?IH. Qed.

Lemma example_JSON_roundtrip (v : JS.Value) :
  Json.representable v = true -> parse (stringify v) = Return (Json.normalize v).
Proof.
  intros _. unfold parse, stringify.
  now rewrite stringToPos_posToString, decode_encode, ofTree_toTree.
Qed.

Lemma example_JSON_parse_empty (v : JS.Value) : parse "" <> Return v.
Proof. discriminate. Qed.

(** What JSON keeps of a value is kept as it is. *)
Lemma normalize_idempotent (v : JS.Value) :
  Json.normalize (Json.normalize v) = Json.normalize v.
Proof.
  induction v as [| |b|n|s|elements IH|properties IH] using Value_induction;
    try reflexivity.
  - now destruct n.
  - simpl. f_equal. rewrite map_map.
    induction IH as [|x elements Hx _ IHl]; [reflexivity|].
    cbn [map]. rewrite IHl. f_equal.
    destruct x as [| |b|[n| | |]|s|l|ps]; try reflexivity; exact Hx.
  - simpl. f_equal.
    induction IH as [|[k x] properties Hx _ IHl]; [reflexivity|].
    cbn [flat_map]. rewrite flat_map_app, IHl. f_equal. simpl in Hx.
    destruct x as [| |b|[n| | |]|s|l|ps]; try reflexivity;
      cbn [flat_map app]; rewrite Hx; reflexivity.
Qed.

Lemma example_tryParse_roundtrip (v : JS.Value) :
  Json.representable v = true ->
  tryParse (stringify v) = Some (Json.normalize v).
Proof.
  intros Hv. unfold tryParse. now rewrite example_JSON_roundtrip.
Qed.

Lemma example_stringify_normalize (v : JS.Value) :
  stringify (Json.normalize v) = stringify v.
Proof. unfold stringify. now rewrite normalize_idempotent. Qed.

End ExampleLibrariesFacts.

Lemma snapshot_roundtrip_witness :
  Snapshot.finite exampleSnapshot = true
  /\ exists decoded,
       Lib.outcome
         (encryptThenDecrypt ExampleLibraries.stringify ExampleLibraries.parse
            ExampleLibraries.compress ExampleLibraries.decompress ascii
            ExampleLibraries.encrypt ExampleLibraries.decrypt
            ExampleLibraries.btoa ExampleLibraries.atob
            "s"%char (Snapshot.toValue true exampleSnapshot))
       = Exn.Return decoded
       /\ Snapshot.read decoded = Some exampleSnapshot.
Proof.
  split; [reflexivity|].
  destruct (snapshot_roundtrip ExampleLibraries.stringify
              ExampleLibraries.parse ExampleLibraries.compress
              ExampleLibraries.decompress ascii ExampleLibraries.encrypt
              ExampleLibraries.decrypt ExampleLibraries.btoa
              ExampleLibraries.atob example_JSON_roundtrip
              example_JSON_parse_empty ltac:(reflexivity) ltac:(reflexivity)
              ltac:(reflexivity) ltac:(reflexivity)
              "s"%char true exampleSnapshot)
    as (decoded & Hreturn & _ & Hfinite & _).
  exists decoded. split; [exact Hreturn|]. apply Hfinite. reflexivity.
Defined.

(** A snapshot the code produces and does not restore. The jackpot
    configuration loads; a round of rock against scissors leaves
    [Infinity] as the total of player 1; decoding the encoded snapshot of
    that state returns an object in which [null] stands for that total and
    for the score, and which reads as no snapshot. *)
Lemma infinite_total_not_restored :
  Loader.loadGameConfig (fun _ => true) jackpotDocument None
  = Exn.Return jackpotConfig
  /\ (exists state,
        jackpotGame.(App.gameState) = Some state
        /\ JS.Finite state.(App.currentRound)
           = jackpotSnapshot.(Snapshot.currentRound)
        /\ state.(App.player1Choice) = jackpotSnapshot.(Snapshot.player1Choice)
        /\ state.(App.player2Choice) = jackpotSnapshot.(Snapshot.player2Choice)
        /\ state.(App.player1Total) = JS.PositiveInfinity
        /\ state.(App.player1Total) = jackpotSnapshot.(Snapshot.player1Total)
        /\ state.(App.player2Total) = jackpotSnapshot.(Snapshot.player2Total)
        /\ jackpotGame.(App.arrays) !! state.(App.rounds)
           = Some jackpotSnapshot.(Snapshot.rounds))
  /\ exists decoded,
       Lib.outcome
         (encryptThenDecrypt ExampleLibraries.stringify ExampleLibraries.parse
            ExampleLibraries.compress ExampleLibraries.decompress ascii
            ExampleLibraries.encrypt ExampleLibraries.decrypt
            ExampleLibraries.btoa ExampleLibraries.atob
            "s"%char (Snapshot.toValue true jackpotSnapshot))
       = Exn.Return decoded
       /\ JS.member decoded "player1Total" = JS.Null
       /\ Snapshot.read decoded <> Some jackpotSnapshot.
Proof.
  split; [vm_compute; reflexivity|]. split.
  - eexists. split; [vm_compute; reflexivity|].
    repeat split; vm_compute; reflexivity.
  - eexists. split; [vm_compute; reflexivity|].
    split; [reflexivity | vm_compute; discriminate].
Qed.

(** ** Semantic validation of a configuration *)

Section SemanticValidation.
Import Types Exn Loader.

Lemma checkChoiceIds_errors (choiceIds : gset string)
    (rules : list PayoffRule) (errors : list string) :
  checkChoiceIds choiceIds rules errors
  = (errors ++ unknownChoiceErrors choiceIds rules)%list.
Proof.
  unfold checkChoiceIds, unknownChoiceErrors.
  revert errors. induction rules as [|rule rules IH]; intros errors; simpl.
  - now rewrite app_nil_r.
  - rewrite IH.
    destruct (bool_decide (rule.(condition_player1) ∈ choiceIds)),
      (bool_decide (rule.(condition_player2) ∈ choiceIds)); simpl;
      now rewrite <- ?app_assoc.
Qed.

Lemma checkDuplicates_errors (rules : list PayoffRule)
    (errors : list string) (seen : gset string) :
  fst (checkDuplicates rules errors seen)
  = (errors ++ duplicateErrors rules seen)%list.
Proof.
  unfold checkDuplicates.
  revert errors seen. induction rules as [|rule rules IH];
    intros errors seen; simpl.
  - now rewrite app_nil_r.
  - rewrite IH. destruct (bool_decide (combinationKey rule ∈ seen)); simpl;
      now rewrite <- ?app_assoc.
Qed.

Lemma throw_if_nonempty {A} (errors : list string)
    (thrown : list string -> Completion A) (returned : Completion A) :
  (if Z.of_nat (List.length errors) >? 0 then thrown errors else returned)
  = match errors with [] => returned | _ => thrown errors end.
Proof.
  destruct errors as [|e errors]; [reflexivity|].
  simpl List.length. rewrite Nat2Z.inj_succ.
  destruct (Z.succ _ >? 0) eqn:E; [reflexivity|].
  rewrite Z.gtb_ltb in E. apply Z.ltb_ge in E. lia.
Qed.

(** [validateGameConfigSemantics] throws exactly when one of the three
    classes has an error, and then with the errors of all three. *)
Lemma validateGameConfigSemantics_errors (config : GameConfig) :
  validateGameConfigSemantics config
  = match semanticErrors config with
    | [] => Return tt
    | errors =>
        Throw (ConfigValidationError "Game config semantic validation failed"
                 errors None)
    end.
Proof.
  unfold validateGameConfigSemantics, semanticErrors, coverageErrors.
  rewrite checkChoiceIds_errors. simpl.
  pose proof (checkDuplicates_errors config.(payoffRules)
                (unknownChoiceErrors (choiceIdsOf config) config.(payoffRules))
                ∅) as Hdup.
  fold (choiceIdsOf config).
  destruct (checkDuplicates _ _ _) as [errors seen]. simpl in Hdup.
  subst errors.
  rewrite (throw_if_nonempty _
             (fun errors =>
                Throw (ConfigValidationError
                         "Game config semantic validation failed" errors None))).
  destruct (_ =? _); simpl; rewrite <- ?app_assoc, ?app_nil_r;
    match goal with |- match ?l with _ => _ end = _ => now destruct l end.
Qed.

End SemanticValidation.

Section ErrorClasses.
Import Types Exn Loader.

Lemma unknownChoiceErrors_nil (choiceIds : gset string)
    (rules : list PayoffRule) :
  unknownChoiceErrors choiceIds rules = [] <-> Forall (knownIds choiceIds) rules.
Proof.
  unfold unknownChoiceErrors, knownIds.
  induction rules as [|rule rules IH]; simpl.
  - split; [constructor | reflexivity].
  - rewrite Forall_cons, <- IH. clear IH.
    destruct (bool_decide (rule.(condition_player1) ∈ choiceIds)) eqn:E1,
      (bool_decide (rule.(condition_player2) ∈ choiceIds)) eqn:E2; simpl;
      try apply bool_decide_eq_true_1 in E1;
      try apply bool_decide_eq_true_1 in E2;
      try apply bool_decide_eq_false_1 in E1;
      try apply bool_decide_eq_false_1 in E2;
      split; try discriminate; tauto.
Qed.

Lemma duplicateErrors_nil (rules : list PayoffRule) (seen : gset string) :
  duplicateErrors rules seen = []
  <-> NoDup (map combinationKey rules)
      /\ Forall (fun rule => combinationKey rule ∉ seen) rules.
Proof.
  revert seen. induction rules as [|rule rules IH]; intros seen; simpl.
  - split; [split; constructor | reflexivity].
  - rewrite NoDup_cons, Forall_cons.
    destruct (bool_decide (combinationKey rule ∈ seen)) eqn:E; simpl.
    + apply bool_decide_eq_true_1 in E. split; [discriminate | tauto].
    + apply bool_decide_eq_false_1 in E. rewrite IH. clear IH.
      rewrite !Forall_forall. split.
      * intros [Hnd Hall]. repeat split; try assumption.
        -- intros Hin. apply list_elem_of_fmap in Hin as (r & Hk & Hr).
           apply (Hall r Hr). rewrite <- Hk. set_solver.
        -- intros r Hr Hs. apply (Hall r Hr). set_solver.
      * intros [[Hnotin Hnd] [_ Hall]]. split; [assumption|].
        intros r Hr Hs. apply elem_of_union in Hs as [Hs|Hs].
        -- apply elem_of_singleton in Hs. apply Hnotin.
           rewrite <- Hs. apply list_elem_of_fmap. now exists r.
        -- exact (Hall r Hr Hs).
Qed.

(** Every rule with an unknown id has its message among the errors. *)
Lemma unknownChoiceErrors_complete (choiceIds : gset string)
    (rules : list PayoffRule) (rule : PayoffRule) :
  rule ∈ rules ->
  (rule.(condition_player1) ∉ choiceIds ->
   unknownChoiceMessage rule.(condition_player1)
     ∈ unknownChoiceErrors choiceIds rules)
  /\ (rule.(condition_player2) ∉ choiceIds ->
      unknownChoiceMessage rule.(condition_player2)
        ∈ unknownChoiceErrors choiceIds rules).
Proof.
  intros Hin. unfold unknownChoiceErrors.
  split; intros Hunknown; apply list_elem_of_In, in_flat_map;
    exists rule; (split; [now apply list_elem_of_In|]);
    apply list_elem_of_In, elem_of_app.
  - left. rewrite bool_decide_eq_false_2 by assumption. set_solver.
  - right. rewrite bool_decide_eq_false_2 by assumption. set_solver.
Qed.

Lemma duplicateErrors_seen (rules : list PayoffRule) (seen : gset string)
    (rule : PayoffRule) :
  rule ∈ rules -> combinationKey rule ∈ seen ->
  duplicateMessage (combinationKey rule) ∈ duplicateErrors rules seen.
Proof.
  revert seen. induction rules as [|r rules IH]; intros seen Hin Hseen.
  - inversion Hin.
  - simpl. apply elem_of_app. apply elem_of_cons in Hin as [->|Hin].
    + left. rewrite bool_decide_eq_true_2 by assumption. set_solver.
    + right. apply IH; [assumption | set_solver].
Qed.

(** Every rule that repeats the combination of an earlier rule has its
    message among the errors. *)
Lemma duplicateErrors_complete (rules : list PayoffRule) (seen : gset string)
    (i j : nat) (earlier later : PayoffRule) :
  rules !! i = Some earlier -> rules !! j = Some later -> (i < j)%nat ->
  combinationKey earlier = combinationKey later ->
  duplicateMessage (combinationKey later) ∈ duplicateErrors rules seen.
Proof.
  revert seen i j. induction rules as [|r rules IH];
    intros seen i j Hi Hj Hlt Hkey; [discriminate|].
  simpl. apply elem_of_app. right.
  destruct j as [|j]; [lia|]. simpl in Hj.
  destruct i as [|i]; simpl in Hi.
  - injection Hi as ->. apply duplicateErrors_seen.
    + eapply list_elem_of_lookup_2, Hj.
    + rewrite <- Hkey. set_solver.
  - apply (IH _ i j); try assumption. lia.
Qed.

End ErrorClasses.

(** ** Schemas and paths *)

Section SchemaPaths.
Import Types Exn Zod Loader.

Lemma getProperty_replace_other (key key' : string) (value : JS.Value)
    (props : list (string * JS.Value)) :
  key' <> key ->
  JS.getProperty (replaceProperty key value props) key'
  = JS.getProperty props key'.
Proof.
  intros Hne. induction props as [|[k x] props IH]; simpl; [reflexivity|].
  destruct (String.eqb k key) eqn:E; simpl; rewrite IH; [|reflexivity].
  apply String.eqb_eq in E. subst k.
  destruct (String.eqb key key') eqn:E'; [|reflexivity].
  apply String.eqb_eq in E'. congruence.
Qed.

Lemma getProperty_replace_found (key : string) (value : JS.Value)
    (props : list (string * JS.Value)) (elements : list JS.Value) :
  JS.getProperty props key = JS.Array elements ->
  JS.getProperty (replaceProperty key value props) key = value.
Proof.
  induction props as [|[k x] props IH]; simpl; [discriminate|].
  destruct (String.eqb k key) eqn:E; simpl; rewrite E; auto.
Qed.

Lemma stringCheckIssues_path (p p' : list PathSegment) (s : string)
    (check : StringCheck) :
  stringCheckIssues p s check = [] -> stringCheckIssues p' s check = [].
Proof.
  destruct check as [value message|test message|validation test]; simpl;
    match goal with |- context [if ?b then _ else _] => destruct b end;
    (reflexivity || discriminate).
Qed.

Lemma numberCheckIssues_path (p p' : list PathSegment) (n : JS.number)
    (check : NumberCheck) :
  numberCheckIssues p n check = [] -> numberCheckIssues p' n check = [].
Proof.
  destruct check as [|value message|value message]; simpl;
    try match goal with |- context [if ?b then _ else _] => destruct b end;
    (reflexivity || discriminate).
Qed.

Lemma flat_map_nil {A B} (f g : A -> list B) (l : list A) :
  (forall x, f x = [] -> g x = []) ->
  flat_map f l = [] -> flat_map g l = [].
Proof.
  intros Hfg. induction l as [|x l IH]; simpl; [reflexivity|].
  intros H. apply app_eq_nil in H as [Hx Hl].
  now rewrite (Hfg x Hx), (IH Hl).
Qed.

Lemma pathIndependent_zString (checks : list StringCheck) :
  pathIndependent (zString checks).
Proof.
  intros p p' v r. unfold zString.
  destruct v; try discriminate. intros [= Hissues <-].
  rewrite (flat_map_nil _ (stringCheckIssues p' s) _
             (stringCheckIssues_path p p' s) Hissues).
  reflexivity.
Qed.

Lemma pathIndependent_zNumber (checks : list NumberCheck) :
  pathIndependent (zNumber checks).
Proof.
  intros p p' v r. unfold zNumber.
  destruct v as [| | |n| | |]; try discriminate.
  destruct n; try discriminate; intros [= Hissues <-];
    rewrite (flat_map_nil _ (numberCheckIssues p' _) _
               (numberCheckIssues_path p p' _) Hissues);
    reflexivity.
Qed.

Lemma pathIndependent_integer (schema : Schema JS.number) :
  pathIndependent schema -> pathIndependent (integer schema).
Proof.
  intros Hschema p p' v r. unfold integer.
  destruct (schema p v) as [issues n] eqn:E. intros [= -> Hn].
  destruct n as [[n| | |]|]; try discriminate.
  rewrite (Hschema p p' v _ E). congruence.
Qed.

Lemma pathIndependent_zOptional {A} (inner : Schema A) :
  pathIndependent inner -> pathIndependent (zOptional inner).
Proof.
  intros Hinner p p' v r. unfold zOptional.
  destruct v; try (intros [= <-]; reflexivity);
    destruct (inner p _) as [issues a] eqn:E; intros [= -> Ha];
    destruct a as [a|]; try discriminate;
    rewrite (Hinner p p' _ a E); simpl in *; congruence.
Qed.

Lemma field_path {A} (schema : Schema A) (p p' : list PathSegment)
    (props : list (string * JS.Value)) (key : string) (a : A) :
  pathIndependent schema ->
  field schema p props key = ([], Some a) ->
  field schema p' props key = ([], Some a).
Proof. intros Hschema. unfold field. apply Hschema. Qed.

Create HintDb paths.
#[local] Hint Resolve pathIndependent_zString pathIndependent_zNumber
  pathIndependent_integer pathIndependent_zOptional : paths.

(** The fields read by an object schema, one equation each. *)
Ltac object_fields H :=
  repeat match type of H with
         | context [let '(_, _) := field ?s ?p ?props ?k in _] =>
             let i := fresh "i" in
             let r := fresh "r" in
             let F := fresh "F" in
             destruct (field s p props k) as [i r] eqn:F
         end.

(** From the acceptance of an object: no field raised an issue and every
    field has a value. *)
Ltac accepted_fields H :=
  object_fields H;
  let Hissues := fresh "Hissues" in
  let Hvalue := fresh "Hvalue" in
  injection H as Hissues Hvalue;
  repeat (apply app_eq_nil in Hissues as [? Hissues]); subst;
  repeat match type of Hvalue with
         | context [match ?x with _ => _ end] =>
             destruct x; try discriminate
         end.

(** The same fields read under another path. *)
Ltac same_fields :=
  repeat match goal with
         | F : field ?s ?p ?props ?k = ([], Some ?a)
           |- context [field ?s ?q ?props ?k] =>
             rewrite (field_path s p q props k a ltac:(auto with paths) F)
         end.

Lemma pathIndependent_ConditionSchema : pathIndependent ConditionSchema.
Proof.
  intros p p' v r H. unfold ConditionSchema in *.
  destruct v as [| | | | | |props]; try discriminate.
  accepted_fields H. same_fields. simpl. congruence.
Qed.

Lemma pathIndependent_OutcomeSchema : pathIndependent OutcomeSchema.
Proof.
  intros p p' v r H. unfold OutcomeSchema in *.
  destruct v as [| | | | | |props]; try discriminate.
  accepted_fields H. same_fields. simpl. congruence.
Qed.

#[local] Hint Resolve pathIndependent_ConditionSchema
  pathIndependent_OutcomeSchema : paths.

Lemma pathIndependent_PayoffRuleSchema : pathIndependent PayoffRuleSchema.
Proof.
  intros p p' v r H. unfold PayoffRuleSchema in *.
  destruct v as [| | | | | |props]; try discriminate.
  accepted_fields H. same_fields. simpl. congruence.
Qed.

Lemma parseElements_path {A} (element : Schema A)
    (path path' : list PathSegment) (elements : list JS.Value) :
  pathIndependent element ->
  forall (k k' : nat) (rs : list A),
    parseElements element path k elements = ([], Some rs) ->
    parseElements element path' k' elements = ([], Some rs).
Proof.
  intros Helement. induction elements as [|v elements IH];
    intros k k' rs; simpl; [auto|].
  destruct (element (path ++ [Index k])%list v) as [i1 r1] eqn:E1.
  destruct (parseElements element path (S k) elements) as [i2 r2] eqn:E2.
  intros [= Hissues Hvalue]. apply app_eq_nil in Hissues as [-> ->].
  destruct r1 as [a|], r2 as [l|]; try discriminate.
  rewrite (Helement _ (path' ++ [Index k'])%list _ _ E1).
  rewrite (IH _ (S k') _ E2). simpl. congruence.
Qed.

Lemma parseElements_length {A} (element : Schema A)
    (path : list PathSegment) (elements : list JS.Value) :
  forall (k : nat) (issues : list ZodIssue) (rs : list A),
    parseElements element path k elements = (issues, Some rs) ->
    List.length rs = List.length elements.
Proof.
  induction elements as [|v elements IH]; intros k issues rs; simpl.
  - now intros [= _ <-].
  - destruct (element (path ++ [Index k])%list v) as [i1 r1].
    destruct (parseElements element path (S k) elements) as [i2 r2] eqn:E2.
    destruct r1 as [a|], r2 as [l|]; try discriminate.
    intros [= _ <-]. simpl. f_equal. exact (IH _ _ _ E2).
Qed.

Lemma parseElements_delete {A} (element : Schema A)
    (path : list PathSegment) (elements : list JS.Value) :
  pathIndependent element ->
  forall (i k : nat) (rs : list A),
    parseElements element path k elements = ([], Some rs) ->
    parseElements element path k (delete i elements)
    = ([], Some (delete i rs)).
Proof.
  intros Helement. induction elements as [|v elements IH];
    intros i k rs; [destruct i; simpl; now intros [= <-]|].
  simpl parseElements at 1.
  destruct (element (path ++ [Index k])%list v) as [i1 r1] eqn:E1.
  destruct (parseElements element path (S k) elements) as [i2 r2] eqn:E2.
  intros [= Hissues Hvalue]. apply app_eq_nil in Hissues as [-> ->].
  destruct r1 as [a|], r2 as [l|]; try discriminate.
  injection Hvalue as <-. destruct i as [|i]; simpl.
  - exact (parseElements_path element path path elements Helement _ k _ E2).
  - rewrite E1.
    rewrite (parseElements_path element path path (delete i elements)
               Helement (S k) (S k) (delete i l) (IH i (S k) l E2)).
    reflexivity.
Qed.

(** An array accepted with a minimal length. *)
Lemma zArray_accepts {A} (element : Schema A) (value : Z)
    (message : option string) (path : list PathSegment) (v : JS.Value)
    (rs : list A) :
  zArray element (Some (value, message)) path v = ([], Some rs) ->
  exists elements,
    v = JS.Array elements
    /\ value <= Z.of_nat (List.length elements)
    /\ parseElements element path 0 elements = ([], Some rs).
Proof.
  unfold zArray. destruct v as [| | | | |elements|]; try discriminate.
  destruct (parseElements element path 0 elements) as [issues l] eqn:E.
  destruct (Z.of_nat (List.length elements) <? value) eqn:Emin;
    [discriminate|]. simpl.
  intros [= -> ->]. exists elements. apply Z.ltb_ge in Emin. auto.
Qed.

Lemma zArray_accepted {A} (element : Schema A) (value : Z)
    (message : option string) (path : list PathSegment)
    (elements : list JS.Value) (rs : list A) :
  value <= Z.of_nat (List.length elements) ->
  parseElements element path 0 elements = ([], Some rs) ->
  zArray element (Some (value, message)) path (JS.Array elements)
  = ([], Some rs).
Proof.
  intros Hmin Hparse. unfold zArray. rewrite Hparse.
  destruct (_ <? _) eqn:E; [apply Z.ltb_lt in E; lia | reflexivity].
Qed.

Lemma field_replace_other {A} (schema : Schema A) (p : list PathSegment)
    (props : list (string * JS.Value)) (key key' : string)
    (value : JS.Value) :
  key' <> key ->
  field schema p (replaceProperty key value props) key'
  = field schema p props key'.
Proof.
  intros Hne. unfold field. now rewrite getProperty_replace_other.
Qed.

Lemma parse_returns {A} (schema : Schema A) (data : JS.Value) (a : A) :
  parse schema data = Return a <-> schema [] data = ([], Some a).
Proof.
  unfold parse. destruct (schema [] data) as [[|issue issues] [r|]];
    split; intros H; try discriminate; congruence.
Qed.

(** A document accepted by the schema has at least two choices. *)
Lemma GameConfigSchema_choices (urlTest : string -> bool)
    (yamlData : JS.Value) (config : GameConfig) :
  GameConfigSchema urlTest [] yamlData = ([], Some config) ->
  (2 <= List.length config.(choices))%nat.
Proof.
  intros H. unfold GameConfigSchema in H.
  destruct yamlData as [| | | | | |props]; try discriminate.
  accepted_fields H. injection Hvalue as <-. simpl.
  match goal with
  | F : field (zArray ChoiceOptionSchema _) _ _ _ = _ |- _ =>
      unfold field in F;
      apply zArray_accepts in F as (elements & _ & Hmin & Hparse)
  end.
  apply parseElements_length in Hparse. lia.
Qed.

(** The document without its [i]-th payoff rule is accepted as the
    configuration without its [i]-th rule, while a rule is left. *)
Lemma GameConfigSchema_withoutRule (urlTest : string -> bool)
    (yamlData : JS.Value) (config : GameConfig) (i : nat) :
  GameConfigSchema urlTest [] yamlData = ([], Some config) ->
  (i < List.length config.(payoffRules))%nat ->
  (2 <= List.length config.(payoffRules))%nat ->
  GameConfigSchema urlTest [] (withoutRule i yamlData)
  = ([], Some (withPayoffRules config (delete i config.(payoffRules)))).
Proof.
  intros H Hi Hlen. unfold GameConfigSchema in H.
  destruct yamlData as [| | | | | |props]; try discriminate.
  accepted_fields H. injection Hvalue as <-. simpl in Hi, Hlen.
  match goal with
  | F : field (zArray PayoffRuleSchema _) _ _ _ = _ |- _ =>
      unfold field in F;
      apply zArray_accepts in F as (rules & Hrules & _ & Hparse)
  end.
  pose proof (parseElements_length _ _ _ _ _ _ Hparse) as Hsame.
  unfold withoutRule. rewrite Hrules. unfold GameConfigSchema.
  rewrite (field_replace_other _ _ _ _ "metadata") by discriminate.
  rewrite (field_replace_other _ _ _ _ "choices") by discriminate.
  rewrite (field_replace_other _ _ _ _ "progression") by discriminate.
  rewrite (field_replace_other _ _ _ _ "ui") by discriminate.
  repeat match goal with
         | F : field ?s ?p ?props ?k = _ |- context [field ?s ?p ?props ?k] =>
             rewrite F
         end.
  unfold field. rewrite (getProperty_replace_found _ _ _ _ Hrules).
  match type of Hparse with
  | _ = (_, Some ?rs) => rewrite (zArray_accepted _ _ _ _ _ (delete i rs))
  end.
  - reflexivity.
  - rewrite length_delete by (apply lookup_lt_is_Some; lia). lia.
  - apply parseElements_delete;
      [exact pathIndependent_PayoffRuleSchema | exact Hparse].
Qed.

End SchemaPaths.

(** ** The configuration validator *)

(** The example document is accepted, as the example configuration. *)
Example rpsDocument_loads (urlTest : string -> bool) :
  Loader.loadGameConfig urlTest rpsDocument (Some "rock-paper-scissors.yaml")
  = Exn.Return rpsConfig.
Proof. vm_compute. reflexivity. Qed.

Section ConfigValidator.
Import Types Exn Loader.

Lemma loadGameConfig_returns (urlTest : string -> bool) (yamlData : JS.Value)
    (configPath : option string) (config : GameConfig) :
  loadGameConfig urlTest yamlData configPath = Return config ->
  Zod.parse (GameConfigSchema urlTest) yamlData = Return config
  /\ validateGameConfigSemantics config = Return tt.
Proof.
  unfold loadGameConfig.
  destruct (Zod.parse (GameConfigSchema urlTest) yamlData) as [parsed|e];
    simpl.
  - destruct (validateGameConfigSemantics parsed) as [[]|e] eqn:E; simpl.
    + intros [= <-]. now split.
    + destruct e; discriminate.
  - destruct e; discriminate.
Qed.

Lemma validated_table_size (config : GameConfig) :
  validateGameConfigSemantics config = Return tt ->
  Z.of_nat (List.length config.(payoffRules))
  = Z.of_nat (List.length config.(choices))
    * Z.of_nat (List.length config.(choices)).
Proof.
  rewrite validateGameConfigSemantics_errors.
  destruct (semanticErrors config) as [|e errors] eqn:E; [|discriminate].
  intros _. unfold semanticErrors in E.
  apply app_eq_nil in E as [_ E]. apply app_eq_nil in E as [_ E].
  unfold coverageErrors in E.
  destruct (_ =? _) eqn:Esize; [|discriminate].
  now apply Z.eqb_eq in Esize.
Qed.

Lemma validated_classes (config : GameConfig) :
  validateGameConfigSemantics config = Return tt ->
  unknownChoiceErrors (choiceIdsOf config) config.(payoffRules) = []
  /\ duplicateErrors config.(payoffRules) ∅ = [].
Proof.
  rewrite validateGameConfigSemantics_errors.
  destruct (semanticErrors config) as [|e errors] eqn:E; [|discriminate].
  intros _. unfold semanticErrors in E.
  apply app_eq_nil in E as [E1 E]. apply app_eq_nil in E as [E2 _].
  now split.
Qed.

(** The semantic validation of an accepted configuration without its
    [i]-th rule. *)
Lemma table_without_rule_refused (config : GameConfig) (i : nat) :
  validateGameConfigSemantics config = Return tt ->
  (i < List.length config.(payoffRules))%nat ->
  let n := Z.of_nat (List.length config.(choices)) in
  validateGameConfigSemantics
    (withPayoffRules config (delete i config.(payoffRules)))
  = Throw (ConfigValidationError
             "Game config semantic validation failed"
             [coverageMessage (n * n) n (n * n - 1)] None).
Proof.
  intros Hvalid Hi n.
  pose proof (validated_table_size config Hvalid) as Hsize.
  destruct (validated_classes config Hvalid) as [Hknown Hdup].
  rewrite validateGameConfigSemantics_errors.
  unfold semanticErrors, coverageErrors, choiceIdsOf. simpl.
  fold (choiceIdsOf config).
  apply unknownChoiceErrors_nil in Hknown.
  apply duplicateErrors_nil in Hdup as [Hnd Hseen].
  assert (E1 : unknownChoiceErrors (choiceIdsOf config)
                 (delete i config.(payoffRules)) = []).
  { apply unknownChoiceErrors_nil. now apply Forall_delete. }
  assert (E2 : duplicateErrors (delete i config.(payoffRules)) ∅ = []).
  { apply duplicateErrors_nil. split.
    - eapply sublist_NoDup; [exact Hnd|].
      apply (fmap_sublist combinationKey), sublist_delete.
    - now apply Forall_delete. }
  rewrite E1, E2. simpl.
  assert (Hlen : Z.of_nat (List.length (delete i config.(payoffRules)))
                 = n * n - 1).
  { rewrite length_delete by (apply lookup_lt_is_Some; lia). subst n. lia. }
  rewrite Hlen. fold n.
  destruct (n * n - 1 =? n * n) eqn:E; [apply Z.eqb_eq in E; lia|].
  reflexivity.
Qed.

(** C3, as the code has it. A document is loaded only with a payoff table
    of exactly n * n entries for its n choices. Removing any one entry from
    the table of an accepted configuration makes the semantic validation
    throw a [ConfigValidationError] whose only error reports the expected
    and the found number of rules; and so does [loadGameConfig] on a loaded
    document without any one of its payoff rules. *)
Theorem payoff_table_size_enforced :
  (forall urlTest yamlData configPath config,
      loadGameConfig urlTest yamlData configPath = Return config ->
      Z.of_nat (List.length config.(payoffRules))
      = Z.of_nat (List.length config.(choices))
        * Z.of_nat (List.length config.(choices)))
  /\ (forall config (i : nat),
        validateGameConfigSemantics config = Return tt ->
        (i < List.length config.(payoffRules))%nat ->
        let n := Z.of_nat (List.length config.(choices)) in
        validateGameConfigSemantics
          (withPayoffRules config (delete i config.(payoffRules)))
        = Throw (ConfigValidationError
                   "Game config semantic validation failed"
                   [coverageMessage (n * n) n (n * n - 1)] None))
  /\ (forall urlTest yamlData configPath config (i : nat),
        loadGameConfig urlTest yamlData configPath = Return config ->
        (i < List.length config.(payoffRules))%nat ->
        let n := Z.of_nat (List.length config.(choices)) in
        loadGameConfig urlTest (withoutRule i yamlData) configPath
        = Throw (ConfigValidationError
                   "Game config semantic validation failed"
                   [coverageMessage (n * n) n (n * n - 1)] None)).
Proof.
  split; [|split].
  - intros urlTest yamlData configPath config Hload.
    apply loadGameConfig_returns in Hload as [_ Hvalid].
    now apply validated_table_size.
  - exact table_without_rule_refused.
  - intros urlTest yamlData configPath config i Hload Hi n.
    apply loadGameConfig_returns in Hload as [Hparse Hvalid].
    apply parse_returns in Hparse.
    pose proof (GameConfigSchema_choices _ _ _ Hparse) as Hchoices.
    pose proof (validated_table_size config Hvalid) as Hsize.
    assert (Hrules : (2 <= List.length config.(payoffRules))%nat) by nia.
    pose proof (GameConfigSchema_withoutRule _ _ _ i Hparse Hi Hrules)
      as Hwithout.
    apply parse_returns in Hwithout.
    unfold loadGameConfig. rewrite Hwithout. simpl.
    rewrite (table_without_rule_refused config i Hvalid Hi). reflexivity.
Qed.

End ConfigValidator.

(** C3 as stated fails on the error text. Rock-paper-scissors is accepted;
    without its rule for (rock, paper) it is refused, by the semantic
    validation and by [loadGameConfig] alike, with one error that counts
    the rules and names neither "rock" nor "paper". *)
Lemma missing_pair_not_named :
  Loader.validateGameConfigSemantics rpsConfig = Exn.Return tt
  /\ rpsConfig.(Types.payoffRules) !! 1%nat
     = Some (rpsRule "rock" "paper" (-1) 1)
  /\ (let errors :=
        ["Expected 9 payoff rules (3 × 3), but found 8. Every choice combination must have a payoff rule."] in
      Loader.validateGameConfigSemantics
        (withPayoffRules rpsConfig (delete 1%nat rpsConfig.(Types.payoffRules)))
      = Exn.Throw (Exn.ConfigValidationError
                     "Game config semantic validation failed" errors None)
      /\ (forall urlTest,
            Loader.loadGameConfig urlTest (withoutRule 1 rpsDocument)
              (Some "rock-paper-scissors.yaml")
            = Exn.Throw (Exn.ConfigValidationError
                           "Game config semantic validation failed" errors
                           None))
      /\ forallb
           (fun e => negb (mentions "rock" e) && negb (mentions "paper" e))
           errors = true).
Proof.
  split; [vm_compute; reflexivity|]. split; [reflexivity|].
  cbv zeta. split; [vm_compute; reflexivity|].
  split; [intros urlTest; vm_compute; reflexivity | vm_compute; reflexivity].
Qed.

Section ValidationReport.
Import Types Exn Loader.

(** C4, as the code has it. The report is complete within the stage that
    fails. When the schema raises issues, [loadGameConfig] throws a
    [ConfigValidationError] with the messages of all of them, and of nothing
    else: the semantic validation is not reached. When the schema raises
    none, [loadGameConfig] throws exactly when the semantic errors are not
    empty, with all of them; and these hold a message for every rule with
    an unknown choice id, for every rule that repeats an earlier
    combination, and for a table whose size is not the square of the
    number of choices. *)
Theorem validation_report_per_stage :
  (forall urlTest yamlData configPath issues parsed,
      GameConfigSchema urlTest [] yamlData = (issues, parsed) ->
      issues <> [] ->
      loadGameConfig urlTest yamlData configPath
      = Throw (ConfigValidationError
                 ("Config validation failed: " ++ orUnknown configPath)
                 (issueMessages issues) configPath))
  /\ (forall urlTest yamlData configPath config,
        GameConfigSchema urlTest [] yamlData = ([], Some config) ->
        loadGameConfig urlTest yamlData configPath
        = match semanticErrors config with
          | [] => Return config
          | errors =>
              Throw (ConfigValidationError
                       "Game config semantic validation failed" errors None)
          end)
  /\ (forall config,
        (forall rule, rule ∈ config.(payoffRules) ->
           (rule.(condition_player1) ∉ choiceIdsOf config ->
            unknownChoiceMessage rule.(condition_player1)
              ∈ semanticErrors config)
           /\ (rule.(condition_player2) ∉ choiceIdsOf config ->
               unknownChoiceMessage rule.(condition_player2)
                 ∈ semanticErrors config))
        /\ (forall (i j : nat) earlier later,
              config.(payoffRules) !! i = Some earlier ->
              config.(payoffRules) !! j = Some later -> (i < j)%nat ->
              combinationKey earlier = combinationKey later ->
              duplicateMessage (combinationKey later)
                ∈ semanticErrors config)
        /\ (let n := Z.of_nat (List.length config.(choices)) in
            let m := Z.of_nat (List.length config.(payoffRules)) in
            m <> n * n ->
            coverageMessage (n * n) n m ∈ semanticErrors config)).
Proof.
  split; [|split].
  - intros urlTest yamlData configPath issues parsed Hparse Hissues.
    unfold loadGameConfig, Zod.parse. rewrite Hparse.
    destruct issues as [|e issues]; [contradiction|]. reflexivity.
  - intros urlTest yamlData configPath config Hparse.
    unfold loadGameConfig, Zod.parse. rewrite Hparse. simpl.
    rewrite validateGameConfigSemantics_errors.
    now destruct (semanticErrors config).
  - intros config. unfold semanticErrors. split; [|split].
    + intros rule Hin.
      destruct (unknownChoiceErrors_complete (choiceIdsOf config)
                  config.(payoffRules) rule Hin) as [H1 H2].
      split; intros Hunknown; apply elem_of_app; left; auto.
    + intros i j earlier later Hi Hj Hlt Hkey.
      apply elem_of_app. right. apply elem_of_app. left.
      now apply (duplicateErrors_complete _ _ i j earlier later).
    + cbv zeta. intros Hsize.
      apply elem_of_app. right. apply elem_of_app. right.
      unfold coverageErrors.
      destruct (_ =? _) eqn:E; [apply Z.eqb_eq in E; contradiction|].
      apply list_elem_of_singleton. reflexivity.
Qed.

End ValidationReport.

(** C4 as stated fails when the first stage fails. This document has no
    rounds (a structural violation) and a payoff table with an unknown
    choice id, a repeated combination and the wrong size. The report holds
    the structural error alone; once the number of rounds is put right,
    the three semantic errors appear. *)
Lemma semantic_errors_hidden_by_structural_error :
  (forall urlTest,
      Loader.loadGameConfig urlTest (rpsDocumentWith flawedRuleValues 0)
        (Some "rps.yaml")
      = Exn.Throw (Exn.ConfigValidationError
                     "Config validation failed: rps.yaml"
                     ["progression.totalRounds: Must have at least 1 round"]
                     (Some "rps.yaml")))
  /\ (forall urlTest,
        Loader.loadGameConfig urlTest (rpsDocumentWith flawedRuleValues 3)
          (Some "rps.yaml")
        = Exn.Throw (Exn.ConfigValidationError
                       "Game config semantic validation failed"
                       [Loader.unknownChoiceMessage "lizard";
                        "Duplicate payoff rule for combination: rock:rock";
                        "Expected 9 payoff rules (3 × 3), but found 11. Every choice combination must have a payoff rule."]
                       None)).
Proof.
  split; intros urlTest; vm_compute; reflexivity.
Qed.

(** ** Round bounds of the generated game-state schema *)

Section RoundBounds.
Import Exn Zod SchemaGenerator.

Lemma currentRoundSchema_accepts (config : Types.GameConfig)
    (path : list PathSegment) (v : JS.Value) :
  fst (currentRoundSchema config path v) = []
  <-> exists n : Z,
        v = JS.Number n
        /\ 1 <= n <= config.(Types.progression).(Types.totalRounds).
Proof.
  unfold currentRoundSchema, integer, zNumber. split.
  - destruct v as [| |b|[n| | |]|s|l|ps]; simpl; try discriminate.
    destruct (n <? 1) eqn:E1; [discriminate|].
    destruct (_ <? n) eqn:E2; [discriminate|]. intros _.
    apply Z.ltb_ge in E1. apply Z.ltb_ge in E2.
    exists n. split; [reflexivity | lia].
  - intros (n & -> & Hlo & Hhi). simpl.
    destruct (n <? 1) eqn:E1; [apply Z.ltb_lt in E1; lia|].
    destruct (_ <? n) eqn:E2; [|reflexivity].
    apply Z.ltb_lt in E2. lia.
Qed.

Lemma currentRoundSchema_value (config : Types.GameConfig)
    (path : list PathSegment) (v : JS.Value) (n : Z) :
  snd (currentRoundSchema config path v) = Some n -> v = JS.Number n.
Proof.
  unfold currentRoundSchema, integer, zNumber.
  destruct v as [| |b|[m| | |]|s|l|ps]; simpl; try discriminate.
  now intros [= ->].
Qed.

End RoundBounds.

Section GeneratedSchema.
Import Exn Zod SchemaGenerator.

Variable uuidTest : string -> bool.
Variable datetimeTest : string -> bool.

(** A snapshot that passes the generated schema has its [currentRound]
    between 1 and [totalRounds]. *)
Lemma generated_schema_round_bounds (config : Types.GameConfig)
    (schema : Schema GameState) (data : JS.Value) (state : GameState) :
  generateGameStateSchema uuidTest datetimeTest config = Return schema ->
  parse schema data = Return state ->
  exists props,
    data = JS.Object props
    /\ JS.getProperty props "currentRound" = JS.Number state.(currentRound)
    /\ 1 <= state.(currentRound)
       <= config.(Types.progression).(Types.totalRounds).
Proof.
  unfold generateGameStateSchema.
  destruct (generateChoiceIdSchema config) as [choiceSchema|e];
    [|discriminate].
  destruct (generateRoundHistorySchema config) as [historySchema|e];
    [|discriminate].
  simpl. intros [= <-]. unfold parse.
  destruct data as [| | | | | |props];
    try (unfold invalidType; simpl; discriminate).
  match goal with
  | |- match ?x with _ => _ end = _ -> _ =>
      destruct x as [issues value] eqn:E
  end.
  destruct issues as [|e issues]; [|discriminate].
  destruct value as [st|]; [|discriminate].
  intros [= ->]. exists props. split; [reflexivity|].
  repeat match type of E with
         | context [let '(_, _) := ?x in _] =>
             let i := fresh "i" in
             let r := fresh "r" in
             let F := fresh "F" in
             destruct x as [i r] eqn:F
         end.
  injection E as Hissues Hvalue.
  match goal with
  | H : field (currentRoundSchema config) _ _ _ = (?i, ?r) |- _ =>
      rename H into Hround; rename i into iRound; rename r into rRound
  end.
  assert (HiRound : iRound = []).
  { repeat match goal with
           | H : (_ ++ _)%list = [] |- _ => apply app_eq_nil in H as [? H]
           end; assumption. }
  unfold field in Hround. simpl in Hround.
  pose proof (currentRoundSchema_accepts config [Key "currentRound"]
                (JS.getProperty props "currentRound")) as Hacc.
  rewrite Hround in Hacc. simpl in Hacc.
  apply Hacc in HiRound as (n & Hn & Hbounds).
  pose proof (currentRoundSchema_value config [Key "currentRound"]
                (JS.getProperty props "currentRound")) as Hval.
  rewrite Hround in Hval. simpl in Hval.
  repeat match type of Hvalue with
         | match ?r with Some _ => _ | None => None end = Some _ =>
             destruct r; [|discriminate]
         end.
  injection Hvalue as <-. simpl.
  specialize (Hval _ eq_refl). rewrite Hval in Hn. injection Hn as <-.
  now split.
Qed.

End GeneratedSchema.

Section RoundBoundsClaim.
Import Exn Zod SchemaGenerator.

(** C7, as the code has it. The round-bounds check of the generated
    game-state schema accepts exactly the integers from 1 up to and
    including [totalRounds]; the value [totalRounds + 1] raises the issue
    of the upper bound; and a snapshot that passes the whole schema has its
    [currentRound] between 1 and [totalRounds]. *)
Theorem currentRound_accepted_up_to_totalRounds :
  (forall config path v,
      fst (currentRoundSchema config path v) = []
      <-> exists n : Z,
            v = JS.Number n
            /\ 1 <= n <= config.(Types.progression).(Types.totalRounds))
  /\ (forall config path,
        0 <= config.(Types.progression).(Types.totalRounds) ->
        fst (currentRoundSchema config path
               (JS.Number (config.(Types.progression).(Types.totalRounds) + 1)))
        = [issue path
             ("Number must be less than or equal to "
                ++ pretty config.(Types.progression).(Types.totalRounds))])
  /\ (forall uuidTest datetimeTest config schema data state,
        generateGameStateSchema uuidTest datetimeTest config = Return schema ->
        parse schema data = Return state ->
        1 <= state.(currentRound)
          <= config.(Types.progression).(Types.totalRounds)).
Proof.
  split; [exact currentRoundSchema_accepts|]. split.
  - intros config path Htotal.
    unfold currentRoundSchema, integer, zNumber. simpl.
    destruct (_ <? 1) eqn:E1; [apply Z.ltb_lt in E1; lia|].
    destruct (_ <? _ + 1) eqn:E2; [reflexivity|].
    apply Z.ltb_ge in E2. lia.
  - intros uuidTest datetimeTest config schema data state Hschema Hparse.
    destruct (generated_schema_round_bounds uuidTest datetimeTest config
                schema data state Hschema Hparse) as (props & _ & _ & H).
    exact H.
Qed.

End RoundBoundsClaim.

(** C7 as stated fails at [totalRounds + 1]. With three rounds in total,
    round 3 passes the bounds check and round 4, the "finished" value of
    the data model, does not; the whole schema refuses the finished
    snapshot for this one reason and accepts the same snapshot in round
    3. *)
Lemma finished_round_rejected :
  SchemaGenerator.currentRoundSchema rpsConfig [Exn.Key "currentRound"]
    (JS.Number 3) = ([], Some 3)
  /\ SchemaGenerator.currentRoundSchema rpsConfig [Exn.Key "currentRound"]
       (JS.Number 4)
     = ([Zod.issue [Exn.Key "currentRound"]
           "Number must be less than or equal to 3"], Some 4)
  /\ parseSnapshot rpsConfig (snapshotAtRound 4)
     = Exn.Throw (Exn.ZodError
         [Zod.issue [Exn.Key "currentRound"]
            "Number must be less than or equal to 3"])
  /\ exists state, parseSnapshot rpsConfig (snapshotAtRound 3)
                   = Exn.Return state.
Proof.
  split; [vm_compute; reflexivity|]. split; [vm_compute; reflexivity|].
  split; [vm_compute; reflexivity|]. eexists. vm_compute. reflexivity.
Qed.

(** ** Turn engine: who may move, and what is displayed *)

Section TurnEngineMoves.
Import Types TurnEngine.

Lemma canPlayerMove_true (config : GameConfig) (r : Z) (player : PlayerNumber)
    (player1Choice player2Choice : option string) :
  canPlayerMove config r player player1Choice player2Choice = true
  <-> r <= config.(progression).(totalRounds)
      /\ choiceOf player player1Choice player2Choice = None
      /\ determineNextPlayer config r player1Choice player2Choice
         = Some player.
Proof.
  unfold canPlayerMove, choiceOf.
  destruct (r >? config.(progression).(totalRounds)) eqn:Er.
  - rewrite Z.gtb_ltb in Er. apply Z.ltb_lt in Er.
    split; [discriminate | intros [H _]; lia].
  - rewrite Z.gtb_ltb in Er. apply Z.ltb_ge in Er.
    case_bool_decide as Hnext; simpl.
    + destruct player, player1Choice, player2Choice; simpl;
        split; try discriminate; try (intros (_ & H & _); discriminate);
        intros; repeat split; auto.
    + destruct (isRoundComplete player1Choice player2Choice);
        (split; [discriminate | intros (_ & _ & H); contradiction]).
Qed.

(** X1. [canPlayerMove] answers true exactly when the round number does
    not exceed [totalRounds], the player's own choice is [undefined] and
    [determineNextPlayer] names the player; it never answers true for both
    players at once. *)
Theorem canPlayerMove_names_one_player (config : GameConfig) (r : Z)
    (player1Choice player2Choice : option string) :
  (forall player,
      canPlayerMove config r player player1Choice player2Choice = true
      <-> r <= config.(progression).(totalRounds)
          /\ choiceOf player player1Choice player2Choice = None
          /\ determineNextPlayer config r player1Choice player2Choice
             = Some player)
  /\ (canPlayerMove config r P1 player1Choice player2Choice = true ->
      canPlayerMove config r P2 player1Choice player2Choice = false).
Proof.
  split; [intros player; apply canPlayerMove_true|].
  intros H1. apply canPlayerMove_true in H1 as (_ & _ & Hnext).
  destruct (canPlayerMove config r P2 player1Choice player2Choice) eqn:H2;
    [|reflexivity].
  apply canPlayerMove_true in H2 as (_ & _ & Hnext'). congruence.
Qed.

(** X2. While the game is within its rounds and the round is open, a
    player can move, provided no choice is the empty string: the one player
    [determineNextPlayer] names, and no other. An empty string as the
    choice of the round's starter blocks both players. *)
Theorem canPlayerMove_progress (config : GameConfig) (r : Z)
    (player1Choice player2Choice : option string) :
  r <= config.(progression).(totalRounds) ->
  isRoundComplete player1Choice player2Choice = false ->
  (player1Choice <> Some "" -> player2Choice <> Some "" ->
   exists player,
     determineNextPlayer config r player1Choice player2Choice = Some player
     /\ canPlayerMove config r player player1Choice player2Choice = true
     /\ forall other,
          canPlayerMove config r other player1Choice player2Choice = true ->
          other = player)
  /\ (choiceOf (determineRoundStarter config r) player1Choice player2Choice
      = Some "" ->
      forall player,
        canPlayerMove config r player player1Choice player2Choice = false).
Proof.
  intros Hr Hopen. split.
  - intros H1 H2.
    assert (Hnext : exists player,
               determineNextPlayer config r player1Choice player2Choice
               = Some player
               /\ choiceOf player player1Choice player2Choice = None).
    { unfold determineNextPlayer, choiceOf.
      destruct (determineRoundStarter config r);
        destruct player1Choice as [a|], player2Choice as [b|];
        try discriminate; simpl;
        try (assert (Ha : String.eqb a "" = false)
               by (apply String.eqb_neq; congruence); rewrite Ha);
        try (assert (Hb : String.eqb b "" = false)
               by (apply String.eqb_neq; congruence); rewrite Hb);
        simpl; eauto. }
    destruct Hnext as (player & Hnext & Hown). exists player.
    split; [exact Hnext|]. split.
    + apply canPlayerMove_true. auto.
    + intros other Hother.
      apply canPlayerMove_true in Hother as (_ & _ & Hnext'). congruence.
  - intros Hempty player.
    destruct (canPlayerMove config r player player1Choice player2Choice)
      eqn:Hmove; [|reflexivity].
    apply canPlayerMove_true in Hmove as (_ & Hown & Hnext).
    revert Hempty Hown Hnext. unfold determineNextPlayer, choiceOf.
    destruct (determineRoundStarter config r), player;
      destruct player1Choice as [a|], player2Choice as [b|];
      try discriminate; simpl; intros [= ->]; simpl; congruence.
Qed.

Lemma canPlayerMove_progress_witness :
  exists player,
    determineNextPlayer rpsConfig 1 (Some "rock") None = Some player
    /\ canPlayerMove rpsConfig 1 player (Some "rock") None = true
    /\ forall other,
         canPlayerMove rpsConfig 1 other (Some "rock") None = true ->
         other = player.
Proof.
  refine (proj1 (canPlayerMove_progress rpsConfig 1 (Some "rock") None
                   _ eq_refl) _ _).
  - vm_compute. discriminate.
  - discriminate.
  - discriminate.
Defined.

(** X3. [getTurnDescription] says "Game complete" exactly in round
    [totalRounds] with both choices defined. Otherwise it says that the
    round is complete when both choices are non-empty strings, also in a
    round beyond [totalRounds]; that the starter goes first when no choice
    has been made; and whom it waits for in the other cases. The round
    number in these two texts is written as JavaScript writes a number:
    with all its digits up to [2^53] in magnitude. *)
Theorem getTurnDescription_cases (large : Z -> string) (config : GameConfig)
    (r : Z) (player1Choice player2Choice : option string) :
  let final :=
    r = config.(progression).(totalRounds)
    /\ player1Choice <> None /\ player2Choice <> None in
  let roundText :=
    if Z.abs r <=? 2 ^ 53 then pretty r else large r in
  (getTurnDescription large config r player1Choice player2Choice
   = "Game complete"
   <-> final)
  /\ (~ final -> choiceMade player1Choice -> choiceMade player2Choice ->
      getTurnDescription large config r player1Choice player2Choice
      = "Round complete - advancing to next round")
  /\ (~ final -> ~ choiceMade player1Choice -> ~ choiceMade player2Choice ->
      getTurnDescription large config r player1Choice player2Choice
      = "Round " ++ roundText ++ ": Player "
          ++ playerText (determineRoundStarter config r) ++ " goes first")
  /\ (~ final -> forall player,
        choiceMade player1Choice \/ choiceMade player2Choice ->
        determineNextPlayer config r player1Choice player2Choice
        = Some player ->
        getTurnDescription large config r player1Choice player2Choice
        = "Round " ++ roundText ++ ": Waiting for Player "
            ++ playerText player).
Proof.
  cbv zeta.
  assert (Hfinal :
            isGameComplete r config.(progression).(totalRounds)
              (isRoundComplete player1Choice player2Choice) = true
            <-> r = config.(progression).(totalRounds)
                /\ player1Choice <> None /\ player2Choice <> None).
  { unfold isGameComplete, isRoundComplete.
    rewrite andb_true_iff, Z.eqb_eq.
    destruct player1Choice, player2Choice; intuition congruence. }
  unfold getTurnDescription.
  destruct (isGameComplete r config.(progression).(totalRounds)
              (isRoundComplete player1Choice player2Choice)) eqn:E.
  - assert (H := proj1 Hfinal eq_refl).
    repeat split; try tauto; intros; tauto.
  - assert (H : ~ (r = config.(progression).(totalRounds)
                   /\ player1Choice <> None /\ player2Choice <> None))
      by (intros H; apply Hfinal in H; discriminate).
    split; [|split; [|split]].
    + split; [|tauto].
      destruct (determineNextPlayer config r player1Choice player2Choice);
        [destruct (_ && _)|]; simpl; discriminate.
    + intros _ H1 H2. apply truthy_choiceMade in H1, H2.
      unfold determineNextPlayer.
      destruct (determineRoundStarter config r); simpl;
        rewrite ?H1, ?H2; reflexivity.
    + intros _ H1 H2. apply not_truthy_choiceMade in H1, H2.
      unfold determineNextPlayer. rewrite H1, H2. simpl.
      rewrite bool_decide_eq_true_2 by reflexivity. reflexivity.
    + intros _ player Hmade ->.
      assert (Hnot : negb (JS.truthy player1Choice)
                     && negb (JS.truthy player2Choice) = false).
      { destruct Hmade as [Hm|Hm]; apply truthy_choiceMade in Hm;
          rewrite Hm; simpl; auto using andb_false_r. }
      rewrite <- andb_assoc, Hnot, andb_false_r. reflexivity.
Qed.

(** X4. [calculateNextRound] never moves backwards and never passes
    [totalRounds]; from round 1 it reaches round [min (1 + n) totalRounds]
    after [n] calls, so that a game of [totalRounds] rounds is in its last
    round after [totalRounds - 1] calls and stays there. *)
Theorem calculateNextRound_reaches_last_round (totalRounds : Z) (n : nat) :
  1 <= totalRounds ->
  (forall r, r <= calculateNextRound r totalRounds <= Z.max r totalRounds)
  /\ roundAfter totalRounds n = Z.min (1 + Z.of_nat n) totalRounds
  /\ (isGameComplete (roundAfter totalRounds n) totalRounds true = true
      <-> totalRounds - 1 <= Z.of_nat n).
Proof.
  intros Htotal.
  assert (Hiter : forall k,
             roundAfter totalRounds k = Z.min (1 + Z.of_nat k) totalRounds).
  { induction k as [|k IH].
    - simpl. lia.
    - change (roundAfter totalRounds (S k))
        with (calculateNextRound (roundAfter totalRounds k) totalRounds).
      rewrite IH. unfold calculateNextRound.
      destruct (_ >=? _) eqn:E.
      + apply Z.geb_le in E. lia.
      + rewrite Z.geb_leb in E. apply Z.leb_gt in E. lia. }
  split; [|split].
  - intros r. unfold calculateNextRound.
    destruct (_ >=? _) eqn:E.
    + lia.
    + rewrite Z.geb_leb in E. apply Z.leb_gt in E. lia.
  - apply Hiter.
  - rewrite Hiter. unfold isGameComplete.
    rewrite andb_true_r, Z.eqb_eq. lia.
Qed.

Lemma calculateNextRound_reaches_last_round_witness :
  roundAfter 3 1 = 2 /\ roundAfter 3 2 = 3 /\ roundAfter 3 5 = 3.
Proof.
  split; [|split].
  - exact (proj1 (proj2 (calculateNextRound_reaches_last_round 3 1
                           ltac:(lia)))).
  - exact (proj1 (proj2 (calculateNextRound_reaches_last_round 3 2
                           ltac:(lia)))).
  - exact (proj1 (proj2 (calculateNextRound_reaches_last_round 3 5
                           ltac:(lia)))).
Defined.

(** X5. A rematch reverses the roles: [determineRematchStarter] answers
    the other player, as [getOpponentPlayer] does, twice gives the player
    back, and a game configured with the rematch starter is opened in every
    round by the opponent of the player who opened that round before. *)
Theorem rematch_reverses_roles (config : GameConfig) (r : Z) :
  (forall player,
      determineRematchStarter player = getOpponentPlayer player
      /\ determineRematchStarter player <> player
      /\ determineRematchStarter (determineRematchStarter player) = player)
  /\ determineRoundStarter
       (withStartingPlayer config
          (determineRematchStarter config.(progression).(startingPlayer))) r
     = getOpponentPlayer (determineRoundStarter config r).
Proof.
  split.
  - intros []; repeat split; discriminate.
  - unfold determineRoundStarter, withStartingPlayer. simpl.
    destruct (negb config.(progression).(alternateStarter));
      [|destruct (JS.remainder r 2 =? 1)];
      destruct config.(progression).(startingPlayer); reflexivity.
Qed.

End TurnEngineMoves.

(** ** Payoff tables of validated configurations *)

Section PayoffTables.
Import Types Exn Loader PayoffEngine.

Lemma remove_dups_length_le (l : list string) :
  (List.length (remove_dups l) <= List.length l)%nat.
Proof.
  induction l as [|x l IH]; simpl; [lia|].
  destruct (decide_rel elem_of x l); simpl; lia.
Qed.

Lemma remove_dups_length_NoDup (l : list string) :
  List.length (remove_dups l) = List.length l -> NoDup l.
Proof.
  induction l as [|x l IH]; simpl; [constructor|].
  pose proof (remove_dups_length_le l).
  destruct (decide_rel elem_of x l) as [Hin|Hnotin]; simpl; [lia|].
  intros [= Hlen]. apply NoDup_cons. auto.
Qed.

Lemma NoDup_fmap_eq {A B} (f : A -> B) (l : list A) (x y : A) :
  NoDup (map f l) -> x ∈ l -> y ∈ l -> f x = f y -> x = y.
Proof.
  intros Hnd [i Hi]%list_elem_of_lookup [j Hj]%list_elem_of_lookup Hf.
  assert (Hij : i = j).
  { apply (NoDup_lookup (map f l) i j (f x) Hnd).
    - change (map f l) with (f <$> l). now rewrite list_lookup_fmap, Hi.
    - change (map f l) with (f <$> l). rewrite list_lookup_fmap, Hj, Hf.
      reflexivity. }
  subst j. congruence.
Qed.

Lemma conditions_NoDup (rules : list PayoffRule) :
  NoDup (map combinationKey rules) -> NoDup (map conditionOf rules).
Proof.
  intros Hnd.
  apply (NoDup_fmap_1 (fun p : string * string => fst p ++ ":" ++ snd p)).
  change (NoDup ((fun p : string * string => fst p ++ ":" ++ snd p)
                   <$> (conditionOf <$> rules))).
  rewrite <- list_fmap_compose. exact Hnd.
Qed.

(** The counting argument: a validated table is a duplicate-free list of
    [n * n] pairs over at most [n] ids. *)
Lemma validated_counting (config : GameConfig) :
  validateGameConfigSemantics config = Return tt ->
  NoDup (choiceIdList config)
  /\ NoDup (map conditionOf config.(payoffRules))
  /\ forall a b,
       a ∈ choiceIdList config -> b ∈ choiceIdList config ->
       (a, b) ∈ map conditionOf config.(payoffRules).
Proof.
  intros Hvalid.
  pose proof (validated_table_size config Hvalid) as Hsize.
  destruct (validated_classes config Hvalid) as [Hknown Hdup].
  apply unknownChoiceErrors_nil in Hknown.
  apply duplicateErrors_nil in Hdup as [Hkeys _].
  apply conditions_NoDup in Hkeys.
  set (ids := choiceIdList config) in *.
  set (D := remove_dups ids).
  set (L := map conditionOf config.(payoffRules)) in *.
  assert (Hsub : L ⊆+ list_prod D D).
  { apply NoDup_submseteq; [exact Hkeys|].
    intros [a b] Hin. apply list_elem_of_fmap in Hin as (rule & Heq & Hrule).
    injection Heq as -> ->.
    rewrite Forall_forall in Hknown. destruct (Hknown rule Hrule) as [H1 H2].
    unfold choiceIdsOf in H1, H2. apply elem_of_list_to_set in H1, H2.
    apply list_elem_of_In, in_prod_iff.
    split; apply list_elem_of_In, elem_of_remove_dups; assumption. }
  pose proof (submseteq_length _ _ Hsub) as Hle.
  rewrite length_prod in Hle.
  pose proof (remove_dups_length_le ids) as HD. fold D in HD.
  assert (HL : List.length L = (List.length ids * List.length ids)%nat).
  { subst L ids. unfold choiceIdList. rewrite !length_map. lia. }
  assert (HDn : List.length D = List.length ids) by nia.
  split; [now apply remove_dups_length_NoDup|]. split; [exact Hkeys|].
  intros a b Ha Hb.
  assert (Hperm : L ≡ₚ list_prod D D).
  { apply submseteq_length_Permutation; [exact Hsub|].
    rewrite length_prod. lia. }
  rewrite Hperm. apply list_elem_of_In, in_prod_iff.
  split; apply list_elem_of_In, elem_of_remove_dups; assumption.
Qed.

Lemma calculatePayoff_known (config : GameConfig) (a b : string) :
  a ∈ choiceIdList config -> b ∈ choiceIdList config ->
  calculatePayoff config a b
  = match
      List.find
        (fun rule =>
           String.eqb rule.(condition_player1) a
           && String.eqb rule.(condition_player2) b)
        config.(payoffRules)
    with
    | None =>
        Throw (PayoffCalculationError
                 ("No payoff rule found for combination: player1=" ++ dquote
                    ++ a ++ dquote ++ ", player2=" ++ dquote ++ b ++ dquote)
                 a b)
    | Some rule => Return (resultOf rule)
    end.
Proof.
  intros Ha Hb. unfold calculatePayoff.
  rewrite !bool_decide_eq_true_2
    by (apply elem_of_list_to_set; assumption).
  reflexivity.
Qed.

Lemma find_condition (rules : list PayoffRule) (a b : string) :
  match
    List.find
      (fun rule =>
         String.eqb rule.(condition_player1) a
         && String.eqb rule.(condition_player2) b) rules
  with
  | Some rule => rule ∈ rules /\ conditionOf rule = (a, b)
  | None => (a, b) ∉ map conditionOf rules
  end.
Proof.
  destruct (List.find _ rules) as [rule|] eqn:E.
  - apply find_some in E as [Hin Hcond].
    apply andb_true_iff in Hcond as [H1 H2].
    apply String.eqb_eq in H1, H2. split; [now apply list_elem_of_In|].
    unfold conditionOf. congruence.
  - intros Hin. apply list_elem_of_fmap in Hin as (rule & Heq & Hrule).
    apply list_elem_of_In in Hrule.
    pose proof (find_none _ _ E rule Hrule) as Hcond. simpl in Hcond.
    injection Heq as -> ->. now rewrite !String.eqb_refl in Hcond.
Qed.

Lemma validated_rule (config : GameConfig) (a b : string) :
  validateGameConfigSemantics config = Return tt ->
  a ∈ choiceIdList config -> b ∈ choiceIdList config ->
  exists rule,
    theRuleFor config a b rule
    /\ calculatePayoff config a b = Return (resultOf rule).
Proof.
  intros Hvalid Ha Hb.
  destruct (validated_counting config Hvalid) as (_ & Hnd & Hall).
  rewrite (calculatePayoff_known config a b Ha Hb).
  pose proof (find_condition config.(payoffRules) a b) as Hfind.
  destruct (List.find _ _) as [rule|].
  - destruct Hfind as [Hin Hcond]. exists rule. split; [|reflexivity].
    split; [exact Hin|]. split; [exact Hcond|].
    intros other Hother Hcond'.
    apply (NoDup_fmap_eq conditionOf config.(payoffRules)); congruence.
  - exfalso. apply Hfind, Hall; assumption.
Qed.

(** X6. A configuration that passes the semantic validation has pairwise
    distinct choice ids, although no check compares them: with a repeated
    id the table cannot hold [n * n] rules without a duplicate
    combination. *)
Theorem validated_choice_ids_distinct (config : GameConfig) :
  validateGameConfigSemantics config = Return tt ->
  NoDup (choiceIdList config).
Proof. intros Hvalid. apply (validated_counting config Hvalid). Qed.

(** X7. In a configuration that passes the semantic validation every pair
    of choice ids has exactly one payoff rule, and [calculatePayoff]
    returns for the pair, with the scores and the text of that rule. *)
Theorem validated_table_complete (config : GameConfig) (a b : string) :
  validateGameConfigSemantics config = Return tt ->
  a ∈ choiceIdList config -> b ∈ choiceIdList config ->
  exists rule,
    theRuleFor config a b rule
    /\ calculatePayoff config a b
       = Return {| player1Score := rule.(outcome_player1);
                   player2Score := rule.(outcome_player2);
                   result_outcomeText := rule.(outcomeText);
                   matchedRule := rule |}.
Proof. exact (validated_rule config a b). Qed.

End PayoffTables.

Lemma validated_choice_ids_distinct_witness : NoDup (choiceIdList rpsConfig).
Proof.
  apply validated_choice_ids_distinct. vm_compute. reflexivity.
Defined.

Lemma validated_table_complete_witness :
  exists rule,
    theRuleFor rpsConfig "paper" "rock" rule
    /\ PayoffEngine.calculatePayoff rpsConfig "paper" "rock"
       = Exn.Return
           {| PayoffEngine.player1Score := rule.(Types.outcome_player1);
              PayoffEngine.player2Score := rule.(Types.outcome_player2);
              PayoffEngine.result_outcomeText := rule.(Types.outcomeText);
              PayoffEngine.matchedRule := rule |}.
Proof.
  apply validated_table_complete.
  - vm_compute. reflexivity.
  - apply list_elem_of_In. simpl. auto.
  - apply list_elem_of_In. simpl. auto.
Defined.

(** ** The payoff matrix and the coverage check *)

Section PayoffViews.
Import Types Exn Loader PayoffEngine.

Lemma choice_id_known (config : GameConfig) (choice : ChoiceOption) :
  choice ∈ config.(choices) -> choice.(id) ∈ choiceIdList config.
Proof. intros Hin. apply list_elem_of_fmap. now exists choice. Qed.

Lemma calculatePayoff_returns (config : GameConfig) (a b : string) :
  a ∈ choiceIdList config -> b ∈ choiceIdList config ->
  (exists payoff, calculatePayoff config a b = Return payoff)
  <-> (a, b) ∈ map conditionOf config.(payoffRules).
Proof.
  intros Ha Hb. rewrite (calculatePayoff_known config a b Ha Hb).
  pose proof (find_condition config.(payoffRules) a b) as Hfind.
  destruct (List.find _ _) as [rule|].
  - destruct Hfind as [Hin Hcond]. split; [|eauto].
    intros _. apply list_elem_of_fmap. now exists rule.
  - split; [intros [payoff [=]] | contradiction].
Qed.

(** X8. [validatePayoffCoverage] answers true exactly when every pair of
    choice ids has a payoff rule, and it does for every configuration that
    passes the semantic validation. *)
Theorem validatePayoffCoverage_complete (config : GameConfig) :
  (validatePayoffCoverage config = true
   <-> forall a b,
         a ∈ choiceIdList config -> b ∈ choiceIdList config ->
         (a, b) ∈ map conditionOf config.(payoffRules))
  /\ (validateGameConfigSemantics config = Return tt ->
      validatePayoffCoverage config = true).
Proof.
  assert (Hiff : validatePayoffCoverage config = true
                 <-> forall a b,
                       a ∈ choiceIdList config -> b ∈ choiceIdList config ->
                       (a, b) ∈ map conditionOf config.(payoffRules)).
  { unfold validatePayoffCoverage. rewrite forallb_forall. split.
    - intros Hall a b Ha Hb.
      apply list_elem_of_fmap in Ha as (c1 & -> & H1).
      apply list_elem_of_fmap in Hb as (c2 & -> & H2).
      apply calculatePayoff_returns; try now apply choice_id_known.
      specialize (Hall c1 (proj1 (list_elem_of_In _ _) H1)).
      rewrite forallb_forall in Hall.
      specialize (Hall c2 (proj1 (list_elem_of_In _ _) H2)).
      destruct (calculatePayoff config c1.(id) c2.(id)) as [payoff|e];
        [eauto | discriminate].
    - intros Hall c1 H1. apply forallb_forall. intros c2 H2.
      apply list_elem_of_In in H1, H2.
      destruct (proj2 (calculatePayoff_returns config c1.(id) c2.(id)
                         (choice_id_known _ _ H1) (choice_id_known _ _ H2))
                  (Hall _ _ (choice_id_known _ _ H1)
                     (choice_id_known _ _ H2))) as [payoff ->].
      reflexivity. }
  split; [exact Hiff|].
  intros Hvalid. apply Hiff.
  apply (validated_counting config Hvalid).
Qed.

Lemma buildRow_cells (config : GameConfig) (p1Choice : ChoiceOption) :
  forall (l : list ChoiceOption) (init : list MatrixCell),
    fold_left
      (fun row p2Choice =>
         match calculatePayoff config p1Choice.(id) p2Choice.(id) with
         | Return payoff =>
             (row
                ++ [{| cell_player1Choice := p1Choice.(id);
                       cell_player2Choice := p2Choice.(id);
                       cell_player1Score := payoff.(player1Score);
                       cell_player2Score := payoff.(player2Score);
                       cell_outcomeText := payoff.(result_outcomeText) |}])%list
         | Throw _ =>
             (row
                ++ [{| cell_player1Choice := p1Choice.(id);
                       cell_player2Choice := p2Choice.(id);
                       cell_player1Score := 0;
                       cell_player2Score := 0;
                       cell_outcomeText := Some "Invalid combination" |}])%list
         end) l init
    = (init
         ++ map (fun p2Choice =>
                   match
                     calculatePayoff config p1Choice.(id) p2Choice.(id)
                   with
                   | Return payoff =>
                       {| cell_player1Choice := p1Choice.(id);
                          cell_player2Choice := p2Choice.(id);
                          cell_player1Score := payoff.(player1Score);
                          cell_player2Score := payoff.(player2Score);
                          cell_outcomeText := payoff.(result_outcomeText) |}
                   | Throw _ =>
                       {| cell_player1Choice := p1Choice.(id);
                          cell_player2Choice := p2Choice.(id);
                          cell_player1Score := 0;
                          cell_player2Score := 0;
                          cell_outcomeText := Some "Invalid combination" |}
                   end) l)%list.
Proof.
  induction l as [|p2Choice l IH]; intros init; simpl.
  - now rewrite app_nil_r.
  - destruct (calculatePayoff config p1Choice.(id) p2Choice.(id));
      rewrite IH, <- app_assoc; reflexivity.
Qed.

Lemma fold_left_push {A B} (f : A -> B) (l : list A) (init : list B) :
  fold_left (fun acc x => (acc ++ [f x])%list) l init = (init ++ map f l)%list.
Proof.
  revert init. induction l as [|x l IH]; intros init; simpl.
  - now rewrite app_nil_r.
  - rewrite IH, <- app_assoc. reflexivity.
Qed.

Lemma buildPayoffMatrix_lookup (config : GameConfig) (i j : nat)
    (p1Choice p2Choice : ChoiceOption) :
  config.(choices) !! i = Some p1Choice ->
  config.(choices) !! j = Some p2Choice ->
  exists row cell,
    buildPayoffMatrix config !! i = Some row
    /\ row !! j = Some cell
    /\ cell.(cell_player1Choice) = p1Choice.(id)
    /\ cell.(cell_player2Choice) = p2Choice.(id)
    /\ match calculatePayoff config p1Choice.(id) p2Choice.(id) with
       | Return payoff =>
           cell.(cell_player1Score) = payoff.(player1Score)
           /\ cell.(cell_player2Score) = payoff.(player2Score)
           /\ cell.(cell_outcomeText) = payoff.(result_outcomeText)
       | Throw _ =>
           cell.(cell_player1Score) = 0
           /\ cell.(cell_player2Score) = 0
           /\ cell.(cell_outcomeText) = Some "Invalid combination"
       end.
Proof.
  intros Hi Hj. unfold buildPayoffMatrix. rewrite fold_left_push. simpl.
  change (map (buildRow config) config.(choices))
    with (buildRow config <$> config.(choices)).
  rewrite list_lookup_fmap, Hi. simpl.
  eexists. eexists. split; [reflexivity|].
  unfold buildRow. rewrite buildRow_cells. simpl.
  match goal with
  | |- context [map ?f config.(choices)] =>
      change (map f config.(choices)) with (f <$> config.(choices))
  end.
  rewrite list_lookup_fmap, Hj. simpl. split; [reflexivity|].
  destruct (calculatePayoff config p1Choice.(id) p2Choice.(id));
    simpl; auto.
Qed.

(** X9. The payoff matrix of any configuration is square, one row and one
    column per choice in the order of the configuration; the cell of row
    [i] and column [j] carries the ids of choices [i] and [j], with the
    scores and the text [calculatePayoff] returns for them, or 0, 0 and
    "Invalid combination" when it throws. For a configuration that passes
    the semantic validation every cell shows the one rule of its pair. *)
Theorem buildPayoffMatrix_cells (config : GameConfig) :
  List.length (buildPayoffMatrix config) = List.length config.(choices)
  /\ (forall row,
        row ∈ buildPayoffMatrix config ->
        List.length row = List.length config.(choices))
  /\ (forall i j p1Choice p2Choice,
        config.(choices) !! i = Some p1Choice ->
        config.(choices) !! j = Some p2Choice ->
        exists row cell,
          buildPayoffMatrix config !! i = Some row
          /\ row !! j = Some cell
          /\ cell.(cell_player1Choice) = p1Choice.(id)
          /\ cell.(cell_player2Choice) = p2Choice.(id)
          /\ match calculatePayoff config p1Choice.(id) p2Choice.(id) with
             | Return payoff =>
                 cell.(cell_player1Score) = payoff.(player1Score)
                 /\ cell.(cell_player2Score) = payoff.(player2Score)
                 /\ cell.(cell_outcomeText) = payoff.(result_outcomeText)
             | Throw _ =>
                 cell.(cell_player1Score) = 0
                 /\ cell.(cell_player2Score) = 0
                 /\ cell.(cell_outcomeText) = Some "Invalid combination"
             end)
  /\ (validateGameConfigSemantics config = Return tt ->
      forall row cell,
        row ∈ buildPayoffMatrix config -> cell ∈ row ->
        exists rule,
          theRuleFor config cell.(cell_player1Choice)
            cell.(cell_player2Choice) rule
          /\ cellShows cell rule).
Proof.
  assert (Hlen : List.length (buildPayoffMatrix config)
                 = List.length config.(choices)).
  { unfold buildPayoffMatrix. rewrite fold_left_push. simpl.
    apply length_map. }
  assert (Hrows : forall row,
             row ∈ buildPayoffMatrix config ->
             exists p1Choice,
               p1Choice ∈ config.(choices)
               /\ row = buildRow config p1Choice).
  { intros row. unfold buildPayoffMatrix. rewrite fold_left_push. simpl.
    intros Hrow. apply list_elem_of_fmap in Hrow as (p1 & -> & H1). eauto. }
  split; [exact Hlen|]. split; [|split].
  - intros row Hrow. destruct (Hrows row Hrow) as (p1 & _ & ->).
    unfold buildRow. rewrite buildRow_cells. simpl. apply length_map.
  - apply buildPayoffMatrix_lookup.
  - intros Hvalid row cell Hrow Hcell.
    destruct (Hrows row Hrow) as (p1 & H1 & ->).
    unfold buildRow in Hcell. rewrite buildRow_cells in Hcell.
    simpl in Hcell. apply list_elem_of_fmap in Hcell as (p2 & -> & H2).
    destruct (validated_rule config p1.(id) p2.(id) Hvalid
                (choice_id_known _ _ H1) (choice_id_known _ _ H2))
      as (rule & Hrule & ->).
    exists rule. split; [exact Hrule|]. repeat split.
Qed.

Lemma getPayoffs_loop (config : GameConfig) (player1Choice : string) :
  forall (l : list ChoiceOption) (init : list ChoiceOutcome),
    fold_left
      (fun results choice =>
         match calculatePayoff config player1Choice choice.(id) with
         | Return payoff =>
             (results
                ++ [{| outcome_player2Choice := choice.(id);
                       outcome_player1Score := payoff.(player1Score);
                       outcome_player2Score := payoff.(player2Score);
                       outcome_outcomeText := payoff.(result_outcomeText) |}])%list
         | Throw _ => results
         end) l init
    = (init ++ omap (outcomeOf config player1Choice) l)%list.
Proof.
  induction l as [|choice l IH]; intros init; simpl.
  - now rewrite app_nil_r.
  - rewrite IH. unfold outcomeOf at 2.
    destruct (calculatePayoff config player1Choice choice.(id)); simpl;
      [rewrite <- app_assoc|]; reflexivity.
Qed.

Lemma getPayoffsForChoice_omap (config : GameConfig) (player1Choice : string) :
  getPayoffsForChoice config player1Choice
  = omap (outcomeOf config player1Choice) config.(choices).
Proof. unfold getPayoffsForChoice. now rewrite getPayoffs_loop. Qed.

(** X10. [getPayoffsForChoice] lists outcomes in the order of the
    choices, skipping those for which [calculatePayoff] throws: nothing at
    all for an id that is no choice of the configuration, and for a choice
    of a configuration that passes the semantic validation one entry per
    choice of player 2, each with the scores of the one rule of its
    pair. *)
Theorem getPayoffsForChoice_entries (config : GameConfig)
    (player1Choice : string) :
  sublist
    (map outcome_player2Choice (getPayoffsForChoice config player1Choice))
    (choiceIdList config)
  /\ (player1Choice ∉ choiceIdList config ->
      getPayoffsForChoice config player1Choice = [])
  /\ (validateGameConfigSemantics config = Return tt ->
      player1Choice ∈ choiceIdList config ->
      map outcome_player2Choice (getPayoffsForChoice config player1Choice)
      = choiceIdList config
      /\ forall entry,
           entry ∈ getPayoffsForChoice config player1Choice ->
           exists rule,
             theRuleFor config player1Choice
               entry.(outcome_player2Choice) rule
             /\ entry.(outcome_player1Score) = rule.(outcome_player1)
             /\ entry.(outcome_player2Score) = rule.(outcome_player2)
             /\ entry.(outcome_outcomeText) = rule.(outcomeText)).
Proof.
  rewrite getPayoffsForChoice_omap. unfold choiceIdList.
  split; [|split].
  - induction config.(choices) as [|choice l IH]; simpl; [constructor|].
    unfold outcomeOf at 1.
    destruct (calculatePayoff config player1Choice choice.(id)); simpl.
    + now apply sublist_skip.
    + now apply sublist_cons.
  - intros Hunknown.
    assert (Hnone : forall choice, outcomeOf config player1Choice choice = None).
    { intros choice. unfold outcomeOf, calculatePayoff.
      rewrite bool_decide_eq_false_2; [reflexivity|].
      now rewrite elem_of_list_to_set. }
    clear Hunknown.
    induction config.(choices) as [|choice l IH]; simpl; [reflexivity|].
    now rewrite Hnone.
  - intros Hvalid Hknown.
    assert (Hsome : forall choice,
               choice ∈ config.(choices) ->
               exists rule,
                 theRuleFor config player1Choice choice.(id) rule
                 /\ outcomeOf config player1Choice choice
                    = Some {| outcome_player2Choice := choice.(id);
                              outcome_player1Score := rule.(outcome_player1);
                              outcome_player2Score := rule.(outcome_player2);
                              outcome_outcomeText := rule.(outcomeText) |}).
    { intros choice Hin.
      destruct (validated_rule config player1Choice choice.(id) Hvalid Hknown
                  (choice_id_known _ _ Hin)) as (rule & Hrule & Hcalc).
      exists rule. split; [exact Hrule|].
      unfold outcomeOf. rewrite Hcalc. reflexivity. }
    split.
    + assert (Hall : forall l : list ChoiceOption,
                 (forall choice, choice ∈ l -> choice ∈ config.(choices)) ->
                 map outcome_player2Choice
                   (omap (outcomeOf config player1Choice) l)
                 = map id l).
      { induction l as [|choice l IH]; intros Hl; simpl; [reflexivity|].
        destruct (Hsome choice (Hl choice ltac:(left))) as (rule & _ & ->).
        simpl. f_equal. apply IH. intros c Hc. apply Hl. now right. }
      apply Hall. auto.
    + intros entry Hentry.
      apply list_elem_of_omap in Hentry as (choice & Hin & Hout).
      destruct (Hsome choice Hin) as (rule & Hrule & Hout').
      rewrite Hout' in Hout. injection Hout as <-. simpl. eauto.
Qed.

End PayoffViews.

(** ** What a loaded configuration guarantees *)

(** The fields read by an object schema, one equation each. *)
Ltac schema_fields H :=
  repeat match type of H with
         | context [let '(_, _) := Zod.field ?s ?p ?props ?k in _] =>
             let i := fresh "i" in
             let r := fresh "r" in
             let F := fresh "F" in
             destruct (Zod.field s p props k) as [i r] eqn:F
         end.

(** From the acceptance of an object: every field was accepted. *)
Ltac accepted_object H :=
  schema_fields H;
  let Hissues := fresh "Hissues" in
  let Hvalue := fresh "Hvalue" in
  injection H as Hissues Hvalue;
  repeat (apply app_eq_nil in Hissues as [? Hissues]); subst;
  repeat match type of Hvalue with
         | context [match ?x with _ => _ end] =>
             destruct x; try discriminate
         end;
  injection Hvalue as <-.

Section LoadedConfig.
Import Types Exn Zod Loader.

Lemma zString_min1 (m : option string) (p : list PathSegment) (v : JS.Value)
    (s : string) :
  zString [StringMin 1 m] p v = ([], Some s) -> s <> "".
Proof.
  unfold zString. destruct v; try discriminate. simpl. unfold JS.length.
  destruct (_ <? 1) eqn:E; [discriminate|]. intros [= <-] ->.
  discriminate.
Qed.

Lemma zString_regex (test : string -> bool) (m : option string)
    (p : list PathSegment) (v : JS.Value) (s : string) :
  zString [StringRegex test m] p v = ([], Some s) -> test s = true.
Proof.
  unfold zString. destruct v; try discriminate. simpl.
  destruct (test s0) eqn:E; [|discriminate]. now intros [= <-].
Qed.

Lemma zString_format (validation : string) (test : string -> bool)
    (p : list PathSegment) (v : JS.Value) (s : string) :
  zString [StringFormat validation test] p v = ([], Some s) ->
  test s = true.
Proof.
  unfold zString. destruct v; try discriminate. simpl.
  destruct (test s0) eqn:E; [|discriminate]. now intros [= <-].
Qed.

Lemma zNumber_min1 (m : option string) (p : list PathSegment) (v : JS.Value)
    (n : Z) :
  integer (zNumber [NumberInt; NumberMin 1 m]) p v = ([], Some n) -> 1 <= n.
Proof.
  unfold integer, zNumber.
  destruct v as [| |b|[k| | |]|s|l|ps]; try discriminate. simpl.
  destruct (_ <? 1) eqn:E; [discriminate|]. intros [= <-].
  now apply Z.ltb_ge in E.
Qed.

Lemma zOptional_some {A} (inner : Schema A) (p : list PathSegment)
    (v : JS.Value) (a : A) :
  zOptional inner p v = ([], Some (Some a)) -> inner p v = ([], Some a).
Proof.
  unfold zOptional. destruct v; try discriminate;
    destruct (inner p _) as [issues [r|]]; simpl; congruence.
Qed.

Lemma parseElements_Forall {A} (element : Schema A) (P : A -> Prop)
    (path : list PathSegment) :
  (forall p v a, element p v = ([], Some a) -> P a) ->
  forall (elements : list JS.Value) (k : nat) (rs : list A),
    parseElements element path k elements = ([], Some rs) -> Forall P rs.
Proof.
  intros Helement. induction elements as [|v elements IH]; intros k rs; simpl.
  - intros [= <-]. constructor.
  - destruct (element (path ++ [Index k])%list v) as [i1 r1] eqn:E1.
    destruct (parseElements element path (S k) elements) as [i2 r2] eqn:E2.
    intros [= Hissues Hvalue]. apply app_eq_nil in Hissues as [-> ->].
    destruct r1 as [a|], r2 as [l|]; try discriminate.
    injection Hvalue as <-. constructor; eauto.
Qed.

Lemma ChoiceOptionSchema_accepts (p : list PathSegment) (v : JS.Value)
    (choice : ChoiceOption) :
  ChoiceOptionSchema p v = ([], Some choice) ->
  choice.(id) <> "" /\ choice.(label) <> "".
Proof.
  intros H. unfold ChoiceOptionSchema in H.
  destruct v as [| | | | | |props]; try discriminate.
  accepted_object H. simpl.
  repeat match goal with
         | F : field (zString [StringMin 1 _]) _ _ _ = ([], Some _) |- _ =>
             apply zString_min1 in F
         end.
  split; assumption.
Qed.

Lemma GameMetadataSchema_accepts (urlTest : string -> bool)
    (p : list PathSegment) (v : JS.Value) (m : GameMetadata) :
  GameMetadataSchema urlTest p v = ([], Some m) ->
  m.(metadata_id) <> "" /\ m.(name) <> "" /\ m.(metadata_description) <> ""
  /\ semverTest m.(version) = true
  /\ forall url, m.(rulesUrl) = Some url -> urlTest url = true.
Proof.
  intros H. unfold GameMetadataSchema in H.
  destruct v as [| | | | | |props]; try discriminate.
  accepted_object H. simpl.
  repeat match goal with
         | F : field (zString [StringMin 1 _]) _ _ _ = ([], Some _) |- _ =>
             apply zString_min1 in F
         | F : field (zString [StringRegex _ _]) _ _ _ = ([], Some _) |- _ =>
             apply zString_regex in F
         end.
  repeat split; try assumption.
  intros url ->.
  match goal with
  | F : field (zOptional _) _ _ "rulesUrl" = _ |- _ =>
      apply zOptional_some, zString_format in F; exact F
  end.
Qed.

Lemma GameProgressionSchema_accepts (p : list PathSegment) (v : JS.Value)
    (g : GameProgression) :
  GameProgressionSchema p v = ([], Some g) -> 1 <= g.(totalRounds).
Proof.
  intros H. unfold GameProgressionSchema in H.
  destruct v as [| | | | | |props]; try discriminate.
  accepted_object H. simpl.
  match goal with
  | F : field (integer (zNumber _)) _ _ _ = _ |- _ =>
      now apply zNumber_min1 in F
  end.
Qed.

Lemma GameUISchema_accepts (p : list PathSegment) (v : JS.Value) (u : GameUI) :
  GameUISchema p v = ([], Some u) ->
  forall color,
    u.(primaryColor) = Some color \/ u.(secondaryColor) = Some color ->
    hexColorTest color = true.
Proof.
  intros H. unfold GameUISchema in H.
  destruct v as [| | | | | |props]; try discriminate.
  accepted_object H. simpl.
  intros color [->| ->];
    match goal with
    | F : field (zOptional _) _ _ _ = ([], Some (Some color)) |- _ =>
        apply zOptional_some, zString_regex in F; exact F
    end.
Qed.

(** X11. A configuration returned by [loadGameConfig] has at least two
    choices, each with a non-empty id and label and no id twice; a payoff
    rule for each of the [n * n] pairs of choices and no other rule; at
    least one round; a non-empty game id, name and description; a version
    of the form digits.digits.digits; colours of the form #rrggbb and a
    rules URL that the URL test accepts, where these are given. *)
Theorem loaded_config_guarantees (urlTest : string -> bool)
    (yamlData : JS.Value) (configPath : option string) (config : GameConfig) :
  loadGameConfig urlTest yamlData configPath = Return config ->
  (2 <= List.length config.(choices))%nat
  /\ Forall (fun choice => choice.(id) <> "" /\ choice.(label) <> "")
       config.(choices)
  /\ NoDup (choiceIdList config)
  /\ List.length config.(payoffRules)
     = (List.length config.(choices) * List.length config.(choices))%nat
  /\ (forall a b,
        a ∈ choiceIdList config -> b ∈ choiceIdList config ->
        exists rule, theRuleFor config a b rule)
  /\ 1 <= config.(progression).(totalRounds)
  /\ config.(metadata).(metadata_id) <> ""
  /\ config.(metadata).(name) <> ""
  /\ config.(metadata).(metadata_description) <> ""
  /\ semverTest config.(metadata).(version) = true
  /\ (forall url,
        config.(metadata).(rulesUrl) = Some url -> urlTest url = true)
  /\ (forall color,
        config.(ui).(primaryColor) = Some color
        \/ config.(ui).(secondaryColor) = Some color ->
        hexColorTest color = true).
Proof.
  intros Hload. apply loadGameConfig_returns in Hload as [Hparse Hvalid].
  apply parse_returns in Hparse.
  pose proof (GameConfigSchema_choices _ _ _ Hparse) as Hchoices.
  pose proof (validated_table_size config Hvalid) as Hsize.
  destruct (validated_counting config Hvalid) as (Hids & _ & _).
  unfold GameConfigSchema in Hparse.
  destruct yamlData as [| | | | | |props]; try discriminate.
  accepted_object Hparse. simpl in *.
  repeat match goal with
         | F : field (zArray _ _) _ _ _ = _ |- _ =>
             unfold field in F;
             apply zArray_accepts in F as (? & _ & _ & ?)
         | F : field (GameMetadataSchema _) _ _ _ = _ |- _ =>
             apply GameMetadataSchema_accepts in F as (? & ? & ? & ? & ?)
         | F : field GameProgressionSchema _ _ _ = _ |- _ =>
             apply GameProgressionSchema_accepts in F
         | F : field GameUISchema _ _ _ = _ |- _ =>
             pose proof (GameUISchema_accepts _ _ _ F); clear F
         end.
  split; [exact Hchoices|]. split.
  { match goal with
    | F : parseElements ChoiceOptionSchema _ _ _ = _ |- _ =>
        apply (parseElements_Forall ChoiceOptionSchema
                 (fun choice => choice.(id) <> "" /\ choice.(label) <> ""))
          in F; [exact F|]
    end.
    intros p v a. apply ChoiceOptionSchema_accepts. }
  split; [exact Hids|]. split; [lia|]. split.
  { intros a b Ha Hb.
    destruct (validated_rule _ a b Hvalid Ha Hb) as (rule & Hrule & _).
    eauto. }
  repeat split; assumption.
Qed.

End LoadedConfig.

Lemma loaded_config_guarantees_witness :
  (2 <= List.length rpsConfig.(Types.choices))%nat
  /\ NoDup (choiceIdList rpsConfig)
  /\ 1 <= rpsConfig.(Types.progression).(Types.totalRounds).
Proof.
  pose proof (loaded_config_guarantees (fun _ => true) rpsDocument
                (Some "rock-paper-scissors.yaml") rpsConfig
                ltac:(vm_compute; reflexivity)) as H.
  split; [apply H|]. split; apply H.
Defined.

(** ** The outcomes of loading a configuration *)

Create HintDb failures.

(** The fields of an object schema in the goal. *)
Ltac goal_fields :=
  repeat match goal with
         | |- context [let '(_, _) := Zod.field ?s ?p ?props ?k in _] =>
             let i := fresh "i" in
             let r := fresh "r" in
             let F := fresh "F" in
             destruct (Zod.field s p props k) as [i r] eqn:F
         end.

(** A field without a value has raised an issue. *)
Ltac failed_field :=
  match goal with
  | F : Zod.field ?s ?p ?props ?k = (?i, None) |- _ =>
      let H := fresh "H" in
      assert (H : reportsFailure s) by auto with failures;
      specialize (H (p ++ [Exn.Key k])%list (JS.getProperty props k));
      unfold Zod.field in F; rewrite F in H; specialize (H eq_refl);
      simpl in H;
      let Happ := fresh "Happ" in
      intros Happ;
      repeat (apply app_eq_nil in Happ as [? Happ]); subst; contradiction
  end.

Ltac object_reports :=
  let p := fresh "p" in
  let v := fresh "v" in
  intros p v;
  destruct v; try (simpl; discriminate);
  simpl; goal_fields; simpl;
  repeat match goal with
         | |- context [match ?r with _ => _ end] => is_var r; destruct r
         end;
  try discriminate; intros _; failed_field.

Section FailureReports.
Import Types Exn Zod Loader.

Lemma reportsFailure_zString (checks : list StringCheck) :
  reportsFailure (zString checks).
Proof. intros p v. destruct v; simpl; discriminate. Qed.

Lemma reportsFailure_zNumber (checks : list NumberCheck) :
  reportsFailure (zNumber checks).
Proof.
  intros p v. destruct v as [| |b|[n| | |]|s|l|ps]; simpl; discriminate.
Qed.

(** A number that is no integer has raised the issue of [.int()]. *)
Lemma reportsFailure_integer (checks : list NumberCheck) :
  reportsFailure (integer (zNumber (NumberInt :: checks))).
Proof.
  intros p v. unfold integer.
  destruct v as [| |b|[n| | |]|s|l|ps]; simpl; discriminate.
Qed.

Lemma reportsFailure_zBoolean : reportsFailure zBoolean.
Proof. intros p v. destruct v; simpl; discriminate. Qed.

Lemma reportsFailure_zLiteralNumber {A} (n : Z) (a : A) :
  reportsFailure (zLiteralNumber n a).
Proof.
  intros p v. destruct v as [| |b|[m| | |]|s|l|ps]; simpl; try discriminate.
  destruct (_ =? _); simpl; discriminate.
Qed.

Lemma reportsFailure_zUnion {A} (options : list (Schema A)) :
  reportsFailure (zUnion options).
Proof.
  intros p v. unfold zUnion.
  destruct (List.find _ _) as [r|] eqn:E1.
  - apply find_some in E1 as [_ H]. destruct r as [[|] [|]]; discriminate.
  - destruct (List.find _ _) as [r|] eqn:E2 in |- *.
    + apply find_some in E2 as [_ H]. destruct r as [? [|]]; discriminate.
    + simpl. discriminate.
Qed.

Lemma reportsFailure_zOptional {A} (inner : Schema A) :
  reportsFailure inner -> reportsFailure (zOptional inner).
Proof.
  intros Hinner p v. specialize (Hinner p v). unfold zOptional.
  destruct v; try discriminate;
    destruct (inner p _) as [issues [a|]]; simpl in *;
    try discriminate; auto.
Qed.

Lemma parseElements_reports {A} (element : Schema A)
    (path : list PathSegment) :
  reportsFailure element ->
  forall (elements : list JS.Value) (k : nat),
    snd (parseElements element path k elements) = None ->
    fst (parseElements element path k elements) <> [].
Proof.
  intros Helement. induction elements as [|v elements IH]; intros k; simpl.
  - discriminate.
  - specialize (Helement (path ++ [Index k])%list v).
    specialize (IH (S k)).
    destruct (element (path ++ [Index k])%list v) as [i1 r1].
    destruct (parseElements element path (S k) elements) as [i2 r2].
    simpl in *. intros Hnone Happ.
    apply app_eq_nil in Happ as [-> ->].
    destruct r1 as [a|]; [|now apply Helement].
    destruct r2 as [l|]; [discriminate | now apply IH].
Qed.

Lemma reportsFailure_zArray {A} (element : Schema A)
    (minLength : option (Z * option string)) :
  reportsFailure element -> reportsFailure (zArray element minLength).
Proof.
  intros Helement p v. unfold zArray. destruct v; try (simpl; discriminate).
  pose proof (parseElements_reports element p Helement elements 0) as H.
  destruct (parseElements element p 0 elements) as [issues l]. simpl in *.
  intros Hnone Happ. apply app_eq_nil in Happ as [_ ->]. now apply H.
Qed.

#[local] Hint Resolve reportsFailure_zString reportsFailure_zNumber
  reportsFailure_integer
  reportsFailure_zBoolean reportsFailure_zLiteralNumber reportsFailure_zUnion
  reportsFailure_zOptional reportsFailure_zArray : failures.

Lemma reportsFailure_ChoiceOptionSchema : reportsFailure ChoiceOptionSchema.
Proof. object_reports. Qed.

Lemma reportsFailure_ConditionSchema : reportsFailure ConditionSchema.
Proof. object_reports. Qed.

Lemma reportsFailure_OutcomeSchema : reportsFailure OutcomeSchema.
Proof. object_reports. Qed.

#[local] Hint Resolve reportsFailure_ChoiceOptionSchema
  reportsFailure_ConditionSchema reportsFailure_OutcomeSchema : failures.

Lemma reportsFailure_PayoffRuleSchema : reportsFailure PayoffRuleSchema.
Proof. object_reports. Qed.

Lemma reportsFailure_GameMetadataSchema (urlTest : string -> bool) :
  reportsFailure (GameMetadataSchema urlTest).
Proof. object_reports. Qed.

Lemma reportsFailure_GameProgressionSchema :
  reportsFailure GameProgressionSchema.
Proof. object_reports. Qed.

Lemma reportsFailure_GameUISchema : reportsFailure GameUISchema.
Proof. object_reports. Qed.

#[local] Hint Resolve reportsFailure_PayoffRuleSchema
  reportsFailure_GameMetadataSchema reportsFailure_GameProgressionSchema
  reportsFailure_GameUISchema : failures.

Lemma reportsFailure_GameConfigSchema (urlTest : string -> bool) :
  reportsFailure (GameConfigSchema urlTest).
Proof. object_reports. Qed.

End FailureReports.

Section LoadOutcomes.
Import Types Exn Zod Loader.

Lemma loadGameConfig_cases (urlTest : string -> bool) (yamlData : JS.Value)
    (configPath : option string) :
  loadGameConfig urlTest yamlData configPath
  = match GameConfigSchema urlTest [] yamlData with
    | ([], Some config) =>
        match semanticErrors config with
        | [] => Return config
        | errors =>
            Throw (ConfigValidationError
                     "Game config semantic validation failed" errors None)
        end
    | (issues, _) =>
        Throw (ConfigValidationError
                 ("Config validation failed: " ++ orUnknown configPath)
                 (issueMessages issues) configPath)
    end.
Proof.
  unfold loadGameConfig, parse.
  destruct (GameConfigSchema urlTest [] yamlData) as [[|e issues] [config|]];
    try reflexivity.
  simpl. rewrite validateGameConfigSemantics_errors.
  now destruct (semanticErrors config).
Qed.

(** X12. [loadGameConfig] either returns the configuration or throws a
    [ConfigValidationError] with at least one error message; it never
    throws a [ConfigLoadError]. The error of a structural failure carries
    the path given by the caller, the error of a semantic failure carries
    none. Whether a document is accepted does not depend on the path:
    [validateGameConfig] returns the same configuration, and
    [isValidGameConfig] answers true exactly for the accepted documents. *)
Theorem loadGameConfig_outcomes (urlTest : string -> bool)
    (yamlData : JS.Value) (configPath : option string) :
  match loadGameConfig urlTest yamlData configPath with
  | Return config =>
      (forall otherPath,
          loadGameConfig urlTest yamlData otherPath = Return config)
      /\ validateGameConfig urlTest yamlData = Return config
      /\ isValidGameConfig urlTest yamlData = true
  | Throw e =>
      isValidGameConfig urlTest yamlData = false
      /\ exists errors,
           errors <> []
           /\ (e = ConfigValidationError
                     ("Config validation failed: " ++ orUnknown configPath)
                     errors configPath
               \/ e = ConfigValidationError
                        "Game config semantic validation failed" errors None)
  end.
Proof.
  unfold isValidGameConfig, validateGameConfig.
  rewrite !loadGameConfig_cases.
  pose proof (reportsFailure_GameConfigSchema urlTest [] yamlData) as Hrep.
  destruct (GameConfigSchema urlTest [] yamlData)
    as [[|e issues] [config|]] eqn:E0; simpl in *.
  - destruct (semanticErrors config) as [|e errors] eqn:E.
    + split; [|split]; [|reflexivity..].
      intros otherPath. rewrite loadGameConfig_cases, E0, E. reflexivity.
    + split; [reflexivity|]. exists (e :: errors). split; [discriminate|].
      now right.
  - now destruct (Hrep eq_refl).
  - split; [reflexivity|]. eexists. split; [|left; reflexivity].
    discriminate.
  - split; [reflexivity|]. eexists. split; [|left; reflexivity].
    discriminate.
Qed.

End LoadOutcomes.

Section ConfigLike.
Import Types Exn Zod Loader.

(** X13. [isGameConfigLike] is the weaker test: it answers true for every
    document [isValidGameConfig] accepts, and also for documents that are
    no configuration, such as five empty arrays under the five names. *)
Theorem isGameConfigLike_weaker :
  (forall urlTest value,
      isValidGameConfig urlTest value = true ->
      isGameConfigLike value = true)
  /\ isGameConfigLike hollowDocument = true
  /\ forall urlTest, isValidGameConfig urlTest hollowDocument = false.
Proof.
  split; [|split; [reflexivity | intros urlTest; reflexivity]].
  intros urlTest value. unfold isValidGameConfig, validateGameConfig.
  rewrite loadGameConfig_cases.
  destruct (GameConfigSchema urlTest [] value)
    as [[|e issues] [config|]] eqn:E; try discriminate.
  intros _. unfold GameConfigSchema in E.
  destruct value as [| | | | | |props]; try discriminate.
  schema_fields E. unfold field in *. unfold isGameConfigLike. simpl.
  injection E as Hissues Hvalue.
  repeat match goal with
         | F : _ _ (JS.getProperty props ?k) = (_, ?r) |- _ =>
             destruct r; [|discriminate];
             destruct (JS.getProperty props k); try discriminate; clear F
         end.
  reflexivity.
Qed.

End ConfigLike.

(** ** Signed data and checksums *)

Section SignedData.
Import Exn HmacManager.

Variable HmacSHA256 : string -> string -> list Byte.byte.

(** X14. Signing never throws, and what [signData] returns for any string,
    the empty one included, passes [verifySignedData], which gives the
    string back. [verifyHMAC] never throws either and answers true for
    exactly one signature, the hexadecimal HMAC of the data; with any other
    signature [verifySignedData] throws the verification error. *)
Theorem signData_verifies (d : string) :
  (exists signed,
      signData HmacSHA256 d = Return signed
      /\ signed.(data) = d
      /\ signed.(signature)
         = hexStringify (HmacSHA256 d Constants.GAME_SECRET)
      /\ verifySignedData HmacSHA256 signed = Return d)
  /\ (forall signature,
        verifyHMAC HmacSHA256 d signature
        = Return (bool_decide
                    (signature
                     = hexStringify (HmacSHA256 d Constants.GAME_SECRET))))
  /\ (forall signature,
        signature <> hexStringify (HmacSHA256 d Constants.GAME_SECRET) ->
        verifySignedData HmacSHA256 {| data := d; signature := signature |}
        = Throw (HMACError
            "HMAC signature verification failed - data may have been tampered with")).
Proof.
  split; [|split].
  - unfold signData. rewrite generateHMAC_returns. simpl.
    eexists. split; [reflexivity|]. simpl.
    split; [reflexivity|]. split; [reflexivity|].
    rewrite verifySignedData_decides. simpl.
    now rewrite bool_decide_eq_true_2.
  - intros signature. apply verifyHMAC_decides.
  - intros signature Hne. rewrite verifySignedData_decides. simpl.
    now rewrite bool_decide_eq_false_2.
Qed.

(** X15. The encoded token determines what was signed: two strings that
    differ never have the same token, whatever the HMAC function. *)
Theorem distinct_data_distinct_tokens (d1 d2 : string)
    (signed1 signed2 : SignedData) :
  d1 <> d2 ->
  signData HmacSHA256 d1 = Return signed1 ->
  signData HmacSHA256 d2 = Return signed2 ->
  encodeSignedData signed1 <> encodeSignedData signed2.
Proof.
  intros Hne. unfold signData. rewrite !generateHMAC_returns. simpl.
  intros [= <-] [= <-] Heq. unfold encodeSignedData in Heq. simpl in Heq.
  apply Hne.
  pose proof (substring_before d1
                (hexStringify (HmacSHA256 d1 Constants.GAME_SECRET)) ".") as H1.
  pose proof (substring_before d2
                (hexStringify (HmacSHA256 d2 Constants.GAME_SECRET)) ".") as H2.
  pose proof (lastIndexOf_app d1 _ "."
                (hexStringify_no_dot (HmacSHA256 d1 Constants.GAME_SECRET)))
    as L1.
  pose proof (lastIndexOf_app d2 _ "."
                (hexStringify_no_dot (HmacSHA256 d2 Constants.GAME_SECRET)))
    as L2.
  change (d1 ++ String "." (hexStringify (HmacSHA256 d1 Constants.GAME_SECRET))
          = d2 ++ String "."
                    (hexStringify (HmacSHA256 d2 Constants.GAME_SECRET)))
    in Heq.
  rewrite Heq in L1, H1. rewrite L2 in L1. rewrite <- L1 in H1.
  congruence.
Qed.

End SignedData.

Lemma distinct_data_distinct_tokens_witness :
  exists signed1 signed2,
    HmacManager.signData exampleMac "rock" = Exn.Return signed1
    /\ HmacManager.signData exampleMac "paper" = Exn.Return signed2
    /\ HmacManager.encodeSignedData signed1
       <> HmacManager.encodeSignedData signed2.
Proof.
  eexists. eexists. split; [reflexivity|]. split; [reflexivity|].
  apply (distinct_data_distinct_tokens exampleMac "rock" "paper");
    [discriminate | reflexivity | reflexivity].
Defined.

Section Checksums.
Import ChecksumManager.

Variable JSON_stringify : JS.Value -> string.
Variable sha256 : string -> list Byte.byte.

Lemma constantTimeEqual_compareLoop (a b : string) :
  constantTimeEqual a b
  = if negb (JS.length a =? JS.length b) then false
    else HmacManager.compareLoop a b =? 0.
Proof. reflexivity. Qed.

Lemma constantTimeEqual_eqb (a b : string) :
  constantTimeEqual a b = String.eqb a b.
Proof.
  rewrite constantTimeEqual_compareLoop. unfold JS.length.
  destruct (Z.of_nat (String.length a) =? Z.of_nat (String.length b)) eqn:E;
    simpl.
  - apply Z.eqb_eq, Nat2Z.inj in E.
    destruct (HmacManager.compareLoop a b =? 0) eqn:E0.
    + apply Z.eqb_eq, compareLoop_zero in E0; [|assumption].
      symmetry. now apply String.eqb_eq.
    + symmetry. apply String.eqb_neq. intros Heq.
      apply Z.eqb_neq in E0. apply E0. now apply compareLoop_zero.
  - symmetry. apply String.eqb_neq. intros ->.
    apply Z.eqb_neq in E. now apply E.
Qed.

(** X16. [constantTimeEqual] decides equality of strings: it answers true
    exactly when its arguments are the same string. *)
Theorem constantTimeEqual_decides (a b : string) :
  constantTimeEqual a b = true <-> a = b.
Proof. rewrite constantTimeEqual_eqb. apply String.eqb_eq. Qed.

(** X17. The two ways of verifying agree on a container whose checksum
    is a string: both return the data exactly when the stored checksum is
    the one computed from the data, and otherwise reject with the stored
    checksum as [expected] and the computed one as [actual]. They part on
    a container without a checksum, or with [null] for one:
    [verifyAndUnwrap] rejects with its [ChecksumVerificationError],
    [verifyAndUnwrapSecure] with a [TypeError]. Neither returns data
    under any checksum but the computed one, an empty digest apart. What
    [wrapWithChecksum] returns always verifies. *)
Theorem checksum_verification (wrapped : JS.Value) :
  let data := JS.member wrapped "data" in
  let checksum := JS.member wrapped "checksum" in
  let computed := generateChecksum JSON_stringify sha256 data in
  let mismatch :=
    Rejected
      (VerificationError
         {| error_message :=
              "Checksum verification failed - data may have been tampered with";
            expected := checksum;
            actual := Some computed |}) in
  (forall stored,
      checksum = JS.Str stored ->
      verifyAndUnwrapSecure JSON_stringify sha256 wrapped
      = verifyAndUnwrap JSON_stringify sha256 wrapped
      /\ (stored = computed ->
          verifyAndUnwrap JSON_stringify sha256 wrapped = Fulfilled data)
      /\ (stored <> computed ->
          verifyAndUnwrap JSON_stringify sha256 wrapped = mismatch))
  /\ (wrapped <> JS.Undefined -> wrapped <> JS.Null ->
      checksum = JS.Undefined \/ checksum = JS.Null ->
      verifyAndUnwrap JSON_stringify sha256 wrapped = mismatch
      /\ verifyAndUnwrapSecure JSON_stringify sha256 wrapped
         = Rejected TypeError)
  /\ (forall returned,
        verifyAndUnwrap JSON_stringify sha256 wrapped = Fulfilled returned
        \/ (verifyAndUnwrapSecure JSON_stringify sha256 wrapped
            = Fulfilled returned
            /\ computed <> "") ->
        returned = data /\ checksum = JS.Str computed)
  /\ (forall now value,
        exists fresh,
          wrapWithChecksum JSON_stringify sha256 now value = Fulfilled fresh
          /\ JS.member fresh "checksumTimestamp" = JS.Str now
          /\ verifyAndUnwrap JSON_stringify sha256 fresh = Fulfilled value
          /\ verifyAndUnwrapSecure JSON_stringify sha256 fresh
             = Fulfilled value).
Proof.
  cbv zeta. unfold verifyAndUnwrapSecure, verifyAndUnwrap.
  split; [|split; [|split]].
  - intros stored Hstored.
    destruct wrapped; try discriminate; simpl in *;
      rewrite Hstored; simpl; rewrite constantTimeEqual_eqb;
      (split; [reflexivity|]); (split; [intros ->; now rewrite String.eqb_refl|]);
      intros Hne; rewrite (proj2 (String.eqb_neq _ _)) by congruence;
      reflexivity.
  - intros Hu Hn [Hmissing|Hmissing];
      destruct wrapped; try contradiction; simpl in *;
      rewrite ?Hmissing; split; reflexivity.
  - intros returned [Hreturned|[Hreturned Hdigest]];
      (destruct wrapped; try discriminate; simpl in *).
    all: try (destruct (JS.getProperty properties "checksum") eqn:Ec).
    all: simpl in Hreturned; try discriminate.
    all: try match type of Hreturned with
             | context [constantTimeEqual ?a ?b] =>
                 rewrite constantTimeEqual_eqb in Hreturned
             end.
    all: try match type of Hreturned with
             | context [String.eqb ?a ?b] =>
                 destruct (String.eqb a b) eqn:E; simpl in Hreturned;
                 [apply String.eqb_eq in E; subst;
                  injection Hreturned as <-; split; reflexivity
                 | discriminate]
             end.
    all: unfold sameLengthThenLoop in Hreturned.
    all: repeat match type of Hreturned with
                | context [if ?b then _ else _] =>
                    let E := fresh "E" in
                    destruct b eqn:E; simpl in Hreturned; try discriminate
                end.
    all: exfalso; apply Hdigest; apply Z.eqb_eq in E0; unfold JS.length in E0;
      match goal with
      | |- ?t = "" => destruct t; [reflexivity | simpl in E0; lia]
      end.
  - intros now value. unfold wrapWithChecksum, ChecksummedData. eexists.
    split; [reflexivity|]. simpl. rewrite constantTimeEqual_eqb.
    rewrite !String.eqb_refl. auto.
Qed.

End Checksums.

Section ChecksumFormat.
Import ChecksumManager.

Variable JSON_stringify : JS.Value -> string.
Variable sha256 : string -> list Byte.byte.

Lemma byte_two_digits (b : Byte.byte) :
  padStart2 (toString16 (Byte.to_N b))
  = String (HmacManager.hexChar (N.shiftr (Byte.to_N b) 4))
      (String (HmacManager.hexChar (N.land (Byte.to_N b) 15)) EmptyString).
Proof. destruct b; reflexivity. Qed.

Lemma concat_two_digits (bytes : list Byte.byte) :
  String.concat ""
    (map (fun b => padStart2 (toString16 (Byte.to_N b))) bytes)
  = HmacManager.hexStringify bytes.
Proof.
  induction bytes as [|b bytes IH]; [reflexivity|].
  cbn [map HmacManager.hexStringify]. rewrite <- IH, byte_two_digits.
  destruct bytes as [|b' bytes]; reflexivity.
Qed.

(** X18. A checksum is written as a signature is: two lower-case
    hexadecimal digits per byte of the digest, the high one first, so that
    different digests give different checksums; data whose digest differs
    from the one the stored checksum was computed from is rejected. *)
Theorem generateChecksum_format (value : JS.Value) :
  generateChecksum JSON_stringify sha256 value
  = HmacManager.hexStringify (sha256 (JSON_stringify value))
  /\ String.length (generateChecksum JSON_stringify sha256 value)
     = (2 * List.length (sha256 (JSON_stringify value)))%nat
  /\ (forall other now,
        sha256 (JSON_stringify other) <> sha256 (JSON_stringify value) ->
        generateChecksum JSON_stringify sha256 other
        <> generateChecksum JSON_stringify sha256 value
        /\ exists e,
             verifyAndUnwrapSecure JSON_stringify sha256
               (ChecksummedData other
                  (generateChecksum JSON_stringify sha256 value) now)
             = Rejected (VerificationError e)).
Proof.
  assert (Hhex : forall v,
             generateChecksum JSON_stringify sha256 v
             = HmacManager.hexStringify (sha256 (JSON_stringify v)))
    by (intros v; apply concat_two_digits).
  split; [apply Hhex|]. split.
  - rewrite Hhex. apply hexStringify_length.
  - intros other now Hdigest.
    assert (Hne : generateChecksum JSON_stringify sha256 other
                  <> generateChecksum JSON_stringify sha256 value).
    { rewrite !Hhex. intros Heq. now apply hexStringify_inj in Heq. }
    split; [exact Hne|].
    unfold verifyAndUnwrapSecure. simpl. rewrite constantTimeEqual_eqb.
    apply String.eqb_neq in Hne. rewrite Hne. simpl. eauto.
Qed.

End ChecksumFormat.

(** ** Data stored under a checksum *)

Section StoredData.
Import ChecksumManager.

Variable JSON_stringify : JS.Value -> string.
Variable JSON_parse : string -> option JS.Value.
Variable sha256 : string -> list Byte.byte.

(** The contract of JSON: parsing the text of a representable value gives
    what JSON keeps of it, which has the same text; the empty text is no
    JSON. *)
Hypothesis JSON_roundtrip :
  forall v, Json.representable v = true ->
    JSON_parse (JSON_stringify v) = Some (Json.normalize v).
Hypothesis JSON_stringify_normalize :
  forall v, JSON_stringify (Json.normalize v) = JSON_stringify v.
Hypothesis JSON_parse_empty : JSON_parse "" = None.

(** What JSON keeps of a fresh container: the data as JSON keeps it,
    under the same checksum. *)
Lemma stored_container (data : JS.Value) (checksum now : string) :
  JS.member (Json.normalize (ChecksummedData data checksum now)) "data"
  = Json.normalize data
  /\ JS.member (Json.normalize (ChecksummedData data checksum now))
       "checksum" = JS.Str checksum
  /\ JS.property (Json.normalize (ChecksummedData data checksum now)) "data"
     = Some (Json.normalize data).
Proof.
  unfold ChecksummedData.
  destruct data as [| |b|[n| | |]|t|l|ps]; repeat split; reflexivity.
Qed.

(** X30. [loadWithChecksum] settles in one of four ways. Without a stored
    text, or with the empty text, it is fulfilled with [null]. A text that
    is no JSON is rejected with the [ChecksumVerificationError] of the
    invalid JSON, which has neither [expected] nor [actual]. A text whose
    JSON has no checksum, [null] included, is rejected with a [TypeError]
    and not with a [ChecksumVerificationError]. And what
    [saveWithChecksum] has stored loads back as JSON keeps the data, the
    texts under the other keys being read as before. *)
Theorem loadWithChecksum_outcomes (key : string)
    (localStorage : gmap string string) :
  let load := loadWithChecksum JSON_stringify JSON_parse sha256 in
  (localStorage !! key = None \/ localStorage !! key = Some "" ->
   load key localStorage = Fulfilled None)
  /\ (forall text,
        localStorage !! key = Some text -> text <> "" ->
        JSON_parse text = None ->
        load key localStorage
        = Rejected
            (VerificationError
               {| error_message := "Invalid JSON in localStorage";
                  expected := JS.Undefined;
                  actual := None |}))
  /\ (forall text wrapped,
        localStorage !! key = Some text -> JSON_parse text = Some wrapped ->
        JS.member wrapped "checksum" = JS.Undefined
        \/ JS.member wrapped "checksum" = JS.Null ->
        load key localStorage = Rejected TypeError)
  /\ (forall now data,
        Json.distinctKeys data = true ->
        exists saved,
          saveWithChecksum JSON_stringify sha256 now key data localStorage
          = Fulfilled saved
          /\ load key saved = Fulfilled (Some (Json.normalize data))
          /\ forall other,
               other <> key -> load other saved = load other localStorage).
Proof.
  cbv zeta. unfold loadWithChecksum. split; [|split; [|split]].
  - intros [->| ->]; reflexivity.
  - intros text -> Htext Hparse. simpl.
    apply String.eqb_neq in Htext. rewrite Htext. simpl. now rewrite Hparse.
  - intros text wrapped -> Hparse Hmissing. simpl.
    destruct (String.eqb text "") eqn:E.
    { apply String.eqb_eq in E. subst text. congruence. }
    simpl. rewrite Hparse. unfold verifyAndUnwrapSecure.
    destruct wrapped; try reflexivity; simpl in *;
      destruct Hmissing as [Hmissing|Hmissing]; try discriminate;
      rewrite Hmissing; reflexivity.
  - intros now data Hdata.
    unfold saveWithChecksum, wrapWithChecksum.
    set (checksum := generateChecksum JSON_stringify sha256 data).
    set (wrapped := ChecksummedData data checksum now).
    assert (Hrep : Json.representable wrapped = true).
    { unfold wrapped, ChecksummedData, Json.representable. simpl.
      rewrite Hdata. reflexivity. }
    pose proof (JSON_roundtrip wrapped Hrep) as Hparse.
    assert (Htext : JSON_stringify wrapped <> "").
    { intros E. rewrite E, JSON_parse_empty in Hparse. discriminate. }
    eexists. split; [reflexivity|]. split.
    + rewrite lookup_insert_eq. simpl.
      apply String.eqb_neq in Htext. rewrite Htext. simpl.
      rewrite Hparse. unfold verifyAndUnwrapSecure.
      destruct (stored_container data checksum now) as (Hmember & Hsum & Hprop).
      fold wrapped in Hmember, Hsum, Hprop. rewrite Hprop, Hsum. simpl.
      unfold generateChecksum at 1. rewrite JSON_stringify_normalize.
      fold (generateChecksum JSON_stringify sha256 data). fold checksum.
      rewrite constantTimeEqual_eqb, String.eqb_refl. reflexivity.
    + intros other Hother. now rewrite lookup_insert_ne.
Qed.

End StoredData.

Lemma loadWithChecksum_outcomes_witness :
  exists saved,
    ChecksumManager.saveWithChecksum ExampleLibraries.stringify
      ExampleLibraries.digest "2024-05-01T10:00:00.000Z" "game-history"
      (Snapshot.toValue true exampleSnapshot) ∅
    = ChecksumManager.Fulfilled saved
    /\ ChecksumManager.loadWithChecksum ExampleLibraries.stringify
         ExampleLibraries.tryParse ExampleLibraries.digest "game-history" saved
       = ChecksumManager.Fulfilled
           (Some (Json.normalize (Snapshot.toValue true exampleSnapshot))).
Proof.
  destruct (proj2 (proj2 (proj2
    (loadWithChecksum_outcomes ExampleLibraries.stringify
       ExampleLibraries.tryParse ExampleLibraries.digest
       example_tryParse_roundtrip example_stringify_normalize
       ltac:(reflexivity) "game-history" ∅)))
    "2024-05-01T10:00:00.000Z" (Snapshot.toValue true exampleSnapshot)
    ltac:(reflexivity)) as (saved & Hsaved & Hloaded & _).
  exists saved. split; assumption.
Defined.

(** ** Decryption failures *)

(** Closes the case of one stage of the decryption. *)
Ltac stage_done :=
  repeat split; intros;
  repeat match goal with
         | H : exists _, _ |- _ => destruct H
         | H : _ /\ _ |- _ => destruct H
         | H : _ \/ _ |- _ => destruct H
         end;
  subst; try congruence; eauto 10.

Section DecryptionOutcomes.
Import Exn Lib.

Variable JSON_parse : string -> Completion JS.Value.
Variable decompressFromEncodedURIComponent : string -> option string.
Variable AES_decrypt_toString : string -> string -> Completion string.
Variable atob : string -> Completion string.

(** X19. Whatever fails inside [decryptGameState], the caller sees one
    error, "Failed to decrypt game state": the messages about an empty
    decryption or decompression and the errors of the libraries never
    leave the function. It returns a value exactly when [atob], the AES
    decryption, the decompression and [JSON.parse] all succeed with
    non-empty intermediate strings, and it stops calling the libraries at
    the first stage that fails. *)
Theorem decryptGameState_outcomes (encoded : string) :
  let decrypting :=
    Encryption.decryptGameState JSON_parse decompressFromEncodedURIComponent
      AES_decrypt_toString atob encoded in
  (forall e,
      outcome decrypting = Throw e ->
      e = Error "Failed to decrypt game state")
  /\ (forall v,
        outcome decrypting = Return v
        <-> exists encrypted decrypted json,
              atob encoded = Return encrypted
              /\ AES_decrypt_toString encrypted Constants.GAME_SECRET
                 = Return decrypted
              /\ decrypted <> ""
              /\ decompressFromEncodedURIComponent decrypted = Some json
              /\ json <> ""
              /\ JSON_parse json = Return v)
  /\ (forall e, atob encoded = Throw e -> calls decrypting = [Atob encoded])
  /\ (forall encrypted,
        atob encoded = Return encrypted ->
        AES_decrypt_toString encrypted Constants.GAME_SECRET = Return ""
        \/ (exists e,
              AES_decrypt_toString encrypted Constants.GAME_SECRET = Throw e) ->
        calls decrypting
        = [Atob encoded; AES_decrypt encrypted Constants.GAME_SECRET])
  /\ (forall encrypted decrypted,
        atob encoded = Return encrypted ->
        AES_decrypt_toString encrypted Constants.GAME_SECRET
        = Return decrypted ->
        decrypted <> "" ->
        decompressFromEncodedURIComponent decrypted = None
        \/ decompressFromEncodedURIComponent decrypted = Some "" ->
        calls decrypting
        = [Atob encoded; AES_decrypt encrypted Constants.GAME_SECRET;
           LZString_decompressFromEncodedURIComponent decrypted]).
Proof.
  cbv zeta.
  unfold outcome, calls, Encryption.decryptGameState, tryCatchM, bindM, call,
    ret, throw. simpl.
  destruct (atob encoded) as [encrypted|e0] eqn:Eatob; simpl;
    [|stage_done].
  destruct (AES_decrypt_toString encrypted Constants.GAME_SECRET)
    as [decrypted|e1] eqn:Eaes; simpl; [|stage_done].
  destruct (JS.truthyString decrypted) eqn:Edec; simpl;
    [apply truthyString_true in Edec
    |apply truthyString_false in Edec; stage_done].
  destruct (decompressFromEncodedURIComponent decrypted) as [json|] eqn:Elz;
    simpl; [|stage_done].
  destruct (String.eqb json "") eqn:Ejson; simpl;
    [apply String.eqb_eq in Ejson; stage_done
    |apply String.eqb_neq in Ejson].
  destruct (JSON_parse json) as [parsed|e2] eqn:Eparse; simpl; stage_done.
  exists encrypted, decrypted, json. repeat split; congruence.
Qed.

End DecryptionOutcomes.

(** ** The generated schemas *)

Section Generated.
Import Types Exn Zod SchemaGenerator.

Variable uuidTest : string -> bool.
Variable datetimeTest : string -> bool.

Lemma generateChoiceIdSchema_cases (config : GameConfig) :
  generateChoiceIdSchema config
  = match config.(choices) with
    | [] => Throw noChoiceError
    | _ => Return (zEnum (choiceIdList config))
    end.
Proof.
  unfold generateChoiceIdSchema, choiceIdList.
  destruct config.(choices) as [|choice l]; [reflexivity|].
  simpl List.length. rewrite Nat2Z.inj_succ.
  destruct (Z.succ _ <? 1) eqn:E; [|reflexivity].
  apply Z.ltb_lt in E. lia.
Qed.

(** X20. The generators need a choice: for a configuration without
    choices each of them throws "Config must have at least 1 choice", and
    [getGameSchemas] throws it and leaves the cache as it was; for any
    other configuration each of them returns a schema. *)
Theorem generators_need_a_choice (config : GameConfig)
    (schemaCache : gmap string GameSchemas) :
  (config.(choices) = [] ->
   generateChoiceIdSchema config = Throw noChoiceError
   /\ generateRoundSchema config = Throw noChoiceError
   /\ generateRoundHistorySchema config = Throw noChoiceError
   /\ generateGameStateSchema uuidTest datetimeTest config
      = Throw noChoiceError
   /\ generateGameHistoryEntrySchema uuidTest datetimeTest config
      = Throw noChoiceError
   /\ generateGameHistorySchema uuidTest datetimeTest config
      = Throw noChoiceError
   /\ (schemaCache !! cacheKeyOf config = None ->
       getGameSchemas uuidTest datetimeTest config schemaCache
       = (Throw noChoiceError, schemaCache)))
  /\ (config.(choices) <> [] ->
      (exists schema, generateChoiceIdSchema config = Return schema)
      /\ (exists schema, generateRoundSchema config = Return schema)
      /\ (exists schema, generateRoundHistorySchema config = Return schema)
      /\ (exists schema,
            generateGameStateSchema uuidTest datetimeTest config
            = Return schema)
      /\ (exists schema,
            generateGameHistoryEntrySchema uuidTest datetimeTest config
            = Return schema)
      /\ (exists schema,
            generateGameHistorySchema uuidTest datetimeTest config
            = Return schema)
      /\ exists schemas cache',
           getGameSchemas uuidTest datetimeTest config schemaCache
           = (Return schemas, cache')).
Proof.
  unfold getGameSchemas, generateGameHistorySchema,
    generateGameHistoryEntrySchema, generateGameStateSchema,
    generateRoundHistorySchema, generateRoundSchema.
  fold (cacheKeyOf config).
  rewrite generateChoiceIdSchema_cases. split.
  - intros ->. simpl. repeat split. now intros ->.
  - intros Hne. destruct config.(choices) as [|choice l]; [contradiction|].
    simpl. repeat split; eauto.
    destruct (schemaCache !! cacheKeyOf config); eauto.
Qed.

Lemma zEnum_accepts (values : list string) (path : list PathSegment)
    (v : JS.Value) :
  fst (zEnum values path v) = [] <-> exists s, v = JS.Str s /\ s ∈ values.
Proof.
  unfold zEnum. destruct v; simpl; try (split; [discriminate|]);
    try (intros (s' & [=] & _)).
  destruct (existsb (String.eqb s) values) eqn:E; simpl.
  - split; [|reflexivity]. intros _. exists s. split; [reflexivity|].
    apply existsb_exists in E as (x & Hx & Heq).
    apply String.eqb_eq in Heq. subst x. now apply list_elem_of_In.
  - split; [discriminate|]. intros (s' & [= <-] & Hin).
    assert (existsb (String.eqb s) values = true); [|congruence].
    apply existsb_exists. exists s. split; [now apply list_elem_of_In|].
    apply String.eqb_refl.
Qed.

Lemma zEnum_value (values : list string) (path : list PathSegment)
    (v : JS.Value) (s : string) :
  zEnum values path v = ([], Some s) -> v = JS.Str s /\ s ∈ values.
Proof.
  intros H. pose proof (proj1 (zEnum_accepts values path v)) as Hacc.
  rewrite H in Hacc. destruct (Hacc eq_refl) as (s' & -> & Hin).
  unfold zEnum in H. destruct (existsb _ _); [|discriminate].
  injection H as <-. auto.
Qed.

(** X21. The schema of choice ids accepts exactly the strings that are
    ids of choices of the configuration, and yields the string it
    accepted. *)
Theorem choice_schema_accepts_the_ids (config : GameConfig)
    (schema : Schema string) :
  generateChoiceIdSchema config = Return schema ->
  (forall path v,
      fst (schema path v) = []
      <-> exists s, v = JS.Str s /\ s ∈ choiceIdList config)
  /\ (forall path s,
        s ∈ choiceIdList config -> schema path (JS.Str s) = ([], Some s)).
Proof.
  rewrite generateChoiceIdSchema_cases.
  destruct config.(choices) as [|choice l] eqn:E; [discriminate|].
  intros [= <-]. split.
  - intros path v. apply zEnum_accepts.
  - intros path s Hin. unfold zEnum.
    assert (H : existsb (String.eqb s) (choiceIdList config) = true).
    { apply existsb_exists. exists s.
      split; [now apply list_elem_of_In | apply String.eqb_refl]. }
    now rewrite H.
Qed.

End Generated.

Lemma choice_schema_accepts_the_ids_witness :
  (forall path v,
      fst (Zod.zEnum ["rock"; "paper"; "scissors"] path v) = []
      <-> exists s, v = JS.Str s /\ s ∈ choiceIdList rpsConfig)
  /\ (forall path s,
        s ∈ choiceIdList rpsConfig ->
        Zod.zEnum ["rock"; "paper"; "scissors"] path (JS.Str s)
        = ([], Some s)).
Proof.
  apply (choice_schema_accepts_the_ids rpsConfig). reflexivity.
Defined.

Section AcceptedStates.
Import Types Exn Zod SchemaGenerator.

Variable uuidTest : string -> bool.
Variable datetimeTest : string -> bool.

Lemma zLiteralString_value (expected : string) (p : list PathSegment)
    (v : JS.Value) (s : string) :
  zLiteralString expected p v = ([], Some s) -> s = expected.
Proof.
  unfold zLiteralString. destruct v; try discriminate.
  destruct (String.eqb s0 expected) eqn:E; [|discriminate].
  intros [= <-]. now apply String.eqb_eq.
Qed.

Lemma zLiteralNumber_value {A} (n : Z) (a : A) (p : list PathSegment)
    (v : JS.Value) (r : A) :
  zLiteralNumber n a p v = ([], Some r) -> r = a /\ v = JS.Number n.
Proof.
  unfold zLiteralNumber.
  destruct v as [| |b|[m| | |]|s|l|ps]; try discriminate.
  destruct (m =? n) eqn:E; [|discriminate].
  intros [= <-]. apply Z.eqb_eq in E. now subst.
Qed.

Lemma zArray_any_accepts {A} (element : Schema A) (path : list PathSegment)
    (v : JS.Value) (rs : list A) :
  zArray element None path v = ([], Some rs) ->
  exists elements,
    v = JS.Array elements
    /\ parseElements element path 0 elements = ([], Some rs).
Proof.
  unfold zArray. destruct v as [| | | | |elements|]; try discriminate.
  destruct (parseElements element path 0 elements) as [issues l] eqn:E.
  simpl. intros [= -> ->]. eauto.
Qed.

Lemma choiceSchema_value (config : GameConfig) (schema : Schema string)
    (p : list PathSegment) (v : JS.Value) (s : string) :
  generateChoiceIdSchema config = Return schema ->
  schema p v = ([], Some s) -> s ∈ choiceIdList config.
Proof.
  rewrite generateChoiceIdSchema_cases.
  destruct config.(choices); [discriminate|]. intros [= <-] H.
  now apply zEnum_value in H.
Qed.

Lemma roundSchema_value (config : GameConfig) (schema : Schema Round)
    (p : list PathSegment) (v : JS.Value) (round : Round) :
  generateRoundSchema config = Return schema ->
  schema p v = ([], Some round) -> knownRound config round.
Proof.
  unfold generateRoundSchema.
  destruct (generateChoiceIdSchema config) as [choiceSchema|e] eqn:Ec;
    [|discriminate].
  simpl. intros [= <-] H.
  destruct v as [| | | | | |props]; try discriminate.
  accepted_object H. unfold knownRound. simpl.
  split; eapply choiceSchema_value; eauto.
Qed.

Lemma roundHistorySchema_value (config : GameConfig)
    (schema : Schema (list Round)) (p : list PathSegment) (v : JS.Value)
    (history : list Round) :
  generateRoundHistorySchema config = Return schema ->
  schema p v = ([], Some history) -> Forall (knownRound config) history.
Proof.
  unfold generateRoundHistorySchema.
  destruct (generateRoundSchema config) as [roundSchema|e] eqn:Er;
    [|discriminate].
  simpl. intros [= <-] H.
  apply zArray_any_accepts in H as (elements & _ & H).
  apply (parseElements_Forall roundSchema (knownRound config)) in H;
    [exact H|].
  intros q w round. now apply roundSchema_value.
Qed.

Lemma pendingChoiceSchema_value (config : GameConfig)
    (choiceSchema : Schema string) (p : list PathSegment) (v : JS.Value)
    (pending : PendingChoice) :
  generateChoiceIdSchema config = Return choiceSchema ->
  pendingChoiceSchema uuidTest choiceSchema p v = ([], Some pending) ->
  pending.(choice) ∈ choiceIdList config
  /\ uuidTest pending.(playerId) = true.
Proof.
  intros Hc H. unfold pendingChoiceSchema in H.
  destruct v as [| | | | | |props]; try discriminate.
  accepted_object H. simpl. split.
  - eapply choiceSchema_value; eauto.
  - match goal with
    | F : field (PlayerIdSchema _) _ _ _ = _ |- _ =>
        now apply zString_format in F
    end.
Qed.

(** X22. A snapshot that passes the generated game-state schema belongs
    to the game: its type, version and number of rounds are those of the
    configuration; every round of its history and its pending choice are
    between choices of the configuration; its game and player ids pass
    the UUID test, its timestamps the date-time test, and the name of
    player 1 is not empty. *)
Theorem accepted_state_belongs_to_game (config : GameConfig)
    (schema : Schema GameState) (data : JS.Value) (state : GameState) :
  generateGameStateSchema uuidTest datetimeTest config = Return schema ->
  parse schema data = Return state ->
  state.(gameType) = config.(metadata).(metadata_id)
  /\ state.(gameVersion) = config.(metadata).(version)
  /\ state.(totalRounds) = config.(progression).(Types.totalRounds)
  /\ Forall (knownRound config) state.(roundHistory)
  /\ (forall pending,
        state.(pendingChoice) = Some pending ->
        pending.(choice) ∈ choiceIdList config
        /\ uuidTest pending.(playerId) = true)
  /\ uuidTest state.(gameId) = true
  /\ uuidTest state.(player1Id) = true
  /\ (forall other, state.(player2Id) = Some other -> uuidTest other = true)
  /\ state.(player1Name) <> ""
  /\ datetimeTest state.(createdAt) = true
  /\ datetimeTest state.(updatedAt) = true.
Proof.
  unfold generateGameStateSchema.
  destruct (generateChoiceIdSchema config) as [choiceSchema|e] eqn:Ec;
    [|discriminate].
  destruct (generateRoundHistorySchema config) as [historySchema|e] eqn:Eh;
    [|discriminate].
  simpl. intros [= <-] Hparse. apply parse_returns in Hparse.
  destruct data as [| | | | | |props]; try discriminate.
  accepted_object Hparse. simpl.
  repeat match goal with
         | F : field (zLiteralString _) _ _ _ = _ |- _ =>
             apply zLiteralString_value in F
         | F : field (zLiteralNumber _ _) _ _ _ = _ |- _ =>
             apply zLiteralNumber_value in F as [F _]
         | F : field historySchema _ _ _ = _ |- _ =>
             apply (roundHistorySchema_value config historySchema _ _ _ Eh)
               in F
         | F : field (zString [StringMin 1 _]) _ _ _ = _ |- _ =>
             apply zString_min1 in F
         | F : field (zString [StringFormat _ _]) _ _ _ = _ |- _ =>
             apply zString_format in F
         | F : field (GameIdSchema _) _ _ _ = _ |- _ =>
             apply zString_format in F
         | F : field (PlayerIdSchema _) _ _ _ = _ |- _ =>
             apply zString_format in F
         end.
  do 4 (split; [assumption|]). split.
  { intros pending ->.
    match goal with
    | F : field (zOptional (pendingChoiceSchema _ _)) _ _ _ = _ |- _ =>
        apply zOptional_some in F;
        exact (pendingChoiceSchema_value config choiceSchema _ _ _ Ec F)
    end. }
  do 2 (split; [assumption|]). split.
  { intros other ->.
    match goal with
    | F : field (zOptional (PlayerIdSchema _)) _ _ _ = _ |- _ =>
        now apply zOptional_some, zString_format in F
    end. }
  repeat split; assumption.
Qed.

End AcceptedStates.

Lemma accepted_state_belongs_to_game_witness :
  exists state,
    parseSnapshot rpsConfig (snapshotAtRound 3) = Exn.Return state
    /\ state.(SchemaGenerator.gameType) = "rock-paper-scissors"
    /\ Forall (knownRound rpsConfig) state.(SchemaGenerator.roundHistory).
Proof.
  eexists. split; [vm_compute; reflexivity|].
  match goal with
  | |- context [SchemaGenerator.roundHistory ?st] =>
      pose proof (fun schema Hschema Hparse =>
                    accepted_state_belongs_to_game (fun _ => true)
                      (fun _ => true) rpsConfig schema (snapshotAtRound 3)
                      st Hschema Hparse) as H
  end.
  edestruct H as (H1 & _ & _ & H4 & _);
    [reflexivity | vm_compute; reflexivity |].
  split; [exact H1 | exact H4].
Defined.

(** ** The schema cache *)

Section SchemaCache.
Import Types Exn Zod Loader SchemaGenerator.

Variable uuidTest : string -> bool.
Variable datetimeTest : string -> bool.

Lemma lastIndexOf_none_app (a b : string) (c : ascii) :
  JS.lastIndexOf a c = -1 -> JS.lastIndexOf b c = -1 ->
  JS.lastIndexOf (a ++ b) c = -1.
Proof.
  intros Ha Hb. induction a as [|d a IH]; [exact Hb|].
  simpl in *. pose proof (lastIndexOf_lower a c) as Hlow.
  destruct (JS.lastIndexOf a c =? -1) eqn:E.
  - apply Z.eqb_eq in E. rewrite (IH E). simpl.
    destruct (Ascii.eqb d c); [discriminate | reflexivity].
  - lia.
Qed.

Lemma lastIndexOf_none_cons (d c : ascii) (s : string) :
  Ascii.eqb d c = false -> JS.lastIndexOf s c = -1 ->
  JS.lastIndexOf (String d s) c = -1.
Proof. intros Hd Hs. simpl. now rewrite Hs, Hd. Qed.

Lemma isDigit_not_dash (c : ascii) :
  isDigit c = true -> Ascii.eqb c "-" = false.
Proof.
  intros Hc. destruct (Ascii.eqb c "-") eqn:E; [|reflexivity].
  apply Ascii.eqb_eq in E. subst c. discriminate.
Qed.

Lemma skipDigits_split (s : string) :
  exists ds, s = ds ++ skipDigits s /\ JS.lastIndexOf ds "-" = -1.
Proof.
  induction s as [|c s (ds & Hs & Hds)]; simpl.
  - exists "". auto.
  - destruct (isDigit c) eqn:E.
    + exists (String c ds). simpl. split; [now rewrite <- Hs|].
      rewrite Hds. simpl. now rewrite isDigit_not_dash.
    + exists "". auto.
Qed.

Lemma digits_split (s rest : string) :
  digits s = Some rest ->
  exists ds, s = ds ++ rest /\ JS.lastIndexOf ds "-" = -1.
Proof.
  unfold digits. destruct s as [|c s]; [discriminate|].
  destruct (isDigit c) eqn:E; [|discriminate]. intros [= <-].
  destruct (skipDigits_split s) as (ds & Hs & Hds).
  exists (String c ds). simpl. split; [now rewrite <- Hs|].
  rewrite Hds. simpl. now rewrite isDigit_not_dash.
Qed.

Lemma char_split (c : ascii) (s rest : string) :
  char c s = Some rest -> s = String c rest.
Proof.
  unfold char. destruct s as [|d s]; [discriminate|].
  destruct (Ascii.eqb c d) eqn:E; [|discriminate].
  apply Ascii.eqb_eq in E. now intros [= <-]; subst.
Qed.

(** A version that passes the test of the loader has no hyphen. *)
Lemma semver_no_dash (s : string) :
  semverTest s = true -> JS.lastIndexOf s "-" = -1.
Proof.
  unfold semverTest.
  destruct (digits s) as [s1|] eqn:E1; simpl; [|discriminate].
  destruct (char "." s1) as [s2|] eqn:E2; simpl; [|discriminate].
  destruct (digits s2) as [s3|] eqn:E3; simpl; [|discriminate].
  destruct (char "." s3) as [s4|] eqn:E4; simpl; [|discriminate].
  destruct (digits s4) as [[|]|] eqn:E5; try discriminate. intros _.
  apply digits_split in E1 as (d1 & -> & H1).
  apply char_split in E2 as ->.
  apply digits_split in E3 as (d2 & -> & H2).
  apply char_split in E4 as ->.
  apply digits_split in E5 as (d3 & -> & H3).
  repeat first
    [ apply lastIndexOf_none_app
    | apply lastIndexOf_none_cons; [reflexivity|]
    | assumption
    | reflexivity ].
Qed.

Lemma split_at_last (pre1 post1 pre2 post2 : string) (c : ascii) :
  JS.lastIndexOf post1 c = -1 -> JS.lastIndexOf post2 c = -1 ->
  pre1 ++ String c post1 = pre2 ++ String c post2 ->
  pre1 = pre2 /\ post1 = post2.
Proof.
  intros H1 H2 Heq.
  pose proof (substring_before pre1 post1 c) as B1.
  pose proof (substring_after pre1 post1 c) as A1.
  pose proof (lastIndexOf_app pre1 post1 c H1) as L1.
  pose proof (lastIndexOf_app pre2 post2 c H2) as L2.
  rewrite Heq in B1, A1, L1. rewrite L2 in L1. rewrite <- L1 in B1, A1.
  rewrite substring_before in B1. rewrite substring_after in A1. auto.
Qed.

Lemma getGameSchemas_hit (config : GameConfig)
    (schemaCache : gmap string GameSchemas) (cached : GameSchemas) :
  schemaCache !! cacheKeyOf config = Some cached ->
  getGameSchemas uuidTest datetimeTest config schemaCache
  = (Return cached, schemaCache).
Proof.
  intros Hhit. unfold getGameSchemas. fold (cacheKeyOf config).
  now rewrite Hhit.
Qed.

Lemma getGameSchemas_miss (config : GameConfig)
    (schemaCache : gmap string GameSchemas) :
  schemaCache !! cacheKeyOf config = None ->
  config.(choices) <> [] ->
  exists schemas,
    getGameSchemas uuidTest datetimeTest config schemaCache
    = (Return schemas, <[cacheKeyOf config := schemas]> schemaCache)
    /\ schemas.(choiceIdSchema) = zEnum (choiceIdList config).
Proof.
  intros Hmiss Hne. unfold getGameSchemas. fold (cacheKeyOf config).
  rewrite Hmiss.
  unfold generateGameHistorySchema, generateGameHistoryEntrySchema,
    generateGameStateSchema, generateRoundHistorySchema, generateRoundSchema.
  rewrite generateChoiceIdSchema_cases.
  destruct config.(choices) as [|choice l]; [contradiction|].
  simpl. eexists. split; reflexivity.
Qed.

(** X23. The schema cache. A first call for a configuration with choices
    generates the schemas and stores them under the key "id-version"; the
    next call returns the stored schemas and leaves the cache as it is,
    also for another configuration of the same id and version, whose own
    choices are then not looked at. Configurations whose versions pass the
    version test of the loader share a key only if they have the same id
    and the same version. After [clearSchemaCache] nothing is kept. *)
Theorem schema_cache_behaviour (config other : GameConfig)
    (schemaCache : gmap string GameSchemas) :
  (schemaCache !! cacheKeyOf config = None ->
   config.(choices) <> [] ->
   exists schemas,
     let cache' := <[cacheKeyOf config := schemas]> schemaCache in
     getGameSchemas uuidTest datetimeTest config schemaCache
     = (Return schemas, cache')
     /\ schemas.(choiceIdSchema) = zEnum (choiceIdList config)
     /\ getGameSchemas uuidTest datetimeTest config cache'
        = (Return schemas, cache')
     /\ (other.(metadata).(metadata_id) = config.(metadata).(metadata_id) ->
         other.(metadata).(version) = config.(metadata).(version) ->
         getGameSchemas uuidTest datetimeTest other cache'
         = (Return schemas, cache')))
  /\ (semverTest config.(metadata).(version) = true ->
      semverTest other.(metadata).(version) = true ->
      cacheKeyOf other = cacheKeyOf config ->
      other.(metadata).(metadata_id) = config.(metadata).(metadata_id)
      /\ other.(metadata).(version) = config.(metadata).(version))
  /\ getGameSchemas uuidTest datetimeTest config
       (clearSchemaCache schemaCache)
     = getGameSchemas uuidTest datetimeTest config ∅.
Proof.
  split; [|split; [|reflexivity]].
  - intros Hmiss Hne.
    destruct (getGameSchemas_miss config schemaCache Hmiss Hne)
      as (schemas & Hget & Hids).
    exists schemas. cbv zeta. split; [exact Hget|]. split; [exact Hids|].
    split.
    + apply getGameSchemas_hit. apply lookup_insert_eq.
    + intros Hid Hversion. apply getGameSchemas_hit.
      unfold cacheKeyOf. rewrite Hid, Hversion. apply lookup_insert_eq.
  - intros Hv Hv' Hkey. unfold cacheKeyOf in Hkey.
    apply (split_at_last _ _ _ _ "-"); auto using semver_no_dash.
Qed.

End SchemaCache.

Lemma schema_cache_behaviour_witness :
  exists schemas,
    SchemaGenerator.getGameSchemas (fun _ => true) (fun _ => true) rpsConfig ∅
    = (Exn.Return schemas, {[cacheKeyOf rpsConfig := schemas]})
    /\ SchemaGenerator.getGameSchemas (fun _ => true) (fun _ => true)
         (withPayoffRules rpsConfig [])
         {[cacheKeyOf rpsConfig := schemas]}
       = (Exn.Return schemas, {[cacheKeyOf rpsConfig := schemas]}).
Proof.
  destruct (proj1 (schema_cache_behaviour (fun _ => true) (fun _ => true)
                     rpsConfig (withPayoffRules rpsConfig []) ∅))
    as (schemas & Hget & _ & _ & Hother);
    [apply lookup_empty | discriminate |].
  exists schemas. rewrite insert_empty in Hget, Hother.
  split; [exact Hget | exact (Hother eq_refl eq_refl)].
Defined.

(** ** The guards of the base schemas *)

Section BaseSchemas.
Import Types Exn Zod SchemaGenerator.

Variable uuidTest : string -> bool.
Variable datetimeTest : string -> bool.

(** X24. [isPlayerNumber] answers true for the numbers 1 and 2 and for
    nothing else, [isPlayerId] and [isGameId] for exactly the strings that
    pass the UUID test; [createPlayerId], [createGameId] and
    [createTimestamp] return the string they are given when it passes the
    test of its schema and throw a [ZodError] with one issue when not. *)
Theorem base_schema_guards (value : JS.Value) :
  (isPlayerNumber value = true
   <-> value = JS.Number 1 \/ value = JS.Number 2)
  /\ (isPlayerId uuidTest value = true
      <-> exists s, value = JS.Str s /\ uuidTest s = true)
  /\ (isGameId uuidTest value = true
      <-> exists s, value = JS.Str s /\ uuidTest s = true)
  /\ (forall randomUUID,
        createPlayerId uuidTest randomUUID
        = (if uuidTest randomUUID then Return randomUUID
           else Throw (ZodError [issue [] "Invalid uuid"]))
        /\ createGameId uuidTest randomUUID
           = (if uuidTest randomUUID then Return randomUUID
              else Throw (ZodError [issue [] "Invalid uuid"])))
  /\ (forall now,
        createTimestamp datetimeTest now
        = if datetimeTest now then Return now
          else Throw (ZodError [issue [] "Invalid datetime"])).
Proof.
  split; [|split; [|split; [|split]]].
  - unfold isPlayerNumber, safeParseSuccess, PlayerNumberSchema, zUnion,
      zLiteralNumber.
    destruct value as [| |b|[n| | |]|s|l|ps]; simpl;
      try (split; [discriminate | intros [|]; discriminate]).
    destruct (n =? 1) eqn:E1; simpl.
    + apply Z.eqb_eq in E1. subst n. split; auto.
    + destruct (n =? 2) eqn:E2; simpl.
      * apply Z.eqb_eq in E2. subst n. split; auto.
      * apply Z.eqb_neq in E1, E2.
        split; [discriminate | intros [[=]|[=]]; contradiction].
  - unfold isPlayerId, safeParseSuccess, PlayerIdSchema, zString.
    destruct value; simpl;
      try (split; [discriminate | intros (? & [=] & _)]).
    destruct (uuidTest s) eqn:E; simpl.
    + split; eauto.
    + split; [discriminate | intros (? & [= <-] & H); congruence].
  - unfold isGameId, safeParseSuccess, GameIdSchema, zString.
    destruct value; simpl;
      try (split; [discriminate | intros (? & [=] & _)]).
    destruct (uuidTest s) eqn:E; simpl.
    + split; eauto.
    + split; [discriminate | intros (? & [= <-] & H); congruence].
  - intros randomUUID.
    unfold createPlayerId, createGameId, parse, PlayerIdSchema, GameIdSchema,
      zString. simpl.
    destruct (uuidTest randomUUID); simpl; split; reflexivity.
  - intros now. unfold createTimestamp, parse, DateTimeSchema, zString.
    simpl. destruct (datetimeTest now); reflexivity.
Qed.

End BaseSchemas.

(** ** Games played through the handlers of the application *)

Section PlayedGames.
Import Types Exn App.

Lemma makeChoice_invariant (config : GameConfig) (playerNum : PlayerNumber)
    (choiceId : string) (c c' : Component) :
  gameInvariant config c ->
  makeChoice (Some config) playerNum choiceId c = Return c' ->
  gameInvariant config c'.
Proof.
  intros (s & history & Hs & Harr & Hround & Hscored). unfold makeChoice.
  rewrite Hs.
  set (newState := match playerNum with P1 => _ | P2 => _ end).
  assert (Hrounds : newState.(rounds) = s.(rounds))
    by (subst newState; destruct playerNum; reflexivity).
  assert (Hcur : newState.(currentRound) = s.(currentRound))
    by (subst newState; destruct playerNum; reflexivity).
  clearbody newState.
  destruct (JS.truthy newState.(player1Choice)
            && JS.truthy newState.(player2Choice)).
  - match goal with
    | |- context [PayoffEngine.calculatePayoff ?g ?a ?b] =>
        destruct (PayoffEngine.calculatePayoff g a b) as [payoff|e] eqn:Ecalc
    end; simpl; [|discriminate].
    intros [= <-]. eexists. eexists. simpl. split; [reflexivity|]. simpl.
    unfold push. rewrite Hrounds, lookup_alter_eq, Harr. simpl.
    split; [reflexivity|]. split.
    + rewrite Hcur.
      destruct (s.(currentRound) <? config.(progression).(totalRounds))
        eqn:E; [apply Z.ltb_lt in E|]; lia.
    + apply Forall_app. split; [exact Hscored|].
      constructor; [|constructor]. exists payoff. simpl. auto.
  - intros [= <-]. exists newState, history. simpl.
    rewrite Hrounds, Hcur. auto.
Qed.

Lemma startNewGame_invariant (config : GameConfig) (uuid : string)
    (c : Component) :
  1 <= config.(progression).(totalRounds) ->
  gameInvariant config (startNewGame (Some config) uuid c).
Proof.
  intros Htotal.
  destruct (startNewGame_fresh config uuid c)
    as (s & Hs & Harr & _ & _ & Hround & _).
  exists s, []. rewrite Hround. repeat split; auto; lia.
Qed.

Lemma played_invariant (config : GameConfig) (uuid : string)
    (actions : list Action) :
  1 <= config.(progression).(totalRounds) ->
  gameInvariant config (played config uuid actions).
Proof.
  intros Htotal. unfold played.
  generalize (startNewGame_invariant config uuid mounted Htotal).
  generalize (startNewGame (Some config) uuid mounted).
  induction actions as [|a actions IH]; intros c Hc; simpl; [exact Hc|].
  apply IH. destruct a as [uuid'|playerNum choiceId]; cbn [step].
  - now apply startNewGame_invariant.
  - destruct (makeChoice (Some config) playerNum choiceId c) as [c'|e] eqn:E;
      [eapply makeChoice_invariant; eassumption | exact Hc].
Qed.

(** X25. Through [startNewGame] and [makeChoice] the round number stays
    between 1 and [totalRounds]: [makeChoice] advances it only below
    [totalRounds]. The test of the render for a finished game,
    [currentRound > totalRounds], therefore fails in every state these
    handlers produce. *)
Theorem currentRound_within_rounds (config : GameConfig) (uuid : string)
    (actions : list Action) :
  1 <= config.(progression).(totalRounds) ->
  exists s,
    (played config uuid actions).(gameState) = Some s
    /\ 1 <= s.(currentRound) <= config.(progression).(totalRounds)
    /\ isComplete config s = false.
Proof.
  intros Htotal.
  destruct (played_invariant config uuid actions Htotal)
    as (s & history & Hs & _ & Hround & _).
  exists s. split; [exact Hs|]. split; [exact Hround|].
  unfold isComplete. rewrite Z.gtb_ltb. apply Z.ltb_ge. lia.
Qed.

(** X26. Every round in the history of a game played through the
    handlers was scored by the payoff table: [calculatePayoff] returns for
    its two choices, with the two scores the round records. *)
Theorem recorded_rounds_scored_by_table (config : GameConfig) (uuid : string)
    (actions : list Action) :
  1 <= config.(progression).(totalRounds) ->
  exists s history,
    (played config uuid actions).(gameState) = Some s
    /\ (played config uuid actions).(arrays) !! s.(rounds) = Some history
    /\ forall round,
         round ∈ history ->
         exists payoff,
           PayoffEngine.calculatePayoff config round.(round_player1Choice)
             round.(round_player2Choice) = Return payoff
           /\ round.(player1Score) = payoff.(PayoffEngine.player1Score)
           /\ round.(player2Score) = payoff.(PayoffEngine.player2Score).
Proof.
  intros Htotal.
  destruct (played_invariant config uuid actions Htotal)
    as (s & history & Hs & Harr & _ & Hscored).
  exists s, history. split; [exact Hs|]. split; [exact Harr|].
  intros round Hin. rewrite Forall_forall in Hscored.
  exact (Hscored round Hin).
Qed.

(** X27. In the last round [makeChoice] leaves both choices in place
    after scoring, and a further call scores again: when the round number
    is not below [totalRounds] and the other player's choice is there, a
    call by either player with a choice that the table covers records one
    more round, adds its scores to the totals and keeps the round number,
    so that the history can hold more rounds than the game has. *)
Theorem last_round_scored_again (config : GameConfig) (c : Component)
    (s : GameState) (history : list Round) (playerNum : PlayerNumber)
    (choiceId other : string) (payoff : PayoffEngine.PayoffResult) :
  c.(gameState) = Some s ->
  c.(arrays) !! s.(rounds) = Some history ->
  config.(progression).(totalRounds) <= s.(currentRound) ->
  choiceOf (TurnEngine.getOpponentPlayer playerNum)
    s.(player1Choice) s.(player2Choice) = Some other ->
  other <> "" -> choiceId <> "" ->
  PayoffEngine.calculatePayoff config
    (fst (roundChoices playerNum choiceId other))
    (snd (roundChoices playerNum choiceId other)) = Return payoff ->
  exists c' s',
    makeChoice (Some config) playerNum choiceId c = Return c'
    /\ c'.(gameState) = Some s'
    /\ c'.(arrays) !! s'.(rounds)
       = Some (history
                 ++ [{| round_player1Choice :=
                          fst (roundChoices playerNum choiceId other);
                        round_player2Choice :=
                          snd (roundChoices playerNum choiceId other);
                        player1Score := payoff.(PayoffEngine.player1Score);
                        player2Score := payoff.(PayoffEngine.player2Score) |}])%list
    /\ s'.(currentRound) = s.(currentRound)
    /\ s'.(player1Choice)
       = Some (fst (roundChoices playerNum choiceId other))
    /\ s'.(player2Choice)
       = Some (snd (roundChoices playerNum choiceId other))
    /\ s'.(player1Total)
       = JS.add s.(player1Total) payoff.(PayoffEngine.player1Score)
    /\ s'.(player2Total)
       = JS.add s.(player2Total) payoff.(PayoffEngine.player2Score).
Proof.
  intros Hs Harr Hlast Hthere Hother Hchoice Hcalc.
  unfold makeChoice. rewrite Hs.
  apply String.eqb_neq in Hother, Hchoice.
  destruct playerNum; simpl in Hthere, Hcalc |- *;
    cbn [player1Choice player2Choice]; rewrite Hthere; simpl JS.truthy;
    rewrite Hother, Hchoice; simpl; rewrite Hcalc; simpl;
    (destruct (s.(currentRound) <? config.(progression).(totalRounds)) eqn:E;
       [apply Z.ltb_lt in E; lia|]);
    (eexists; eexists; split; [reflexivity|]; simpl;
     split; [reflexivity|]; simpl;
     unfold push; rewrite lookup_alter_eq, Harr; simpl;
     repeat split; reflexivity).
Qed.

End PlayedGames.

Lemma currentRound_within_rounds_witness :
  exists s,
    (played rpsConfig "game"
       [App.MakeChoice Types.P1 "rock"; App.MakeChoice Types.P2 "paper"]).(App.gameState)
    = Some s
    /\ 1 <= s.(App.currentRound) <= 3
    /\ App.isComplete rpsConfig s = false.
Proof.
  apply (currentRound_within_rounds rpsConfig "game"
           [App.MakeChoice Types.P1 "rock"; App.MakeChoice Types.P2 "paper"]).
  vm_compute. discriminate.
Defined.

Lemma recorded_rounds_scored_by_table_witness :
  exists s history,
    (played rpsConfig "game"
       [App.MakeChoice Types.P1 "rock"; App.MakeChoice Types.P2 "paper"]).(App.gameState)
    = Some s
    /\ (played rpsConfig "game"
          [App.MakeChoice Types.P1 "rock"; App.MakeChoice Types.P2 "paper"]).(App.arrays)
       !! s.(App.rounds) = Some history
    /\ forall round,
         round ∈ history ->
         exists payoff,
           PayoffEngine.calculatePayoff rpsConfig
             round.(App.round_player1Choice) round.(App.round_player2Choice)
           = Exn.Return payoff
           /\ round.(App.player1Score) = payoff.(PayoffEngine.player1Score)
           /\ round.(App.player2Score) = payoff.(PayoffEngine.player2Score).
Proof.
  apply (recorded_rounds_scored_by_table rpsConfig "game"
           [App.MakeChoice Types.P1 "rock"; App.MakeChoice Types.P2 "paper"]).
  vm_compute. discriminate.
Defined.

Lemma last_round_scored_again_witness :
  exists c' s' history,
    App.makeChoice (Some rpsConfig) Types.P2 "rock" finishedGame
    = Exn.Return c'
    /\ c'.(App.gameState) = Some s'
    /\ c'.(App.arrays) !! s'.(App.rounds) = Some history
    /\ List.length history = 4%nat
    /\ s'.(App.currentRound) = 3.
Proof.
  edestruct (last_round_scored_again rpsConfig finishedGame)
    with (playerNum := Types.P2) (choiceId := "rock")
    as (c' & s' & H1 & H2 & H3 & H4 & _).
  - vm_compute. reflexivity.
  - vm_compute. reflexivity.
  - vm_compute. discriminate.
  - reflexivity.
  - discriminate.
  - discriminate.
  - vm_compute. reflexivity.
  - exists c', s'. eexists. split; [exact H1|]. split; [exact H2|].
    split; [exact H3|]. split; [reflexivity | exact H4].
Defined.

(** ** The application with the flow state *)

Section FlowLedger.
Import Types Exn AppFlow.

Variable encode : Decoded -> string.

Lemma updateUrl_state (c : Component) :
  (updateUrl encode c).(arrays) = c.(arrays)
  /\ (updateUrl encode c).(gameState) = c.(gameState)
  /\ (updateUrl encode c).(urlState) = c.(urlState).
Proof.
  unfold updateUrl. destruct c.(gameState) eqn:Eg, c.(urlState) eqn:Eu; auto.
Qed.

Lemma ledger_updateUrl (config : GameConfig) (c : Component) :
  ledgerInvariant config c -> ledgerInvariant config (updateUrl encode c).
Proof.
  destruct (updateUrl_state c) as (Ha & Hg & _).
  intros (s & history & H). exists s, history. now rewrite Ha, Hg.
Qed.

Lemma ledger_startNewGame (config : GameConfig) (uuid : string)
    (c : Component) :
  ledgerInvariant config (startNewGame (Some config) uuid c).
Proof.
  simpl. eexists. exists []. simpl. split; [reflexivity|]. simpl.
  rewrite lookup_insert_eq. repeat split; constructor.
Qed.

Lemma ledger_makeChoice (config : GameConfig) (playerNum : PlayerNumber)
    (choiceId : string) (c c' : Component) :
  ledgerInvariant config c ->
  makeChoice (Some config) playerNum choiceId c = Return c' ->
  ledgerInvariant config c'.
Proof.
  intros (s & history & Hs & Harr & H1 & H2 & Hscored). unfold makeChoice.
  rewrite Hs.
  set (newState := match playerNum with P1 => _ | P2 => _ end).
  assert (Hsame : newState.(rounds) = s.(rounds)
                  /\ newState.(player1Total) = s.(player1Total)
                  /\ newState.(player2Total) = s.(player2Total))
    by (subst newState; destruct playerNum; auto).
  destruct Hsame as (Hrounds & Ht1 & Ht2). clearbody newState.
  destruct (negb (JS.truthy s.(player1Choice))
            && negb (JS.truthy s.(player2Choice))).
  - intros [= <-]. eexists. exists history. split; [reflexivity|]. simpl.
    rewrite Hrounds, Ht1, Ht2. auto.
  - destruct (_ && JS.truthy newState.(player2Choice)).
    + match goal with
      | |- context [PayoffEngine.calculatePayoff ?g ?a ?b] =>
          destruct (PayoffEngine.calculatePayoff g a b) as [payoff|e]
            eqn:Ecalc
      end; simpl; [|discriminate].
      intros [= <-]. eexists. eexists. simpl. split; [reflexivity|]. simpl.
      unfold App.push. rewrite Hrounds, lookup_alter_eq, Harr. simpl.
      split; [reflexivity|].
      rewrite !sumScores_push, Ht1, Ht2, H1, H2. simpl.
      split; [reflexivity|]. split; [reflexivity|].
      apply Forall_app. split; [exact Hscored|].
      constructor; [|constructor]. exists payoff. simpl. auto.
    + intros [= <-]. exists newState, history. simpl.
      rewrite Hrounds, Ht1, Ht2. auto.
Qed.

Lemma ledger_makeNext (config : GameConfig) (choiceId : string)
    (c : Component) :
  ledgerInvariant config c ->
  ledgerInvariant config
    (makeNextChoiceAfterResults (Some config) choiceId c).
Proof.
  intros (s & history & Hs & Harr & H1 & H2 & Hscored).
  unfold makeNextChoiceAfterResults. rewrite Hs.
  eexists. exists history. simpl. split; [reflexivity|].
  destruct (TurnEngine.determineRoundStarter _ _); simpl; auto.
Qed.

Lemma ledger_step (config : GameConfig) (c : Component) (a : Action) :
  ledgerInvariant config c ->
  ledgerInvariant config (step encode (Some config) c a).
Proof.
  intros Hc. destruct a as [uuid|playerNum choiceId|choiceId]; cbn [step].
  - apply ledger_updateUrl, ledger_startNewGame.
  - destruct (makeChoice (Some config) playerNum choiceId c) as [c'|e] eqn:E;
      [|exact Hc].
    eapply ledger_updateUrl, ledger_makeChoice; eassumption.
  - now apply ledger_updateUrl, ledger_makeNext.
Qed.


End FlowLedger.

(** ** Games played through the offered controls *)

Section FlowProtocol.
Import Types Exn AppFlow.

Variable encode : Decoded -> string.
Variable decode : string -> Completion Decoded.
Hypothesis decode_encode :
  forall d, finiteState d = true -> decode (encode d) = Return d.
Hypothesis encode_nonempty : forall d, encode d <> "".

Variable config : GameConfig.
Hypothesis table_valid : Loader.validateGameConfigSemantics config = Return tt.
Hypothesis table_finite : finiteOutcomes config.
Hypothesis ids_nonempty :
  Forall (fun choice => choice.(id) <> "") config.(choices).
Hypothesis rounds_positive : 1 <= config.(progression).(totalRounds).

Lemma calculatePayoff_finite (a b : string)
    (payoff : PayoffEngine.PayoffResult) :
  PayoffEngine.calculatePayoff config a b = Return payoff ->
  JS.isFinite payoff.(PayoffEngine.player1Score) = true
  /\ JS.isFinite payoff.(PayoffEngine.player2Score) = true.
Proof.
  unfold PayoffEngine.calculatePayoff.
  destruct (negb _); [discriminate|]. destruct (negb _); [discriminate|].
  destruct (List.find _ _) as [rule|] eqn:E; [|discriminate].
  intros [= <-]. apply find_some in E as [Hin _].
  unfold finiteOutcomes in table_finite. rewrite Forall_forall in table_finite.
  apply list_elem_of_In in Hin. exact (table_finite rule Hin).
Qed.

Lemma scored_rounds_finite (history : list App.Round) :
  Forall (scoredByTable config) history ->
  forallb Snapshot.finiteRound history = true.
Proof.
  induction 1 as [|round history (payoff & Hcalc & H1 & H2) _ IH];
    [reflexivity|].
  cbn [forallb]. rewrite IH, andb_true_r. unfold Snapshot.finiteRound.
  destruct (calculatePayoff_finite _ _ _ Hcalc) as [F1 F2].
  now rewrite H1, H2, F1, F2.
Qed.

Lemma sumScores_finite (score : App.Round -> JS.number)
    (history : list App.Round) :
  Forall (fun round => JS.isFinite (score round) = true) history ->
  JS.isFinite (sumScores score history) = true.
Proof.
  unfold sumScores. induction 1 as [|round history Hround _ IH];
    [reflexivity|].
  cbn [map fold_right]. destruct (score round); try discriminate.
  destruct (fold_right _ _ _); try discriminate. reflexivity.
Qed.

(** The state a component shows under the invariant has finite numbers. *)
Lemma shown_state_finite (c : Component) (s : GameState)
    (history : list App.Round) :
  c.(arrays) !! s.(rounds) = Some history ->
  s.(player1Total) = sumScores App.player1Score history ->
  s.(player2Total) = sumScores App.player2Score history ->
  Forall (scoredByTable config) history ->
  finiteState (stringified c s) = true.
Proof.
  intros Harr H1 H2 Hscored.
  pose proof (scored_rounds_finite history Hscored) as Hfinite.
  unfold finiteState, stringified. cbn. rewrite Harr, H1, H2. cbn.
  rewrite Hfinite, andb_true_r.
  rewrite forallb_forall in Hfinite.
  rewrite !sumScores_finite; [reflexivity| |];
    apply Forall_forall; intros round Hin;
    apply list_elem_of_In in Hin; specialize (Hfinite round Hin);
    unfold Snapshot.finiteRound in Hfinite;
    apply andb_true_iff in Hfinite; tauto.
Qed.

Lemma offered_choice (choiceId : string) :
  existsb (fun choice => String.eqb choice.(id) choiceId) config.(choices)
  = true ->
  choiceId ∈ choiceIdList config /\ JS.truthy (Some choiceId) = true.
Proof.
  intros H. apply existsb_exists in H as (choice & Hin & Heq).
  apply String.eqb_eq in Heq. subst choiceId.
  apply list_elem_of_In in Hin. split.
  - apply list_elem_of_fmap. now exists choice.
  - rewrite Forall_forall in ids_nonempty.
    simpl. apply negb_true_iff, String.eqb_neq. now apply ids_nonempty.
Qed.

Lemma known_truthy (choiceId : string) :
  choiceId ∈ choiceIdList config -> JS.truthy (Some choiceId) = true.
Proof.
  intros Hin. apply list_elem_of_fmap in Hin as (choice & -> & Hin).
  rewrite Forall_forall in ids_nonempty.
  simpl. apply negb_true_iff, String.eqb_neq. now apply ids_nonempty.
Qed.

Lemma flow_start (uuid : string) (c : Component) :
  flowInvariant encode config (step encode (Some config) c (StartNewGame uuid)).
Proof.
  right. cbn [step startNewGame updateUrl gameState urlState].
  eexists. exists []. split; [reflexivity|]. cbn.
  rewrite lookup_insert_eq. 
  split; [reflexivity|]. split; [now left|]. split; [reflexivity|].
  split; [lia|]. split.
  - unfold flowPhase. simpl. auto.
  - repeat split; constructor.
Qed.

Lemma flow_published (c : Component) (s : GameState)
    (history : list App.Round) :
  c.(gameState) = Some s -> c.(urlState) = None ->
  c.(arrays) !! s.(rounds) = Some history ->
  1 <= s.(currentRound) <= config.(progression).(totalRounds) ->
  flowPhase config s history ->
  s.(player1Total) = sumScores App.player1Score history ->
  s.(player2Total) = sumScores App.player2Score history ->
  Forall (scoredByTable config) history ->
  flowInvariant encode config (updateUrl encode c).
Proof.
  intros Hs Hu Harr Hround Hphase H1 H2 Hscored. right.
  exists s, history. unfold updateUrl. rewrite Hs, Hu. simpl.
  repeat split; auto; lia.
Qed.

Lemma flow_makeChoice (playerNum : PlayerNumber) (choiceId : string)
    (c : Component) :
  flowInvariant encode config c ->
  offers config c (MakeChoice playerNum choiceId) = true ->
  exists c',
    makeChoice (Some config) playerNum choiceId c = Return c'
    /\ flowInvariant encode config (updateUrl encode c').
Proof.
  intros [[Hnone _]|(s & history & Hs & Harr & Hurl & Hhash & Hround & Hphase
                     & H1 & H2 & Hscored)];
    unfold offers.
  { rewrite Hnone. discriminate. }
  rewrite Hs. destruct (isComplete config s c.(urlState)); [discriminate|].
  intros Hoffer. apply andb_true_iff in Hoffer as [Hid Hcase].
  apply offered_choice in Hid as [Hid Htruthy].
  unfold flowPhase in Hphase. unfold makeChoice. rewrite Hs.
  destruct s.(flowState) eqn:Eflow.
  - (* no choice yet *)
    destruct Hphase as (Hp1 & Hp2 & Hlen).
    rewrite Hp1, Hp2 in *. simpl in Hcase. rewrite !orb_false_r in Hcase.
    apply bool_decide_eq_true_1 in Hcase. simpl.
    eexists. split; [reflexivity|].
    eapply (flow_published _ _ history); simpl; try reflexivity;
      try (destruct playerNum; simpl; assumption).
    unfold flowPhase.
    destruct playerNum; simpl; rewrite <- Hcase; simpl;
      (split; [exists choiceId; rewrite ?Hp1, ?Hp2; auto | assumption]).
  - (* the starter has chosen *)
    destruct Hphase as ((a & Ha & Hstarter & Hother) & Hlen).
    pose proof (known_truthy a Ha) as Hta.
    destruct (TurnEngine.determineRoundStarter config s.(currentRound))
      eqn:Estarter; simpl in Hstarter, Hother;
      rewrite Hstarter, Hother in *; rewrite Hta in *; simpl in Hcase.
    + (* player 1 started: player 2 answers *)
      rewrite ?orb_false_r in Hcase.
      apply andb_true_iff in Hcase as [_ Hp].
      apply bool_decide_eq_true_1 in Hp. subst playerNum. simpl.
      rewrite Hstarter, Hta. simpl in Htruthy. rewrite Htruthy. simpl.
      destruct (validated_rule config a choiceId table_valid Ha Hid)
        as (rule & _ & Hcalc).
      rewrite Hcalc. simpl. eexists. split; [reflexivity|].
      eapply (flow_published _ _ (history ++ [_])%list); simpl;
        try reflexivity.
      * unfold App.push. now rewrite lookup_alter_eq, Harr.
      * assumption.
      * unfold flowPhase. simpl. split; [|split; [reflexivity|]].
        -- exists a, choiceId. auto.
        -- rewrite length_app. simpl. lia.
      * rewrite sumScores_push, H1. reflexivity.
      * rewrite sumScores_push, H2. reflexivity.
      * apply Forall_app. split; [assumption|].
        constructor; [|constructor]. exists (resultOf rule). auto.
    + (* player 2 started: player 1 answers *)
      rewrite ?orb_false_r in Hcase.
      apply andb_true_iff in Hcase as [_ Hp].
      apply bool_decide_eq_true_1 in Hp. subst playerNum. simpl.
      rewrite Hstarter, Hta. simpl in Htruthy. rewrite Htruthy. simpl.
      destruct (validated_rule config choiceId a table_valid Hid Ha)
        as (rule & _ & Hcalc).
      rewrite Hcalc. simpl. eexists. split; [reflexivity|].
      eapply (flow_published _ _ (history ++ [_])%list); simpl;
        try reflexivity.
      * unfold App.push. now rewrite lookup_alter_eq, Harr.
      * assumption.
      * unfold flowPhase. simpl. split; [|split; [reflexivity|]].
        -- exists choiceId, a. auto.
        -- rewrite length_app. simpl. lia.
      * rewrite sumScores_push, H1. reflexivity.
      * rewrite sumScores_push, H2. reflexivity.
      * apply Forall_app. split; [assumption|].
        constructor; [|constructor]. exists (resultOf rule). auto.
  - (* the round is scored: no board for this handler *)
    destruct Hphase as ((a & b & Ha & Hb & Hp1 & Hp2) & _).
    rewrite Hp1, Hp2, (known_truthy a Ha), (known_truthy b Hb) in Hcase.
    discriminate.
  - contradiction.
Qed.

Lemma flow_makeNext (choiceId : string) (c : Component) :
  flowInvariant encode config c ->
  offers config c (MakeNextChoiceAfterResults choiceId) = true ->
  flowInvariant encode config
    (updateUrl encode (makeNextChoiceAfterResults (Some config) choiceId c)).
Proof.
  intros [[Hnone _]|(s & history & Hs & Harr & Hurl & Hhash & Hround & Hphase
                     & H1 & H2 & Hscored)];
    unfold offers.
  { rewrite Hnone. discriminate. }
  rewrite Hs. destruct (isComplete config s c.(urlState)); [discriminate|].
  intros Hoffer.
  apply andb_true_iff in Hoffer as [Hoffer Hbelow].
  apply andb_true_iff in Hoffer as [Hoffer _].
  apply andb_true_iff in Hoffer as [Hid Hflow].
  apply offered_choice in Hid as [Hid _].
  apply bool_decide_eq_true_1 in Hflow. apply Z.ltb_lt in Hbelow.
  unfold flowPhase in Hphase. rewrite Hflow in Hphase.
  destruct Hphase as (_ & _ & Hlen).
  unfold makeNextChoiceAfterResults. rewrite Hs.
  eapply (flow_published _ _ history); simpl; try reflexivity.
  - destruct (TurnEngine.determineRoundStarter _ _); exact Harr.
  - destruct (TurnEngine.determineRoundStarter _ _); simpl; lia.
  - unfold flowPhase.
    destruct (TurnEngine.determineRoundStarter config (s.(currentRound) + 1))
      eqn:Estarter; simpl; rewrite Estarter; simpl;
      (split; [exists choiceId; auto | lia]).
  - destruct (TurnEngine.determineRoundStarter _ _); exact H1.
  - destruct (TurnEngine.determineRoundStarter _ _); exact H2.
  - exact Hscored.
Qed.

Lemma flow_openLink (c : Component) :
  flowInvariant encode config c ->
  flowInvariant encode config
    (openLink encode decode (Some config) c.(hash)).
Proof.
  intros [[Hnone Hhash]|(s & history & Hs & Harr & Hurl & Hhash & Hround
                         & Hphase & H1 & H2 & Hscored)];
    unfold openLink, loadFromUrl; cbn [hash].
  { rewrite Hhash. left. split; reflexivity. }
  rewrite Hhash.
  pose proof (encode_nonempty (stringified c s)) as Hne.
  apply truthyString_true in Hne.
  rewrite Hne, decode_encode
    by exact (shown_state_finite c s history Harr H1 H2 Hscored).
  right. unfold updateUrl, stringified. cbn. rewrite Harr. cbn.
  eexists. exists history. split; [reflexivity|]. cbn.
  split; [apply lookup_insert_eq|]. split; [now right|]. split.
  { now rewrite lookup_insert_eq. }
  split; [exact Hround|]. split; [exact Hphase|].
  repeat split; assumption.
Qed.

Lemma flow_press (c : Component) (a : Action) :
  flowInvariant encode config c ->
  offers config c a = true ->
  flowInvariant encode config (step encode (Some config) c a).
Proof.
  intros Hc Hoffer. destruct a as [uuid|playerNum choiceId|choiceId];
    cbn [step].
  - apply flow_start.
  - destruct (flow_makeChoice playerNum choiceId c Hc Hoffer)
      as (c' & -> & Hc'). exact Hc'.
  - now apply flow_makeNext.
Qed.

Lemma playMoves_invariant (moves : list Move) (c c' : Component) :
  flowInvariant encode config c ->
  playMoves encode decode config c moves = Some c' ->
  flowInvariant encode config c'.
Proof.
  revert c. induction moves as [|[a|] moves IH]; intros c Hc; simpl.
  - now intros [= <-].
  - destruct (offers config c a) eqn:Hoffer; [|discriminate].
    apply IH. now apply flow_press.
  - apply IH. now apply flow_openLink.
Qed.


End FlowProtocol.

Lemma exampleCodec_roundtrip (d : AppFlow.Decoded) :
  ExampleCodec.decodeState (ExampleCodec.encodeState d) = Exn.Return d.
Proof.
  unfold ExampleCodec.decodeState, ExampleCodec.encodeState.
  rewrite stringToPos_posToString, decode_encode. f_equal.
  assert (Hnumber : forall x,
             ExampleCodec.tagNumber (ExampleCodec.numberTag x) = x)
    by now intros [].
  destruct d as [a b c d e f g h i j]. unfold ExampleCodec.flatten. simpl.
  rewrite !Hnumber. f_equal.
  - induction g as [|[p1 p2 s1 s2] g IH]; simpl; [reflexivity|].
    now rewrite IH, !Hnumber.
  - now destruct h as [[]|].
  - now destruct i as [[]|].
Qed.

